(** * SkywarnPlus: a shallow embedding of the alert engine

    The definitions below follow [SkywarnPlus.py] function by function.
    Python dictionaries that are iterated in insertion order
    ([OrderedDict], plain [dict]) are association lists with unique keys;
    Python sets are [gset string]; the state file, the copied tone files,
    the written audio files and the executed commands form an explicit
    [world] threaded through a state-and-exception monad.  Strings are
    sequences of 8-bit characters. *)

From Stdlib Require Import ZArith Ascii String.
From stdpp Require Import base tactics option list strings gmap sorting.

Local Open Scope string_scope.
Local Open Scope Z_scope.
Local Open Scope list_scope.

(** ** Exceptions and results *)

Inductive exn :=
  | JSONDecodeError
  | AttributeError
  | KeyError (key : string)
  | ValueError
  | IndexError
  | FileNotFoundError.

Inductive result (A : Type) :=
  | Ok (a : A)
  | Raise (e : exn).
Arguments Ok {A} a.
Arguments Raise {A} e.

#[global] Instance result_ret : MRet result := λ A a, Ok a.
#[global] Instance result_bind : MBind result := λ A B f m,
  match m with Ok a => f a | Raise e => Raise e end.

Definition is_ok {A} (r : result A) : bool :=
  match r with Ok _ => true | Raise _ => false end.

(** ** Python string helpers *)

(** A character of a [string] stands for the code point of its number;
    the texts of the model are those whose code points are below 256.
    [str.isspace] on these: tab, line feed, vertical tab, form feed,
    carriage return, the four separators 28..31, space, next line
    (U+0085) and no-break space (U+00A0). *)
Definition is_space (c : ascii) : bool :=
  let n := nat_of_ascii c in
  ((9 <=? n) && (n <=? 13) || (28 <=? n) && (n <=? 32)
   || (n =? 133) || (n =? 160))%nat.

(** [s.split()]: maximal runs of non-whitespace characters, in order.
    [cur] is the word being read, if any. *)
Fixpoint split_aux (cur : option string) (s : string) : list string :=
  match s with
  | EmptyString => match cur with Some w => [w] | None => [] end
  | String c s' =>
      if is_space c then
        match cur with
        | Some w => w :: split_aux None s'
        | None => split_aux None s'
        end
      else
        split_aux (Some (default "" cur +:+ String c "")) s'
  end.

Definition split (s : string) : list string := split_aux None s.

(** [s.split()[-1]], raising [IndexError] when there is no word. *)
Definition last_word (s : string) : result string :=
  match last (split s) with
  | Some w => Ok w
  | None => Raise IndexError
  end.

(** [s.replace(c, "")] for a one-character [c]. *)
Fixpoint remove_char (c : ascii) (s : string) : string :=
  match s with
  | EmptyString => EmptyString
  | String d s' =>
      if Ascii.eqb c d then remove_char c s' else String d (remove_char c s')
  end.

(** A shell-style matcher for patterns made of literals, [*] and [?].
    On such patterns it is what [fnmatch.fnmatch] computes on a POSIX
    host; it is used to run the model on concrete inputs, the
    development itself is parametric in the matcher. *)
Fixpoint glob (p s : list ascii) : bool :=
  match p with
  | [] => match s with [] => true | _ => false end
  | c :: p' =>
      if Ascii.eqb c "*" then
        (fix star (s : list ascii) : bool :=
           glob p' s || match s with [] => false | _ :: s' => star s' end) s
      else
        match s with
        | [] => false
        | d :: s' => (Ascii.eqb c "?" || Ascii.eqb c d) && glob p' s'
        end
  end.

Definition glob_fnmatch (name pat : string) : bool :=
  glob (list_ascii_of_string pat) (list_ascii_of_string name).

(** ** Data model *)

(** One entry of an alert's list: the dictionary with the keys
    [county_code], [severity], [description] and [end_time_utc]. *)
Record county := County {
  county_code : string;
  severity : Z;
  description : string;
  end_time_utc : string;
}.

#[global] Instance county_eq_dec : EqDecision county.
Proof. solve_decision. Defined.

(** An [OrderedDict] (or insertion-ordered [dict]) with string keys. *)
Definition odict (V : Type) : Type := list (string * V).

Definition od_keys {V} (d : odict V) : list string := d.*1.

Fixpoint od_get {V} (d : odict V) (k : string) : option V :=
  match d with
  | [] => None
  | (k', v) :: d' => if decide (k' = k) then Some v else od_get d' k
  end.

Definition od_mem {V} (d : odict V) (k : string) : bool :=
  bool_decide (is_Some (od_get d k)).

(** [d[k] = v]: overwrite in place when the key exists, else append. *)
Fixpoint od_set {V} (d : odict V) (k : string) (v : V) : odict V :=
  match d with
  | [] => [(k, v)]
  | (k', v') :: d' =>
      if decide (k' = k) then (k, v) :: d' else (k', v') :: od_set d' k v
  end.

(** [OrderedDict(pairs)] and [dict.update]. *)
Definition od_of_pairs {V} (l : list (string * V)) : odict V :=
  foldl (λ d kv, od_set d kv.1 kv.2) [] l.

Definition od_update {V} (d e : odict V) : odict V :=
  foldl (λ d kv, od_set d kv.1 kv.2) d e.

Definition alerts : Type := odict (list county).

(** The value under ["last_sayalert"]: a JSON list of titles after a load
    or a save, a dictionary title -> county codes between the assignment
    in [say_alerts] and the following save. *)
Inductive sayalert :=
  | SayList (titles : list string)
  | SayDict (d : odict (list string)).

(** The parsed content of a well-formed state file.  Every key may be
    missing; ["ct"] and ["id"] hold [null] or a string. *)
Record json_state := JsonState {
  j_ct : option (option string);
  j_id : option (option string);
  j_alertscript_alerts : option (list string);
  j_last_alerts : option (list (string * list county));
  j_last_sayalert : option (list string);
  j_active_alerts : option (list string);
}.

(** What [DATA_FILE] holds. *)
Inductive datafile :=
  | Absent
  | NotJson (raw : string)
  | NotObject
  | Stored (j : json_state).

(** The dictionary returned by [load_state].  The keys ["ct"] and ["id"]
    are the only ones [load_state] does not default. *)
Record state := State {
  ct : option (option string);
  id : option (option string);
  alertscript_alerts : list string;
  last_alerts : alerts;
  last_sayalert : sayalert;
  active_alerts : list string;
}.

Definition default_state : state :=
  {| ct := Some None;
     id := Some None;
     alertscript_alerts := [];
     last_alerts := [];
     last_sayalert := SayList [];
     active_alerts := [] |}.

(** ** Audio *)

Inductive wav :=
  | SWP (n : nat)
  | Effect (name : string)
  | Sound (rel : string).

Inductive clip :=
  | Silent (ms : Z)
  | File (w : wav).

#[global] Instance wav_eq_dec : EqDecision wav.
Proof. solve_decision. Defined.
#[global] Instance clip_eq_dec : EqDecision clip.
Proof. solve_decision. Defined.

(** An [AudioSegment] is the sequence of the clips it was built from;
    [+] is concatenation and [AudioSegment.empty()] is the empty one. *)
Definition AudioSegment : Type := list clip.
Definition AudioSegment_empty : AudioSegment := [].

(** A written wave file: [convert_audio] fixes rate and channels. *)
Record wavfile := WavFile {
  frame_rate : Z;
  channels : Z;
  clips : AudioSegment;
}.

Definition convert_audio (a : AudioSegment) : wavfile :=
  {| frame_rate := 8000; channels := 1; clips := a |}.

(** ** The world: files and processes *)

Inductive command :=
  | LocalPlay (node : string) (file : string)
  | Bash (cmd : string)
  | Dtmf (node : string) (cmd : string).

#[global] Instance command_eq_dec : EqDecision command.
Proof. solve_decision. Defined.

Record world := World {
  data_file : datafile;
  copied : list (string * string);
  ran : list command;
  tailmessage_file : option wavfile;
  alert_file : option wavfile;
  allclear_file : option wavfile;
  warnings_txt : option (list string);
  pushed : list string;
}.

(** State and exceptions: a raised exception keeps the state reached. *)
Definition SE (S A : Type) : Type := S → result A * S.

#[global] Instance SE_ret {S} : MRet (SE S) := λ A a s, (Ok a, s).
#[global] Instance SE_bind {S} : MBind (SE S) := λ A B f m s,
  match m s with
  | (Ok a, s') => f a s'
  | (Raise e, s') => (Raise e, s')
  end.

Definition raise {S A} (e : exn) : SE S A := λ s, (Raise e, s).
Definition lift {S A} (r : result A) : SE S A := λ s, (r, s).

(** [try: m except <handled>: pass] *)
Definition try_except {S} (m : SE S unit) (handled : exn → bool) : SE S unit :=
  λ s, match m s with
       | (Raise e, s') => if handled e then (Ok (), s') else (Raise e, s')
       | r => r
       end.

(** [for x in l: body x] *)
Fixpoint for_each {S A} (l : list A) (body : A → SE S unit) : SE S unit :=
  match l with
  | [] => mret ()
  | x :: l' => body x ;; for_each l' body
  end.

Abbreviation M := (SE world).

Definition set_data_file (d : datafile) : M unit := λ w,
  (Ok (), World d (copied w) (ran w) (tailmessage_file w) (alert_file w)
             (allclear_file w) (warnings_txt w) (pushed w)).

(** [subprocess.run(...)], appended to the log of commands. *)
Definition run (c : command) : M unit := λ w,
  (Ok (), World (data_file w) (copied w) (ran w ++ [c])
             (tailmessage_file w) (alert_file w) (allclear_file w)
             (warnings_txt w) (pushed w)).

Definition export_tailmessage (f : wavfile) : M unit := λ w,
  (Ok (), World (data_file w) (copied w) (ran w) (Some f) (alert_file w)
             (allclear_file w) (warnings_txt w) (pushed w)).

Definition export_alert (f : wavfile) : M unit := λ w,
  (Ok (), World (data_file w) (copied w) (ran w) (tailmessage_file w)
             (Some f) (allclear_file w) (warnings_txt w) (pushed w)).

Definition export_allclear (f : wavfile) : M unit := λ w,
  (Ok (), World (data_file w) (copied w) (ran w) (tailmessage_file w)
             (alert_file w) (Some f) (warnings_txt w) (pushed w)).

Definition write_warnings (titles : list string) : M unit := λ w,
  (Ok (), World (data_file w) (copied w) (ran w) (tailmessage_file w)
             (alert_file w) (allclear_file w) (Some titles) (pushed w)).

Definition post_pushover (message : string) : M unit := λ w,
  (Ok (), World (data_file w) (copied w) (ran w) (tailmessage_file w)
             (alert_file w) (allclear_file w) (warnings_txt w)
             (pushed w ++ [message])).

(** ** State persistence *)

(** [json.load] of the state file followed by the defaulting of
    [load_state]. *)
Definition load_state_of (d : datafile) : result state :=
  match d with
  | Absent => Ok default_state
  | NotJson _ => Raise JSONDecodeError
  | NotObject => Raise AttributeError
  | Stored j =>
      Ok {| ct := j_ct j;
            id := j_id j;
            alertscript_alerts := default [] (j_alertscript_alerts j);
            last_alerts := od_of_pairs (default [] (j_last_alerts j));
            last_sayalert := SayList (default [] (j_last_sayalert j));
            active_alerts := default [] (j_active_alerts j) |}
  end.

Definition load_state : M state := λ w, (load_state_of (data_file w), w).

(** [list(state["last_sayalert"])]: a list stays, a dictionary gives its
    keys. *)
Definition sayalert_list (s : sayalert) : list string :=
  match s with
  | SayList l => l
  | SayDict d => od_keys d
  end.

(** The JSON document [save_state] writes. *)
Definition json_of_state (st : state) : json_state :=
  {| j_ct := ct st;
     j_id := id st;
     j_alertscript_alerts := Some (alertscript_alerts st);
     j_last_alerts := Some (last_alerts st);
     j_last_sayalert := Some (sayalert_list (last_sayalert st));
     j_active_alerts := Some (active_alerts st) |}.

Definition save_state (st : state) : M unit :=
  set_data_file (Stored (json_of_state st)).

(** ** Configuration and host functions *)

(** One entry of [AlertScript.Mappings]. *)
Record mapping := Mapping {
  Triggers : list string;
  Commands : list string;
  Nodes : list string;
  Match : string;
  Type_ : option string;
}.

(** The values read from [config.yaml], after the defaults applied at
    module level. *)
Class Config := {
  MAX_ALERTS : nat;
  GLOBAL_BLOCKED_EVENTS : list string;
  SAYALERT_BLOCKED_EVENTS : list string;
  TAILMESSAGE_BLOCKED_EVENTS : list string;
  AUDIO_DELAY : Z;
  ENABLE_TAILMESSAGE : bool;
  COUNTY_CODES : list string;
  COUNTY_WAVS : list string;
  TONE_DIR : string;
  CT1 : string;
  CT2 : string;
  WXCT : string;
  RptCT1 : string;
  RptCT2 : string;
  IDDir : string;
  NormalID : string;
  WXID : string;
  RptID : string;
  TailmessageCounties : bool;
  TailmessageSuffix : option string;
  AlertSeperator : string;
  AlertSound : string;
  AllClearSound : string;
  WithMultiples : bool;
  SayAlertSuffix : option string;
  SayAllClearSuffix : option string;
  AsteriskNodes : list string;
  Mappings : list mapping;
  SayAlert : bool;
  SayAlertAll : bool;
  SayAllClear : bool;
  SayAlertsChanged : bool;
  AlertScriptEnable : bool;
  CTAlerts : list string;
  CTEnable : bool;
  IDAlerts : list string;
  IDEnable : bool;
  PushoverEnable : bool;
  PushoverDebug : bool;
  SupermonCompat : bool;
  TimeType : string;
}.

(** Library and operating-system functions the engine calls:
    [fnmatch.fnmatch], [dateutil.parser.parse] (to an instant),
    [strftime] of an instant with the format of [end_time_utc], whether
    [AudioSegment.from_wav] finds its file, whether a file to copy is
    there when the cycle starts, [cmd.format(alert_title=alert)], which
    raises on a template with any other field or a stray brace, and the
    county names table. *)
Class Host := {
  fnmatch : string → string → bool;
  parser_parse : string → Z;
  strftime : Z → string;
  wav_exists : wav → bool;
  file_exists : string → bool;
  str_format : string → string → result string;
  county_data : odict string;
}.

(** [os.path.join(a, b)] *)
Definition ends_with_slash (a : string) : bool :=
  match last (list_ascii_of_string a) with
  | Some c => Ascii.eqb c "/"
  | None => false
  end.

Definition path_join (a b : string) : string :=
  match b with
  | String c _ =>
      if Ascii.eqb c "/" then b
      else if decide (a = "") then b
      else if ends_with_slash a then a +:+ b
      else a +:+ "/" +:+ b
  | EmptyString =>
      if decide (a = "") then "" else if ends_with_slash a then a else a +:+ "/"
  end.

(** [s.upper()]: the letters a to z are raised and every other
    character is kept.  The result is only compared with [ANY] and
    [ALL], and no character other than these letters is raised to one
    of theirs, so the comparisons are those of the program. *)
Definition upper_char (c : ascii) : ascii :=
  let n := nat_of_ascii c in
  if ((97 <=? n) && (n <=? 122))%nat then ascii_of_nat (n - 32) else c.

Fixpoint upper (s : string) : string :=
  match s with
  | EmptyString => EmptyString
  | String c s' => String (upper_char c) (upper s')
  end.

(** ** Severity and sorting *)

Definition severity_mapping_words (w : string) : Z :=
  if decide (w = "Warning") then 4
  else if decide (w = "Watch") then 3
  else if decide (w = "Advisory") then 2
  else if decide (w = "Statement") then 1
  else 0.

Definition severity_mapping_api (s : string) : Z :=
  if decide (s = "Extreme") then 4
  else if decide (s = "Severe") then 3
  else if decide (s = "Moderate") then 2
  else if decide (s = "Minor") then 1
  else 0.

(** [max(l)], raising [ValueError] on the empty list. *)
Definition py_max (l : list Z) : result Z :=
  match l with
  | [] => Raise ValueError
  | x :: l' => Ok (foldl Z.max x l')
  end.

(** The key of the [sorted] calls: the tuple is built left to right. *)
Definition sort_key (item : string * list county) : result (Z * Z) :=
  m ← py_max (severity <$> item.2);
  w ← last_word item.1;
  mret (m, severity_mapping_words w).

(** Tuple comparison [a < b]. *)
Definition key_ltb (a b : Z * Z) : bool :=
  (a.1 <? b.1) || ((a.1 =? b.1) && (a.2 <? b.2)).

(** [sorted(..., reverse=True)] on decorated items: stable, descending.
    An item passes the items whose key is strictly greater and stops in
    front of the first one whose key is not. *)
Fixpoint insert_desc {A} (x : (Z * Z) * A) (l : list ((Z * Z) * A))
  : list ((Z * Z) * A) :=
  match l with
  | [] => [x]
  | y :: l' => if key_ltb x.1 y.1 then y :: insert_desc x l' else x :: y :: l'
  end.

Definition sorted_desc {A} (l : list ((Z * Z) * A)) : list ((Z * Z) * A) :=
  foldr insert_desc [] l.

(** Keys are computed for every item, in order, before any comparison. *)
Fixpoint decorate (l : alerts) : result (list ((Z * Z) * (string * list county))) :=
  match l with
  | [] => Ok []
  | item :: l' =>
      k ← sort_key item;
      r ← decorate l';
      mret ((k, item) :: r)
  end.

Section Engine.
Context {cfg : Config} {os : Host}.

Definition sort_alerts (a : alerts) : result alerts :=
  d ← decorate a;
  mret (take MAX_ALERTS ((sorted_desc d).*2)).

(** ** Courtesy tone and identifier *)

(** [shutil.copyfile(src, dest)]: it raises [FileNotFoundError] when
    the source is neither there from the start nor the destination of
    an earlier copy; a copy made is appended to the log of copies. *)
Definition copyfile (src dest : string) : M unit := λ w,
  if file_exists src || bool_decide (src ∈ (copied w).*2) then
    (Ok (), World (data_file w) (copied w ++ [(src, dest)]) (ran w)
               (tailmessage_file w) (alert_file w) (allclear_file w)
               (warnings_txt w) (pushed w))
  else (Raise FileNotFoundError, w).

Definition set_ct (st : state) (v : string) : state :=
  {| ct := Some (Some v); id := id st;
     alertscript_alerts := alertscript_alerts st;
     last_alerts := last_alerts st;
     last_sayalert := last_sayalert st;
     active_alerts := active_alerts st |}.

Definition set_id (st : state) (v : string) : state :=
  {| ct := ct st; id := Some (Some v);
     alertscript_alerts := alertscript_alerts st;
     last_alerts := last_alerts st;
     last_sayalert := last_sayalert st;
     active_alerts := active_alerts st |}.

(** [state[key]] for the two keys that may be missing. *)
Definition getitem (key : string) (v : option (option string))
  : result (option string) :=
  match v with
  | Some x => Ok x
  | None => Raise (KeyError key)
  end.

(** The result is [None] for the bare [return], else [Some b] for
    [return b]. *)
Definition change_ct (ct_arg : string) : M (option bool) :=
  st ← load_state;
  current_ct ← lift (getitem "ct" (ct st));
  if decide (ct_arg = "") then mret None
  else if decide (Some ct_arg = current_ct) then mret (Some false)
  else
    (if decide (ct_arg = "NORMAL") then
       copyfile (path_join TONE_DIR CT1) (path_join TONE_DIR RptCT1) ;;
       copyfile (path_join TONE_DIR CT2) (path_join TONE_DIR RptCT2)
     else
       copyfile (path_join TONE_DIR WXCT) (path_join TONE_DIR RptCT1) ;;
       copyfile (path_join TONE_DIR WXCT) (path_join TONE_DIR RptCT2)) ;;
    save_state (set_ct st ct_arg) ;;
    mret (Some true).

Definition change_id (id_arg : string) : M (option bool) :=
  st ← load_state;
  current_id ← lift (getitem "id" (id st));
  if decide (id_arg = "") then mret None
  else if decide (Some id_arg = current_id) then mret (Some false)
  else
    (if decide (id_arg = "NORMAL") then
       copyfile (path_join IDDir NormalID) (path_join IDDir RptID)
     else
       copyfile (path_join IDDir WXID) (path_join IDDir RptID)) ;;
    save_state (set_id st id_arg) ;;
    mret (Some true).

(** ** AlertScript *)

(** The inner loops of [alert_script]: one entry per pair of a new
    alert and a trigger it matches. *)
Definition matched_alerts (new_alerts triggers : list string) : list string :=
  flat_map
    (λ alert,
       flat_map (λ trigger, if fnmatch alert trigger then [alert] else [])
                triggers)
    new_alerts.

(** The condition guarding the execution of a mapping's commands. *)
Definition fires (match_type : string) (matched triggers : list string) : bool :=
  bool_decide (match_type = "ANY") && bool_decide (matched ≠ [])
  || bool_decide (match_type = "ALL")
     && bool_decide (length matched = length triggers).

(** The commands run for one entry of [matched_alerts]; a template
    that does not format raises before its command is run. *)
Definition run_commands (m : mapping) (alert : string) : M unit :=
  if decide (Type_ m = Some "BASH") then
    for_each (Commands m) (λ cmd,
      cmd ← lift (str_format cmd alert);
      run (Bash cmd))
  else if decide (Type_ m = Some "DTMF") then
    for_each (Nodes m) (λ node,
      for_each (Commands m) (λ cmd, run (Dtmf node cmd)))
  else mret ().

Fixpoint run_matched (m : mapping) (matched : list string)
    (processed : gset string) : M (gset string) :=
  match matched with
  | [] => mret processed
  | alert :: rest =>
      run_commands m alert ;;
      run_matched m rest ({[alert]} ∪ processed)
  end.

Definition process_mapping (m : mapping) (new_alerts : list string)
    (processed : gset string) : M (gset string) :=
  let matched := matched_alerts new_alerts (Triggers m) in
  if fires (upper (Match m)) matched (Triggers m)
  then run_matched m matched processed
  else mret processed.

Fixpoint process_mappings (ms : list mapping) (new_alerts : list string)
    (processed : gset string) : M (gset string) :=
  match ms with
  | [] => mret processed
  | m :: ms' =>
      processed' ← process_mapping m new_alerts processed;
      process_mappings ms' new_alerts processed'
  end.

Definition set_active_alerts (st : state) (v : list string) : state :=
  {| ct := ct st; id := id st;
     alertscript_alerts := alertscript_alerts st;
     last_alerts := last_alerts st;
     last_sayalert := last_sayalert st;
     active_alerts := v |}.

Definition set_alertscript_alerts (st : state) (v : list string) : state :=
  {| ct := ct st; id := id st;
     alertscript_alerts := v;
     last_alerts := last_alerts st;
     last_sayalert := last_sayalert st;
     active_alerts := active_alerts st |}.

(** Sets are iterated in the order of [elements]. *)
Definition alert_script (a : alerts) : M unit :=
  st ← load_state;
  let processed_alerts : gset string := list_to_set (alertscript_alerts st) in
  let active : gset string := list_to_set (active_alerts st) in
  let alert_names : gset string := list_to_set (od_keys a) in
  let new_alerts := alert_names ∖ active in
  let cleared_alerts := active ∖ alert_names in
  let st := set_active_alerts st (elements alert_names) in
  processed_alerts ← process_mappings Mappings (elements new_alerts)
                                      processed_alerts;
  let processed_alerts := processed_alerts ∖ cleared_alerts in
  save_state (set_alertscript_alerts st (elements processed_alerts)).

(** ** Differences between two cycles *)

(** The two comprehensions of [main]. *)
Definition added_alerts (a last : alerts) : list string :=
  filter (λ alert, od_get last alert = None) (od_keys a).

Definition removed_alerts (a last : alerts) : list string :=
  filter (λ alert, od_get a alert = None) (od_keys last).

(** The three chained [replace] calls: both braces and the double quote
    (character 34) are removed from a code. *)
Definition strip_code (code : string) : string :=
  remove_char (ascii_of_nat 34) (remove_char "}" (remove_char "{" code)).

Record change := Change {
  old : gset string;
  added : gset string;
  removed : gset string;
}.

Definition county_codes (info : list county) : gset string :=
  list_to_set (county_code <$> info).

Definition detect_step (old_alerts new_alerts : alerts)
    (acc : alerts * odict change) (item : string * list county)
    : alerts * odict change :=
  let '(alert_name, alert_info) := item in
  match od_get old_alerts alert_name with
  | None => acc
  | Some old_alert_info =>
      let old_county_codes := county_codes old_alert_info in
      let new_county_codes := county_codes alert_info in
      let added_counties : gset string :=
        set_map strip_code (new_county_codes ∖ old_county_codes) in
      let removed_counties : gset string :=
        set_map strip_code (old_county_codes ∖ new_county_codes) in
      if bool_decide (added_counties ≠ ∅) || bool_decide (removed_counties ≠ ∅)
      then
        (od_set acc.1 alert_name
                (default alert_info (od_get new_alerts alert_name)),
         od_set acc.2 alert_name
                (Change old_county_codes added_counties removed_counties))
      else acc
  end.

Definition detect_county_changes (old_alerts new_alerts : alerts)
    : alerts * odict change :=
  foldl (detect_step old_alerts new_alerts) ([], []) new_alerts.

(** ** Fetching alerts *)

(** The properties of one feature of the feed that [get_alerts] reads;
    [None] is a missing key or [null]. *)
Record feature := Feature {
  event : string;
  onset : option string;
  ends : option string;
  effective : option string;
  expires : option string;
  f_description : option string;
  f_severity : option string;
}.

(** Python truthiness of an optional string. *)
Definition truthy (s : option string) : bool :=
  match s with
  | Some s => negb (bool_decide (s = ""))
  | None => false
  end.

Definition time_type_start (f : feature) : option string :=
  if decide (TimeType = "effective") then effective f else onset f.

Definition time_type_end (f : feature) : option string :=
  if decide (TimeType = "effective") then expires f else ends f.

(** The body of the loop over [alert_data["features"]]; the state is
    the pair of [alerts] and [seen_alerts]. *)
Definition process_feature (current_time : Z) (countyCode : string)
    (f : feature) : SE (alerts * gset string) unit := λ acc,
  let start := time_type_start f in
  let end_ := if truthy (time_type_end f) then time_type_end f else expires f in
  if truthy start && truthy end_ then
    let start_time_utc := parser_parse (default "" start) in
    let end_time_utc_ := parser_parse (default "" end_) in
    if bool_decide (start_time_utc ≤ current_time < end_time_utc_) then
      if existsb (fnmatch (event f)) GLOBAL_BLOCKED_EVENTS then (Ok (), acc)
      else
        match
          match f_severity f with
          | None => w ← last_word (event f); mret (severity_mapping_words w)
          | Some s => Ok (severity_mapping_api s)
          end
        with
        | Raise e => (Raise e, acc)
        | Ok sev =>
            let c := {| county_code := countyCode;
                        severity := sev;
                        description := default "" (f_description f);
                        end_time_utc := strftime end_time_utc_ |} in
            if decide (event f ∈ acc.2) then
              match od_get acc.1 (event f) with
              | Some l => (Ok (), (od_set acc.1 (event f) (l ++ [c])%list, acc.2))
              | None => (Raise (KeyError (event f)), acc)
              end
            else
              (Ok (), (od_set acc.1 (event f) [c], {[event f]} ∪ acc.2))
        end
    else (Ok (), acc)
  else (Ok (), acc).

(** The handler of the failed request: the stored alerts, each with the
    entries that have not expired. *)
Definition stored_fallback (current_time_str : string)
    (stored_alerts : list (string * list county)) : alerts :=
  foldl
    (λ (acc : alerts) stored_alert,
       od_set acc stored_alert.1
         (filter (λ alert, parser_parse current_time_str
                           ≤ parser_parse (end_time_utc alert))
                 stored_alert.2))
    [] stored_alerts.

(** The loop over the county codes.  [fetch] is the request of one
    zone, [None] when it raises a [RequestException]; the loop ends at
    the first failure. *)
Fixpoint fetch_loop (fetch : string → option (list feature))
    (current_time fallback_time : Z) (countyCodes : list string)
    (acc : alerts * gset string) : M alerts :=
  match countyCodes with
  | [] => mret acc.1
  | countyCode :: rest =>
      match fetch countyCode with
      | Some features =>
          match for_each features (process_feature current_time countyCode) acc with
          | (Ok _, acc') => fetch_loop fetch current_time fallback_time rest acc'
          | (Raise e, _) => raise e
          end
      | None =>
          λ w,
            match data_file w with
            | Absent => (Ok acc.1, w)
            | NotJson _ => (Raise JSONDecodeError, w)
            | NotObject => (Raise AttributeError, w)
            | Stored j =>
                (Ok (stored_fallback (strftime fallback_time)
                                     (default [] (j_last_alerts j))), w)
            end
      end
  end.

(** [get_alerts] with [DEV.INJECT] off.  The final sort and truncation
    repeat the body of [sort_alerts]. *)
Definition get_alerts (fetch : string → option (list feature))
    (current_time fallback_time : Z) (countyCodes : list string) : M alerts :=
  a ← fetch_loop fetch current_time fallback_time countyCodes ([], ∅);
  lift (sort_alerts a).

(** ** Audio assembly *)

Definition ALERT_STRINGS : list string :=
  [
 "911 Telephone Outage Emergency";
 "Administrative Message";
 "Air Quality Alert";
 "Air Stagnation Advisory";
 "Arroyo And Small Stream Flood Advisory";
 "Ashfall Advisory";
 "Ashfall Warning";
 "Avalanche Advisory";
 "Avalanche Warning";
 "Avalanche Watch";
 "Beach Hazards Statement";
 "Blizzard Warning";
 "Blizzard Watch";
 "Blowing Dust Advisory";
 "Blowing Dust Warning";
 "Brisk Wind Advisory";
 "Child Abduction Emergency";
 "Civil Danger Warning";
 "Civil Emergency Message";
 "Coastal Flood Advisory";
 "Coastal Flood Statement";
 "Coastal Flood Warning";
 "Coastal Flood Watch";
 "Dense Fog Advisory";
 "Dense Smoke Advisory";
 "Dust Advisory";
 "Dust Storm Warning";
 "Earthquake Warning";
 "Evacuation - Immediate";
 "Excessive Heat Warning";
 "Excessive Heat Watch";
 "Extreme Cold Warning";
 "Extreme Cold Watch";
 "Extreme Fire Danger";
 "Extreme Wind Warning";
 "Fire Warning";
 "Fire Weather Watch";
 "Flash Flood Statement";
 "Flash Flood Warning";
 "Flash Flood Watch";
 "Flood Advisory";
 "Flood Statement";
 "Flood Warning";
 "Flood Watch";
 "Freeze Warning";
 "Freeze Watch";
 "Freezing Fog Advisory";
 "Freezing Rain Advisory";
 "Freezing Spray Advisory";
 "Frost Advisory";
 "Gale Warning";
 "Gale Watch";
 "Hard Freeze Warning";
 "Hard Freeze Watch";
 "Hazardous Materials Warning";
 "Hazardous Seas Warning";
 "Hazardous Seas Watch";
 "Hazardous Weather Outlook";
 "Heat Advisory";
 "Heavy Freezing Spray Warning";
 "Heavy Freezing Spray Watch";
 "High Surf Advisory";
 "High Surf Warning";
 "High Wind Warning";
 "High Wind Watch";
 "Hurricane Force Wind Warning";
 "Hurricane Force Wind Watch";
 "Hurricane Local Statement";
 "Hurricane Warning";
 "Hurricane Watch";
 "Hydrologic Advisory";
 "Hydrologic Outlook";
 "Ice Storm Warning";
 "Lake Effect Snow Advisory";
 "Lake Effect Snow Warning";
 "Lake Effect Snow Watch";
 "Lake Wind Advisory";
 "Lakeshore Flood Advisory";
 "Lakeshore Flood Statement";
 "Lakeshore Flood Warning";
 "Lakeshore Flood Watch";
 "Law Enforcement Warning";
 "Local Area Emergency";
 "Low Water Advisory";
 "Marine Weather Statement";
 "Nuclear Power Plant Warning";
 "Radiological Hazard Warning";
 "Red Flag Warning";
 "Rip Current Statement";
 "Severe Thunderstorm Warning";
 "Severe Thunderstorm Watch";
 "Severe Weather Statement";
 "Shelter In Place Warning";
 "Short Term Forecast";
 "Small Craft Advisory";
 "Small Craft Advisory For Hazardous Seas";
 "Small Craft Advisory For Rough Bar";
 "Small Craft Advisory For Winds";
 "Small Stream Flood Advisory";
 "Snow Squall Warning";
 "Special Marine Warning";
 "Special Weather Statement";
 "Storm Surge Warning";
 "Storm Surge Watch";
 "Storm Warning";
 "Storm Watch";
 "Test";
 "Tornado Warning";
 "Tornado Watch";
 "Tropical Depression Local Statement";
 "Tropical Storm Local Statement";
 "Tropical Storm Warning";
 "Tropical Storm Watch";
 "Tsunami Advisory";
 "Tsunami Warning";
 "Tsunami Watch";
 "Typhoon Local Statement";
 "Typhoon Warning";
 "Typhoon Watch";
 "Urban And Small Stream Flood Advisory";
 "Volcano Warning";
 "Wind Advisory";
 "Wind Chill Advisory";
 "Wind Chill Warning";
 "Wind Chill Watch";
 "Winter Storm Warning";
 "Winter Storm Watch";
 "Winter Weather Advisory"
  ].

(** [l.index(x)] *)
Definition py_index {A} `{EqDecision A} (l : list A) (x : A) : result nat :=
  match list_find (λ y, y = x) l with
  | Some (i, _) => Ok i
  | None => Raise ValueError
  end.

(** [l[i]] *)
Definition py_nth {A} (l : list A) (i : nat) : result A :=
  match l !! i with
  | Some x => Ok x
  | None => Raise IndexError
  end.

Definition from_wav (w : wav) : result clip :=
  if wav_exists w then Ok (File w) else Raise FileNotFoundError.

(** Truth value of an [AudioSegment]: it has [__len__] and no
    [__bool__], so it is true when its length is not zero.  Only the
    empty segment is tested in the source. *)
Definition segment_bool (a : AudioSegment) : bool :=
  match a with [] => false | _ => true end.

(** [len(set(descriptions)) > 1 or len(set(end_times)) > 1] *)
Definition multiples (counties : list county) : bool :=
  bool_decide (1 < size (list_to_set (description <$> counties) : gset string))%nat
  || bool_decide (1 < size (list_to_set (end_time_utc <$> counties) : gset string))%nat.

Definition caught (e : exn) : bool :=
  match e with
  | ValueError | FileNotFoundError => true
  | _ => false
  end.

Definition caught_missing_file (e : exn) : bool :=
  match e with
  | FileNotFoundError => true
  | _ => false
  end.

(** The variables the loops of the two builders update. *)
Record builder := Builder {
  combined_sound : AudioSegment;
  added_counties : gset string;
  alert_count : nat;
}.

Definition append_sound (a : AudioSegment) : SE builder unit := λ b,
  (Ok (), Builder (combined_sound b ++ a)%list (added_counties b) (alert_count b)).

Definition add_county (code : string) : SE builder unit := λ b,
  (Ok (), Builder (combined_sound b) ({[code]} ∪ added_counties b) (alert_count b)).

Definition reset_counties : SE builder unit := λ b,
  (Ok (), Builder (combined_sound b) ∅ (alert_count b)).

Definition count_alert : SE builder unit := λ b,
  (Ok (), Builder (combined_sound b) (added_counties b) (S (alert_count b))).

Definition get_added : SE builder (gset string) := λ b, (Ok (added_counties b), b).

(** The multiples announcement shared by both builders. *)
Definition add_multiples (counties : list county) : SE builder unit :=
  if WithMultiples then
    if multiples counties then
      multiples_sound ← lift (from_wav (SWP 149));
      append_sound [Silent 200; multiples_sound]
    else mret ()
  else mret ().

Definition word_space (counties : list county) (c : county) : result clip :=
  i ← py_index counties c;
  mret (Silent (if decide (i = 0%nat) then 600 else 400)).

Definition is_last (counties : list county) (c : county) : result bool :=
  i ← py_index counties c;
  mret (bool_decide (Z.of_nat i = Z.of_nat (length counties) - 1)).

(** [AudioSegment.empty] is a class method (the source builds its
    initial segment with it): called on an instance it returns a new
    empty segment whatever the instance holds. *)
Definition empty (self : AudioSegment) : AudioSegment := AudioSegment_empty.

(** *** The tail message *)

(** The body of the loop over the counties of one alert. *)
Definition tail_county (counties : list county) (c : county) : SE builder unit :=
  ws ← lift (word_space counties c);
  added ← get_added;
  if bool_decide (COUNTY_WAVS ≠ [])
     && bool_decide (county_code c ∈ COUNTY_CODES)
     && bool_decide (county_code c ∉ added)
  then
    index ← lift (py_index COUNTY_CODES (county_code c));
    county_name_file ← lift (py_nth COUNTY_WAVS index);
    try_except
      (f ← lift (from_wav (Sound county_name_file));
       append_sound [ws; f] ;;
       last_one ← lift (is_last counties c);
       (if (last_one : bool) then append_sound [Silent 600] else mret ()) ;;
       add_county (county_code c))
      caught_missing_file
  else mret ().

(** The body of the loop over the alerts. *)
Definition tail_alert (sound_effect : clip) (item : string * list county)
    : SE builder unit :=
  if existsb (fnmatch item.1) TAILMESSAGE_BLOCKED_EVENTS then mret ()
  else
    try_except
      (index ← lift (py_index ALERT_STRINGS item.1);
       audio_file ← lift (from_wav (SWP (S index)));
       append_sound [sound_effect; audio_file] ;;
       add_multiples item.2 ;;
       if TailmessageCounties
       then for_each item.2 (tail_county item.2)
       else mret ())
      caught.

Definition silence_100 : wavfile := convert_audio [Silent 100].

Definition build_tailmessage (a : alerts) : M unit :=
  if bool_decide (a = []) then export_tailmessage silence_100
  else
    sound_effect ← lift (from_wav (Effect AlertSeperator));
    match for_each a (tail_alert sound_effect) (Builder AudioSegment_empty ∅ 0) with
    | (Raise e, _) => raise e
    | (Ok _, b) =>
        let combined := combined_sound b in
        combined ←
          (if segment_bool (empty combined) then mret [Silent 100]
           else
             match TailmessageSuffix with
             | Some suffix =>
                 suffix_sound ← lift (from_wav (Sound suffix));
                 mret (combined ++ [Silent 1000; suffix_sound])%list
             | None =>
                 if 0 <? AUDIO_DELAY
                 then mret (Silent AUDIO_DELAY :: combined)
                 else mret combined
             end);
        export_tailmessage (convert_audio combined)
    end.

(** *** The spoken announcement *)

Definition say_county (counties : list county) (c : county) : SE builder unit :=
  ws ← lift (word_space counties c);
  added ← get_added;
  if bool_decide (COUNTY_WAVS ≠ [])
     && bool_decide (county_code c ∈ COUNTY_CODES)
     && bool_decide (county_code c ∉ added)
  then
    index ← lift (py_index COUNTY_CODES (county_code c));
    county_name_file ← lift (py_nth COUNTY_WAVS index);
    try_except
      (f ← lift (from_wav (Sound county_name_file));
       append_sound [ws; f])
      caught_missing_file ;;
    add_county (county_code c) ;;
    last_one ← lift (is_last counties c);
    if (last_one : bool) then append_sound [Silent 600] else mret ()
  else mret ().

Definition say_alert (sound_effect : clip) (filtered : odict (list string))
    (item : string * list county) : SE builder unit :=
  if od_mem filtered item.1 then
    try_except
      (index ← lift (py_index ALERT_STRINGS item.1);
       audio_file ← lift (from_wav (SWP (S index)));
       append_sound [sound_effect; audio_file] ;;
       add_multiples item.2 ;;
       count_alert ;;
       reset_counties ;;
       for_each item.2 (say_county item.2))
      caught
  else mret ().

Definition alert_names_and_counties (a : alerts) : odict (list string) :=
  od_of_pairs
    ((λ item : string * list county, (item.1, county_code <$> item.2))
       <$> (a : list (string * list county))).

Definition filtered_alerts_and_counties (a : alerts) : odict (list string) :=
  foldl
    (λ (acc : odict (list string)) item,
       if existsb (fnmatch item.1) SAYALERT_BLOCKED_EVENTS then acc
       else od_set acc item.1 item.2)
    [] (alert_names_and_counties a).

(** [d == e] on dictionaries: same keys with equal values, in any
    order. *)
Definition dict_eqb (d e : odict (list string)) : bool :=
  bool_decide (length d = length e)
  && forallb (λ kv, bool_decide (od_get e kv.1 = Some kv.2)) d.

(** [filtered == state.get("last_sayalert", {})]: a dictionary never
    equals a list. *)
Definition sayalert_eqb (d : odict (list string)) (s : sayalert) : bool :=
  match s with
  | SayList _ => false
  | SayDict e => dict_eqb d e
  end.

Definition set_last_sayalert (st : state) (v : sayalert) : state :=
  {| ct := ct st; id := id st;
     alertscript_alerts := alertscript_alerts st;
     last_alerts := last_alerts st;
     last_sayalert := v;
     active_alerts := active_alerts st |}.

Definition set_last_alerts (st : state) (v : alerts) : state :=
  {| ct := ct st; id := id st;
     alertscript_alerts := alertscript_alerts st;
     last_alerts := v;
     last_sayalert := last_sayalert st;
     active_alerts := active_alerts st |}.

(** The final wait of [say_alerts] is a delay and leaves no trace in
    the world. *)
Definition say_alerts (a : alerts) : M unit :=
  st ← load_state;
  let filtered := filtered_alerts_and_counties a in
  if sayalert_eqb filtered (last_sayalert st) then mret ()
  else
    save_state (set_last_sayalert st (SayDict filtered)) ;;
    sound_effect ← lift (from_wav (Effect AlertSeperator));
    intro_effect ← lift (from_wav (Effect AlertSound));
    swp_148 ← lift (from_wav (SWP 148));
    match for_each a (say_alert sound_effect filtered)
                   (Builder [intro_effect; Silent 600; swp_148] ∅ 0) with
    | (Raise e, _) => raise e
    | (Ok _, b) =>
        if decide (alert_count b = 0%nat) then mret ()
        else
          combined ←
            match SayAlertSuffix with
            | Some alert_suffix =>
                suffix_sound ← lift (from_wav (Sound alert_suffix));
                mret (combined_sound b ++ [Silent 600; suffix_sound])%list
            | None => mret (combined_sound b)
            end;
          let combined :=
            if 0 <? AUDIO_DELAY then Silent AUDIO_DELAY :: combined
            else combined in
          export_alert (convert_audio combined) ;;
          export_tailmessage silence_100 ;;
          for_each AsteriskNodes (λ node_number, run (LocalPlay node_number "alert"))
    end.

Definition say_allclear : M unit :=
  st ← load_state;
  save_state (set_last_sayalert st (SayList [])) ;;
  all_clear_sound ← lift (from_wav (Effect AllClearSound));
  swp_147_sound ← lift (from_wav (SWP 147));
  let combined := [all_clear_sound; Silent 600; swp_147_sound] in
  let combined :=
    if 0 <? AUDIO_DELAY then Silent AUDIO_DELAY :: combined else combined in
  export_allclear (convert_audio combined) ;;
  match SayAllClearSuffix with
  | Some suffix =>
      suffix_sound ← lift (from_wav (Sound suffix));
      export_allclear (convert_audio [suffix_sound])
  | None => mret ()
  end ;;
  for_each AsteriskNodes (λ node_number, run (LocalPlay node_number "allclear")).

Definition supermon_back_compat (a : alerts) : M unit :=
  write_warnings (od_keys a).

(** ** The orchestrator *)

Definition nl : string := String (ascii_of_nat 10) "".

(** [sep.join(l)] *)
Fixpoint join (sep : string) (l : list string) : string :=
  match l with
  | [] => ""
  | [x] => x
  | x :: l' => x +:+ sep +:+ join sep l'
  end.

(** [s.rstrip("\n")] *)
Fixpoint rstrip_nl (s : string) : string :=
  match s with
  | EmptyString => EmptyString
  | String c s' =>
      let r := rstrip_nl s' in
      if bool_decide (r = "") && Ascii.eqb c (ascii_of_nat 10) then ""
      else String c r
  end.

Definition replace_with_county_name (code : string) : string :=
  default code (od_get county_data code).

Definition bracketed (codes : list string) : string :=
  "[" +:+ join ", " (replace_with_county_name <$> codes) +:+ "]".

(** Truth value of what [change_ct] and [change_id] return. *)
Definition returned_true (r : option bool) : bool :=
  match r with
  | Some true => true
  | _ => false
  end.

(** The body of [change_ct_id_helper]; the value is what its local
    variable [pushover_message] holds when the body ends.  The loop
    over [intersecting_alerts] ends at its first [break]. *)
Definition change_ct_id_helper_local (a : alerts)
    (specified_alerts : list string) (auto_change_enabled : bool)
    (alert_type : string) (pushover_debug : bool)
    (pushover_message : string) : M string :=
  if auto_change_enabled then
    let alert_names := od_keys a in
    let intersecting_alerts :=
      filter (λ alert, alert ∈ specified_alerts) alert_names in
    match intersecting_alerts with
    | _ :: _ =>
        changed ← (if decide (alert_type = "CT")
                   then change_ct "WX" else change_id "WX");
        if returned_true changed && pushover_debug
        then mret (pushover_message +:+ "Changed " +:+ alert_type +:+ " to WX" +:+ nl)
        else mret pushover_message
    | [] =>
        changed ← (if decide (alert_type = "CT")
                   then change_ct "NORMAL" else change_id "NORMAL");
        if returned_true changed && pushover_debug
        then mret (pushover_message +:+ "Changed " +:+ alert_type +:+ " to NORMAL" +:+ nl)
        else mret pushover_message
    end
  else mret pushover_message.

(** The function has no [return]: the caller gets [None], and the
    local variable is lost. *)
Definition change_ct_id_helper (a : alerts)
    (specified_alerts : list string) (auto_change_enabled : bool)
    (alert_type : string) (pushover_debug : bool)
    (pushover_message : string) : M unit :=
  change_ct_id_helper_local a specified_alerts auto_change_enabled
                            alert_type pushover_debug pushover_message ;;
  mret ().

Definition added_line (a : alerts) (alert : string) : string :=
  "Added: " +:+ alert +:+ " for "
  +:+ bracketed (county_code <$> default [] (od_get a alert)) +:+ nl.

Definition removed_line (last : alerts) (alert : string) : string :=
  "Removed: " +:+ alert +:+ " for "
  +:+ bracketed (county_code <$> default [] (od_get last alert)) +:+ nl.

Definition changed_line (entry : string * change) : string :=
  let details := entry.2 in
  let added_msg :=
    if bool_decide (added details ≠ ∅)
    then "is now also affecting " +:+ bracketed (elements (added details))
    else "" in
  let removed_msg :=
    if bool_decide (removed details ≠ ∅)
    then "is no longer affecting " +:+ bracketed (elements (removed details))
    else "" in
  let head_part :=
    "Changed: " +:+ entry.1 +:+ " for " +:+ bracketed (elements (old details)) in
  let added_part := if bool_decide (added_msg ≠ "") then [added_msg] else [] in
  let and_part := if bool_decide (added_msg ≠ "") then ["and"] else [] in
  let removed_part :=
    if bool_decide (removed_msg ≠ "") then app and_part [removed_msg] else [] in
  let parts := head_part :: app added_part removed_part in
  join " " parts +:+ nl.

Definition concat_lines (l : list string) : string := foldr String.append "" l.

Definition is_first_run : M bool := λ w,
  (Ok (match data_file w with Absent => true | _ => false end), w).

Definition say_changed_enabled : bool :=
  SayAlertsChanged && bool_decide (COUNTY_WAVS ≠ [])
  && bool_decide (1 < length COUNTY_CODES)%nat.

(** The calls of [change_ct_id_helper] in [main], with the variable
    [pushover_message] of [main] before and after them. *)
Definition main_change_ct_id (a : alerts) (pushover_message : string) : M string :=
  change_ct_id_helper a CTAlerts CTEnable "CT" PushoverDebug pushover_message ;;
  change_ct_id_helper a IDAlerts IDEnable "ID" PushoverDebug pushover_message ;;
  mret pushover_message.

Definition main (fetch : string → option (list feature))
    (current_time fallback_time : Z) : M unit :=
  first_run ← is_first_run;
  (if (first_run : bool) then
     (if CTEnable then change_ct "NORMAL" ;; mret () else mret ()) ;;
     (if IDEnable then change_id "NORMAL" ;; mret () else mret ()) ;;
     (if ENABLE_TAILMESSAGE then build_tailmessage [] else mret ())
   else mret ()) ;;
  st ← load_state;
  let last := last_alerts st in
  a ← get_alerts fetch current_time fallback_time COUNTY_CODES;
  let pushover_message := "" in
  let added := added_alerts a last in
  let pushover_message :=
    pushover_message +:+ concat_lines (added_line a <$> added) in
  let removed := removed_alerts a last in
  let pushover_message :=
    pushover_message +:+ concat_lines (removed_line last <$> removed) in
  let '(changed_alerts, changes_details) :=
    if bool_decide (a ≠ []) then detect_county_changes last a
    else ([], []) in
  let pushover_message :=
    pushover_message +:+ concat_lines (changed_line <$> changes_details) in
  if bool_decide (added ≠ []) || bool_decide (removed ≠ [])
     || bool_decide (changed_alerts ≠ [])
  then
    save_state (set_last_alerts st a) ;;
    pushover_message ←
      (if bool_decide (a = []) then
         (if SayAllClear then say_allclear else mret ()) ;;
         mret (pushover_message +:+ "Alerts Cleared" +:+ nl)
       else mret pushover_message);
    pushover_message ←
      (if bool_decide (added ≠ []) || bool_decide (removed ≠ []) then
         (if SupermonCompat then supermon_back_compat a else mret ()) ;;
         pushover_message ← main_change_ct_id a pushover_message;
         (if AlertScriptEnable then alert_script a else mret ()) ;;
         (if SayAlert then
            let alerts_to_say : alerts :=
              if SayAlertAll then a
              else
                let fresh : alerts :=
                  od_of_pairs
                    ((λ alert, (alert, default [] (od_get a alert))) <$> added) in
                if bool_decide (changed_alerts ≠ []) && say_changed_enabled
                then od_update fresh changed_alerts
                else fresh in
            alerts_to_say ← lift (sort_alerts alerts_to_say);
            say_alerts alerts_to_say
          else mret ()) ;;
         mret pushover_message
       else
         (if say_changed_enabled then
            changed_alerts ← lift (sort_alerts changed_alerts);
            say_alerts changed_alerts
          else mret ()) ;;
         mret pushover_message);
    pushover_message ←
      (if ENABLE_TAILMESSAGE then
         build_tailmessage a ;;
         if PushoverDebug then
           mret (pushover_message
                 +:+ (if bool_decide (a = []) then "WX tailmessage removed"
                     else "Built WX tailmessage") +:+ nl)
         else mret pushover_message
       else mret pushover_message);
    if PushoverEnable
    then post_pushover (rstrip_nl (rstrip_nl pushover_message))
    else mret ()
  else mret ().

End Engine.

(** ** A concrete host and configuration, to run the model *)

(** Instants are numbered by their UTC calendar digits
    YYYYMMDDhhmmssffffff, which orders them as time does. *)
Fixpoint fixed_digits (width : nat) (n : Z) : string :=
  match width with
  | O => ""
  | S w' =>
      fixed_digits w' (n / 10)
      +:+ String (ascii_of_nat (48 + Z.to_nat (n mod 10))) ""
  end.

Fixpoint digits_value (acc : Z) (s : string) : Z :=
  match s with
  | EmptyString => acc
  | String c s' =>
      let n := nat_of_ascii c in
      if ((48 <=? n) && (n <=? 57))%nat
      then digits_value (10 * acc + Z.of_nat (n - 48)) s'
      else digits_value acc s'
  end.

(** The format of [end_time_utc]: year-month-dayThour:minute:second.microsecondZ *)
Definition calendar_strftime (t : Z) : string :=
  fixed_digits 4 (t / 10 ^ 16) +:+ "-" +:+ fixed_digits 2 (t / 10 ^ 14) +:+ "-"
  +:+ fixed_digits 2 (t / 10 ^ 12) +:+ "T" +:+ fixed_digits 2 (t / 10 ^ 10) +:+ ":"
  +:+ fixed_digits 2 (t / 10 ^ 8) +:+ ":" +:+ fixed_digits 2 (t / 10 ^ 6) +:+ "."
  +:+ fixed_digits 6 t +:+ "Z".

(** [cmd.format(alert_title=title)] on templates whose fields are plain
    names or indices, with no conversion, format specification,
    attribute or item access: a doubled brace is a brace,
    [{alert_title}] is the title, an empty or numeric field raises
    [IndexError], any other name [KeyError], and a stray or unclosed
    brace [ValueError]; the first error from the left is the one
    raised.  It is used to run the model on concrete inputs, the
    development itself is parametric in the formatter. *)
Definition all_digits (s : string) : bool :=
  forallb (λ c, let n := nat_of_ascii c in ((48 <=? n) && (n <=? 57))%nat)
          (list_ascii_of_string s).

Definition format_field (name title : string) : result string :=
  if decide (name = "alert_title") then Ok title
  else if all_digits name then Raise IndexError
  else Raise (KeyError name).

Fixpoint format_scan (field : option string) (title s : string) : result string :=
  match s with
  | EmptyString =>
      match field with
      | None => Ok EmptyString
      | Some _ => Raise ValueError
      end
  | String c s' =>
      match field with
      | Some name =>
          if Ascii.eqb c "}" then
            v ← format_field name title;
            r ← format_scan None title s';
            mret (v +:+ r)
          else if Ascii.eqb c "{" then Raise ValueError
          else format_scan (Some (name +:+ String c EmptyString)) title s'
      | None =>
          if Ascii.eqb c "{" then
            match s' with
            | String d s'' =>
                if Ascii.eqb d "{" then
                  r ← format_scan None title s'';
                  mret (String c r)
                else format_scan (Some EmptyString) title s'
            | EmptyString => Raise ValueError
            end
          else if Ascii.eqb c "}" then
            match s' with
            | String d s'' =>
                if Ascii.eqb d "}" then
                  r ← format_scan None title s'';
                  mret (String c r)
                else Raise ValueError
            | EmptyString => Raise ValueError
            end
          else
            r ← format_scan None title s';
            mret (String c r)
      end
  end.

Definition simple_format (cmd title : string) : result string :=
  format_scan None title cmd.

Definition test_host : Host :=
  {| fnmatch := glob_fnmatch;
     parser_parse := digits_value 0;
     strftime := calendar_strftime;
     wav_exists := λ _, true;
     file_exists := λ _, true;
     str_format := simple_format;
     county_data := [] |}.

(** A configuration with the defaults of the source, county identifiers
    for two zones, and the given block list, mappings and limit. *)
Definition test_config (tail_blocked : list string) (maps : list mapping)
    (max_alerts : nat) : Config :=
  {| MAX_ALERTS := max_alerts;
     GLOBAL_BLOCKED_EVENTS := [];
     SAYALERT_BLOCKED_EVENTS := [];
     TAILMESSAGE_BLOCKED_EVENTS := tail_blocked;
     AUDIO_DELAY := 0;
     ENABLE_TAILMESSAGE := true;
     COUNTY_CODES := ["ARC125"; "ARC119"];
     COUNTY_WAVS := ["Saline.wav"; "Pulaski.wav"];
     TONE_DIR := "/usr/share/SOUNDS/TONES";
     CT1 := "Boop.ulaw";
     CT2 := "Beep.ulaw";
     WXCT := "Stardust.ulaw";
     RptCT1 := "CT-Local.ulaw";
     RptCT2 := "CT-Link.ulaw";
     IDDir := "/usr/share/SOUNDS/ID";
     NormalID := "NORMALID.ulaw";
     WXID := "WXID.ulaw";
     RptID := "RPTID.ulaw";
     TailmessageCounties := true;
     TailmessageSuffix := None;
     AlertSeperator := "Woodblock.wav";
     AlertSound := "Duncecap.wav.wav";
     AllClearSound := "Triangles.wav";
     WithMultiples := true;
     SayAlertSuffix := None;
     SayAllClearSuffix := None;
     AsteriskNodes := ["1998"];
     Mappings := maps;
     SayAlert := true;
     SayAlertAll := false;
     SayAllClear := true;
     SayAlertsChanged := true;
     AlertScriptEnable := true;
     CTAlerts := ["Tornado Warning"];
     CTEnable := true;
     IDAlerts := ["Tornado Warning"];
     IDEnable := true;
     PushoverEnable := true;
     PushoverDebug := true;
     SupermonCompat := true;
     TimeType := "onset" |}.

Definition empty_world (d : datafile) : world :=
  {| data_file := d; copied := []; ran := []; tailmessage_file := None;
     alert_file := None; allclear_file := None; warnings_txt := None;
     pushed := [] |}.

(** * Properties *)

(** ** Loading the state *)

Section StateStore.

(** C1, as amended: [load_state] returns the default state when the
    state file is absent, and the stored state with the four list keys
    defaulted to empty when the file holds a JSON object; when the file
    is present but is not JSON, or is not a JSON object, it raises an
    exception and no default is used.  The world is never changed. *)
Theorem load_state_cases (w : world) :
  match data_file w with
  | Absent => load_state w = (Ok default_state, w)
  | Stored j =>
      load_state w =
        (Ok {| ct := j_ct j; id := j_id j;
               alertscript_alerts := default [] (j_alertscript_alerts j);
               last_alerts := od_of_pairs (default [] (j_last_alerts j));
               last_sayalert := SayList (default [] (j_last_sayalert j));
               active_alerts := default [] (j_active_alerts j) |}, w)
  | NotJson _ => load_state w = (Raise JSONDecodeError, w)
  | NotObject => load_state w = (Raise AttributeError, w)
  end.
Proof.
  unfold load_state. destruct (data_file w); reflexivity.
Qed.

(** C1 as stated fails: on a state file that is not JSON, [load_state]
    returns no state at all. *)
Lemma load_state_corrupt_raises :
  ¬ (∀ w : world, ∃ st, (load_state w).1 = Ok st
       ∧ (match data_file w with
          | Absent | NotJson _ => st = default_state
          | _ => True
          end)).
Proof.
  intros H. destruct (H (empty_world (NotJson "{"))) as (st & Hst & _).
  discriminate Hst.
Qed.

End StateStore.

(** ** Courtesy tone and identifier transitions *)

Section Transitions.
Context {cfg : Config} {os : Host}.

(** The copies [change_ct] makes for a target. *)
Definition ct_copies (X : string) : list (string * string) :=
  if decide (X = "NORMAL") then
    [(path_join TONE_DIR CT1, path_join TONE_DIR RptCT1);
     (path_join TONE_DIR CT2, path_join TONE_DIR RptCT2)]
  else
    [(path_join TONE_DIR WXCT, path_join TONE_DIR RptCT1);
     (path_join TONE_DIR WXCT, path_join TONE_DIR RptCT2)].


Definition with_copies (w : world) (l : list (string * string)) (d : datafile)
    : world :=
  World d (copied w ++ l) (ran w) (tailmessage_file w) (alert_file w)
        (allclear_file w) (warnings_txt w) (pushed w).

(** The sources of the copies are there. *)
Definition sources_exist (l : list (string * string)) : Prop :=
  Forall (λ p, file_exists p.1 = true) l.


Lemma with_copies_nil (w : world) : with_copies w [] (data_file w) = w.
Proof. unfold with_copies. rewrite app_nil_r. by destruct w. Qed.

Lemma copyfile_exists (src dest : string) (w : world) :
  file_exists src = true →
  copyfile src dest w = (Ok (), with_copies w [(src, dest)] (data_file w)).
Proof. intros H. unfold copyfile. by rewrite H. Qed.


(** A copy succeeds and is logged, or raises and changes nothing. *)
Lemma copyfile_cases (src dest : string) (w : world) :
  copyfile src dest w = (Ok (), with_copies w [(src, dest)] (data_file w))
  ∨ copyfile src dest w = (Raise FileNotFoundError, w).
Proof. unfold copyfile. destruct (_ || _); [by left | by right]. Qed.


Lemma change_ct_same (X : string) (w : world) (st : state) :
  X ≠ "" →
  load_state_of (data_file w) = Ok st →
  ct st = Some (Some X) →
  change_ct X w = (Ok (Some false), w).
Proof.
  intros HX Hload Hct.
  unfold change_ct, mbind, SE_bind, load_state, lift, getitem.
  rewrite Hload, Hct.
  destruct (decide (X = "")) as [? | _]; [done |].
  destruct (decide (Some X = Some X)) as [_ | ?]; done.
Qed.

Lemma change_ct_other (X : string) (w : world) (st : state) (cur : option string) :
  X ≠ "" →
  load_state_of (data_file w) = Ok st →
  ct st = Some cur →
  cur ≠ Some X →
  sources_exist (ct_copies X) →
  change_ct X w =
    (Ok (Some true),
     with_copies w (ct_copies X) (Stored (json_of_state (set_ct st X)))).
Proof.
  intros HX Hload Hct Hne Hfiles.
  unfold change_ct, mbind, SE_bind, load_state, lift, getitem.
  rewrite Hload, Hct.
  destruct (decide (X = "")) as [? | _]; [done |].
  destruct (decide (Some X = cur)) as [? | _]; [congruence |].
  unfold sources_exist, ct_copies in *. unfold with_copies.
  destruct (decide (X = "NORMAL")); apply Forall_cons in Hfiles as [H1 Hfiles];
    apply Forall_cons in Hfiles as [H2 _]; cbn [fst] in H1, H2;
    rewrite (copyfile_exists _ _ _ H1), (copyfile_exists _ _ _ H2);
    cbn; rewrite <- app_assoc; reflexivity.
Qed.


(** Whatever files are there, a call that has to change the tone ends
    in one of two ways: with the state saved after some copies, or with
    [FileNotFoundError] and the state file as it was. *)
Lemma change_ct_cases (X : string) (w : world) (st : state) (cur : option string) :
  X ≠ "" →
  load_state_of (data_file w) = Ok st →
  ct st = Some cur →
  cur ≠ Some X →
  ∃ l, change_ct X w
       = (Ok (Some true), with_copies w l (Stored (json_of_state (set_ct st X))))
     ∨ change_ct X w = (Raise FileNotFoundError, with_copies w l (data_file w)).
Proof.
  intros HX Hload Hct Hne.
  unfold change_ct, mbind, SE_bind, load_state, lift, getitem.
  rewrite Hload, Hct.
  destruct (decide (X = "")) as [? | _]; [done |].
  destruct (decide (Some X = cur)) as [? | _]; [congruence |].
  destruct (decide (X = "NORMAL")).
  - destruct (copyfile_cases (path_join TONE_DIR CT1) (path_join TONE_DIR RptCT1) w)
      as [-> | ->]; [| exists []; right; by rewrite with_copies_nil].
    match goal with |- context [copyfile ?a ?b ?w1] =>
      destruct (copyfile_cases a b w1) as [-> | ->] end.
    + eexists (_ :: _ :: []). left. cbn. unfold with_copies. cbn.
      rewrite <- app_assoc. reflexivity.
    + eexists [_]. right. reflexivity.
  - destruct (copyfile_cases (path_join TONE_DIR WXCT) (path_join TONE_DIR RptCT1) w)
      as [-> | ->]; [| exists []; right; by rewrite with_copies_nil].
    match goal with |- context [copyfile ?a ?b ?w1] =>
      destruct (copyfile_cases a b w1) as [-> | ->] end.
    + eexists (_ :: _ :: []). left. cbn. unfold with_copies. cbn.
      rewrite <- app_assoc. reflexivity.
    + eexists [_]. right. reflexivity.
Qed.

Lemma change_id_same (X : string) (w : world) (st : state) :
  X ≠ "" →
  load_state_of (data_file w) = Ok st →
  id st = Some (Some X) →
  change_id X w = (Ok (Some false), w).
Proof.
  intros HX Hload Hid.
  unfold change_id, mbind, SE_bind, load_state, lift, getitem.
  rewrite Hload, Hid.
  destruct (decide (X = "")) as [? | _]; [done |].
  destruct (decide (Some X = Some X)) as [_ | ?]; done.
Qed.



Lemma change_id_cases (X : string) (w : world) (st : state) (cur : option string) :
  X ≠ "" →
  load_state_of (data_file w) = Ok st →
  id st = Some cur →
  cur ≠ Some X →
  ∃ l, change_id X w
       = (Ok (Some true), with_copies w l (Stored (json_of_state (set_id st X))))
     ∨ change_id X w = (Raise FileNotFoundError, with_copies w l (data_file w)).
Proof.
  intros HX Hload Hid Hne.
  unfold change_id, mbind, SE_bind, load_state, lift, getitem.
  rewrite Hload, Hid.
  destruct (decide (X = "")) as [? | _]; [done |].
  destruct (decide (Some X = cur)) as [? | _]; [congruence |].
  destruct (decide (X = "NORMAL")).
  - destruct (copyfile_cases (path_join IDDir NormalID) (path_join IDDir RptID) w)
      as [-> | ->]; [| exists []; right; by rewrite with_copies_nil].
    eexists [_]. left. reflexivity.
  - destruct (copyfile_cases (path_join IDDir WXID) (path_join IDDir RptID) w)
      as [-> | ->]; [| exists []; right; by rewrite with_copies_nil].
    eexists [_]. left. reflexivity.
Qed.

(** What is read back after a save. *)
Lemma load_saved (st : state) :
  ∃ st', load_state_of (Stored (json_of_state st)) = Ok st'
         ∧ ct st' = ct st ∧ id st' = id st.
Proof. eexists. split; [reflexivity |]. split; reflexivity. Qed.


End Transitions.




(** ** Ordered dictionaries *)

Section Odict.
Context {V : Type}.
Implicit Types (d : odict V) (k : string) (v : V).

Lemma od_get_set d k v k' :
  od_get (od_set d k v) k' = if decide (k = k') then Some v else od_get d k'.
Proof.
  induction d as [| [k0 v0] d IH]; cbn.
  - repeat case_decide; congruence.
  - destruct (decide (k0 = k)) as [-> | Hne]; cbn.
    + repeat case_decide; congruence.
    + rewrite IH. repeat case_decide; congruence.
Qed.

Lemma od_get_app d1 d2 k :
  od_get (d1 ++ d2) k =
    match od_get d1 k with Some v => Some v | None => od_get d2 k end.
Proof.
  induction d1 as [| [k0 v0] d1 IH]; cbn; [done |].
  case_decide; done.
Qed.

Lemma od_get_Some_elem d k v : od_get d k = Some v → (k, v) ∈ d.
Proof.
  induction d as [| [k0 v0] d IH]; cbn; [done |].
  case_decide as Hk.
  - intros [= ->]. subst. left.
  - intros H. right. by apply IH.
Qed.

Lemma od_get_None d k : od_get d k = None ↔ k ∉ od_keys d.
Proof.
  unfold od_keys. induction d as [| [k0 v0] d IH]; cbn.
  - split; [intros _; apply not_elem_of_nil | done].
  - rewrite not_elem_of_cons. case_decide as Hk.
    + split; [done | intros [? _]; congruence].
    + rewrite IH. split; [intros ?; split; [congruence | done] | intros [_ ?]; done].
Qed.

Lemma od_get_is_Some d k : is_Some (od_get d k) ↔ k ∈ od_keys d.
Proof.
  destruct (od_get d k) eqn:E.
  - split; [| by eauto]. intros _.
    apply od_get_Some_elem in E. unfold od_keys.
    apply list_elem_of_fmap. by exists (k, v).
  - apply od_get_None in E. split; [intros [? ?]; done | done].
Qed.

Lemma od_get_NoDup d k v : NoDup (od_keys d) → (k, v) ∈ d → od_get d k = Some v.
Proof.
  unfold od_keys. induction d as [| [k0 v0] d IH]; cbn.
  - intros _ H. by apply elem_of_nil in H.
  - rewrite NoDup_cons. intros [Hnotin Hnd] [Heq | Hin]%elem_of_cons.
    + injection Heq as -> ->. by rewrite decide_True.
    + case_decide as Hk; [| by apply IH].
      subst k0. exfalso. apply Hnotin.
      apply list_elem_of_fmap. by exists (k, v).
Qed.

End Odict.

(** ** The differences between two cycles *)

Section Diff.
Implicit Types (previous current : alerts) (t : string).

(** The entry [detect_county_changes] records for one item of the new
    alerts, if any. *)
Definition change_of (old_alerts : alerts) (t : string) (info : list county)
    : option change :=
  old_info ← od_get old_alerts t;
  let old_codes := county_codes old_info in
  let new_codes := county_codes info in
  if decide (old_codes = new_codes) then None
  else Some (Change old_codes
               (set_map strip_code (new_codes ∖ old_codes))
               (set_map strip_code (old_codes ∖ new_codes))).

Lemma set_map_strip_empty (X : gset string) :
  (set_map strip_code X : gset string) ≠ ∅ ↔ X ≠ ∅.
Proof.
  split; intros H Hempty; apply H.
  - subst X. apply set_map_empty.
  - apply leibniz_equiv. apply set_equiv. intros x. split; [| set_solver].
    intros Hx. assert (strip_code x ∈ (set_map strip_code X : gset string)) as Hin
      by (apply elem_of_map; eauto).
    rewrite Hempty in Hin. set_solver.
Qed.

Lemma differences_empty (A B : gset string) :
  A ∖ B ≠ ∅ ∨ B ∖ A ≠ ∅ ↔ B ≠ A.
Proof.
  split.
  - intros [H | H] ->; apply H; set_solver.
  - intros Hne. destruct (decide (A ∖ B = ∅)) as [E1 | ?]; [| by left].
    destruct (decide (B ∖ A = ∅)) as [E2 | ?]; [| by right].
    exfalso. apply Hne. apply leibniz_equiv. apply set_equiv. intros x.
    split; intros Hx.
    + destruct (decide (x ∈ A)); [done |]. assert (x ∈ B ∖ A) by set_solver.
      rewrite E2 in *. set_solver.
    + destruct (decide (x ∈ B)); [done |]. assert (x ∈ A ∖ B) by set_solver.
      rewrite E1 in *. set_solver.
Qed.

(** One step of the loop, through [change_of]. *)
Lemma detect_step_change_of (old_alerts new_alerts : alerts)
    (acc : alerts * odict change) (t : string) (info : list county) :
  detect_step old_alerts new_alerts acc (t, info) =
    match change_of old_alerts t info with
    | Some c => (od_set acc.1 t (default info (od_get new_alerts t)),
                 od_set acc.2 t c)
    | None => acc
    end.
Proof.
  unfold detect_step, change_of. destruct (od_get old_alerts t) as [old_info |]; cbn; [| done].
  set (o := county_codes old_info). set (n := county_codes info).
  destruct (decide (o = n)) as [E | Hne].
  - rewrite E. replace (n ∖ n) with (∅ : gset string) by set_solver.
    rewrite set_map_empty. rewrite !bool_decide_eq_false_2 by (intros H; by apply H).
    done.
  - assert (bool_decide ((set_map strip_code (n ∖ o) : gset string) ≠ ∅)
            || bool_decide ((set_map strip_code (o ∖ n) : gset string) ≠ ∅) = true) as ->;
      [| done].
    apply orb_true_iff. rewrite !bool_decide_eq_true, !set_map_strip_empty.
    apply differences_empty. done.
Qed.

(** The loop over a list of items with distinct titles, each of which
    is the value the new alerts hold for its title. *)
Lemma detect_fold (old_alerts new_alerts : alerts) (l : alerts) :
  NoDup (od_keys l) →
  (∀ t info, (t, info) ∈ l → od_get new_alerts t = Some info) →
  let r := foldl (detect_step old_alerts new_alerts) ([], []) l in
  ∀ t,
    od_get r.2 t = (od_get l t ≫= change_of old_alerts t)
    ∧ od_get r.1 t = (od_get l t ≫= λ info, (λ _, info) <$> change_of old_alerts t info).
Proof.
  induction l as [| [t0 info0] l IH] using rev_ind; intros Hnd Hval r t.
  - done.
  - subst r. rewrite foldl_app. cbn [foldl].
    unfold od_keys in Hnd. rewrite fmap_app in Hnd. apply NoDup_app in Hnd as (Hnd & Hfresh & _).
    destruct (IH Hnd (λ t' i' H', Hval t' i' (proj2 (elem_of_app _ _ _) (or_introl H'))) t) as [IH2 IH1].
    rewrite detect_step_change_of, od_get_app. cbn [od_get].
    assert (od_get new_alerts t0 = Some info0) as Hnew
      by (apply Hval, elem_of_app; right; apply list_elem_of_singleton; done).
    rewrite Hnew. cbn [default].
    destruct (decide (t0 = t)) as [-> | Hne].
    + assert (od_get l t = None) as Hnone.
      { apply od_get_None. intros Hin. apply (Hfresh t Hin). cbn. left. }
      rewrite Hnone in *. cbn in IH1, IH2. cbn.
      destruct (change_of old_alerts t info0) as [c |]; cbn.
      * rewrite !od_get_set, !decide_True by done. done.
      * done.
    + destruct (change_of old_alerts t0 info0) as [c |]; cbn [fst snd].
      * rewrite !od_get_set, !decide_False by done. rewrite IH1, IH2.
        destruct (od_get l t); done.
      * rewrite IH1, IH2. destruct (od_get l t); done.
Qed.

Lemma set_map_strip_clean (X : gset string) :
  (∀ code, code ∈ X → strip_code code = code) →
  (set_map strip_code X : gset string) = X.
Proof.
  intros Hclean. apply leibniz_equiv. apply set_equiv. intros x.
  rewrite elem_of_map. split.
  - intros (y & -> & Hy). by rewrite Hclean.
  - intros Hx. exists x. by rewrite Hclean.
Qed.

(** C2, as amended: the added titles and the removed titles are
    disjoint; a title [detect_county_changes] reports is a title of
    both collections; a title of both is reported exactly when its old
    set of county codes differs from its new set, with the alert of
    the current collection, the old set, and as added (resp. removed)
    codes the codes of new - old (resp. old - new) with the braces and
    the double quote removed from each code, which are new - old and
    old - new themselves when no code holds such a character. *)
Theorem diff_correct previous current :
  NoDup (od_keys current) →
  let r := detect_county_changes previous current in
  (∀ t, t ∈ added_alerts current previous → t ∉ removed_alerts current previous)
  ∧ (∀ t, t ∈ od_keys r.1 → t ∈ od_keys previous ∧ t ∈ od_keys current)
  ∧ (∀ t, t ∈ od_keys r.1 ↔ t ∈ od_keys r.2)
  ∧ (∀ t old_info new_info,
       od_get previous t = Some old_info →
       od_get current t = Some new_info →
       let old_zones := county_codes old_info in
       let new_zones := county_codes new_info in
       (t ∈ od_keys r.2 ↔ old_zones ≠ new_zones)
       ∧ (old_zones ≠ new_zones →
            od_get r.1 t = Some new_info
            ∧ ∃ d, od_get r.2 t = Some d
                ∧ old d = old_zones
                ∧ added d = set_map strip_code (new_zones ∖ old_zones)
                ∧ removed d = set_map strip_code (old_zones ∖ new_zones)
                ∧ ((∀ code, code ∈ old_zones ∪ new_zones → strip_code code = code) →
                     added d = new_zones ∖ old_zones
                     ∧ removed d = old_zones ∖ new_zones))).
Proof.
  intros Hnd r.
  pose proof (detect_fold previous current current Hnd
                (λ t i H, od_get_NoDup current t i Hnd H)) as Hfold.
  cbn zeta in Hfold. fold (detect_county_changes previous current) in Hfold.
  fold r in Hfold.
  split; [| split; [| split]].
  - intros t Ha Hr. unfold added_alerts in Ha. unfold removed_alerts in Hr.
    apply list_elem_of_filter in Ha as [_ Ha]. apply list_elem_of_filter in Hr as [Hr _].
    apply od_get_None in Hr. by apply Hr.
  - intros t Ht. apply od_get_is_Some in Ht as [v Hv].
    destruct (Hfold t) as [_ H1]. rewrite Hv in H1.
    destruct (od_get current t) as [info |] eqn:Ecur; [| done].
    cbn in H1. unfold change_of in H1.
    destruct (od_get previous t) as [old_info |] eqn:Eprev; [| done].
    split; apply od_get_is_Some; eauto.
  - intros t. rewrite <- !od_get_is_Some. destruct (Hfold t) as [-> ->].
    destruct (od_get current t) as [info |]; cbn; [| done].
    destruct (change_of previous t info); cbn; split; intros [? ?]; eauto; done.
  - intros t old_info new_info Hprev Hcur. cbn zeta.
    destruct (Hfold t) as [H2 H1]. rewrite Hcur in H1, H2. cbn in H1, H2.
    unfold change_of in H1, H2. rewrite Hprev in H1, H2. cbn in H1, H2.
    rewrite <- od_get_is_Some, H2, H1.
    destruct (decide (county_codes old_info = county_codes new_info)) as [E | Hne].
    + split; [split; [intros [? ?]; done | done] | done].
    + split; [split; [done | by eauto] |]. intros _. split; [done |].
      eexists. split; [reflexivity |]. cbn. repeat split.
      * apply set_map_strip_clean. intros code Hc. apply H. set_solver.
      * apply set_map_strip_clean. intros code Hc. apply H. set_solver.
Qed.

End Diff.

Definition zone (code : string) : county :=
  {| county_code := code; severity := 4; description := "Tornado";
     end_time_utc := "2023-05-01T12:00:00.000000Z" |}.

(** Zone ARC119 joins a Tornado Warning that held for ARC125. *)
Lemma diff_correct_witness :
  let previous := [("Tornado Warning", [zone "ARC125"])] in
  let current := [("Tornado Warning", [zone "ARC125"; zone "ARC119"])] in
  ∃ d, od_get (detect_county_changes previous current).2 "Tornado Warning" = Some d
       ∧ added d = set_map strip_code
                     (county_codes [zone "ARC125"; zone "ARC119"]
                      ∖ county_codes [zone "ARC125"]).
Proof.
  intros previous current.
  assert (NoDup (od_keys current)) as Hnd
    by (apply NoDup_cons; split; [apply not_elem_of_nil | apply NoDup_nil; exact I]).
  destruct (diff_correct previous current Hnd) as (_ & _ & _ & H).
  destruct (H "Tornado Warning" [zone "ARC125"] [zone "ARC125"; zone "ARC119"]
              eq_refl eq_refl) as [_ H'].
  destruct H' as (_ & d & Hd & _ & Ha & _).
  - intros E. assert ("ARC119" ∈ county_codes [zone "ARC125"]) as Hin
      by (rewrite E; unfold county_codes; cbn; set_solver).
    unfold county_codes in Hin. cbn in Hin. set_solver.
  - exists d. split; [exact Hd | exact Ha].
Defined.

(** C2 as stated fails: a code written with braces is reported without
    them, so the added codes are not new - old. *)
Lemma detect_strips_braces :
  let previous := [("Tornado Warning", [zone "ARC125"])] in
  let current := [("Tornado Warning", [zone "ARC125"; zone "{ARC119}"])] in
  ∃ d, od_get (detect_county_changes previous current).2 "Tornado Warning" = Some d
       ∧ "ARC119" ∈ added d
       ∧ "ARC119" ∉ county_codes [zone "ARC125"; zone "{ARC119}"]
                     ∖ county_codes [zone "ARC125"].
Proof.
  intros previous current. eexists. split; [reflexivity |]. cbn. split.
  - vm_compute. reflexivity.
  - unfold county_codes. cbn. set_solver.
Qed.

(** ** Sorting and truncation *)

#[global] Instance exn_eq_dec : EqDecision exn.
Proof. solve_decision. Defined.
#[global] Instance result_eq_dec {A} `{EqDecision A} : EqDecision (result A).
Proof. solve_decision. Defined.

(** [a >= b] on the tuples of the sort key. *)
Definition key_ge (a b : Z * Z) : Prop :=
  a.1 > b.1 ∨ (a.1 = b.1 ∧ a.2 >= b.2).

Section Sorting.
Context {A : Type}.
Implicit Types (x y : (Z * Z) * A) (l : list ((Z * Z) * A)).

Lemma key_ltb_false (a b : Z * Z) : key_ltb a b = false ↔ key_ge a b.
Proof.
  unfold key_ltb, key_ge. destruct a as [a1 a2], b as [b1 b2]; cbn.
  rewrite orb_false_iff, andb_false_iff, !Z.ltb_ge, Z.eqb_neq. lia.
Qed.

Lemma key_ltb_true (a b : Z * Z) : key_ltb a b = true → key_ge b a ∧ a ≠ b.
Proof.
  unfold key_ltb, key_ge. destruct a as [a1 a2], b as [b1 b2]; cbn.
  rewrite orb_true_iff, andb_true_iff, !Z.ltb_lt, Z.eqb_eq.
  intros H. split; [lia |]. intros [= -> ->]. lia.
Qed.

Lemma key_ge_trans (a b c : Z * Z) : key_ge a b → key_ge b c → key_ge a c.
Proof. unfold key_ge. lia. Qed.

Lemma insert_desc_perm x l : insert_desc x l ≡ₚ x :: l.
Proof.
  induction l as [| y l IH]; cbn; [done |].
  destruct (key_ltb x.1 y.1); [| done].
  rewrite IH. apply Permutation_swap.
Qed.

Lemma sorted_desc_perm l : sorted_desc l ≡ₚ l.
Proof.
  induction l as [| x l IH]; cbn; [done |].
  rewrite insert_desc_perm. by rewrite IH.
Qed.

Definition desc : relation ((Z * Z) * A) := λ x y, key_ge x.1 y.1.

Lemma insert_desc_sorted x l :
  StronglySorted desc l → StronglySorted desc (insert_desc x l).
Proof.
  induction 1 as [| y l Hs IH Hall]; cbn.
  - repeat constructor.
  - destruct (key_ltb x.1 y.1) eqn:E.
    + constructor; [done |].
      rewrite insert_desc_perm. constructor; [| done].
      by apply key_ltb_true in E as [? _].
    + apply key_ltb_false in E.
      constructor; [by constructor |].
      constructor; [done |].
      eapply Forall_impl; [exact Hall |].
      intros z Hz. unfold desc in *. by eapply key_ge_trans.
Qed.

Lemma sorted_desc_sorted l : StronglySorted desc (sorted_desc l).
Proof.
  induction l as [| x l IH]; cbn; [constructor |].
  by apply insert_desc_sorted.
Qed.

(** Stability: the items of one key keep their order. *)
Lemma insert_desc_stable (k : Z * Z) x l :
  filter (λ y, y.1 = k) (insert_desc x l) = filter (λ y, y.1 = k) (x :: l).
Proof.
  induction l as [| y l IH]; cbn; [done |].
  destruct (key_ltb x.1 y.1) eqn:E; [| done].
  apply key_ltb_true in E as [_ Hne].
  rewrite !filter_cons in *. rewrite IH.
  repeat case_decide; try done; try congruence.
Qed.

Lemma sorted_desc_stable (k : Z * Z) l :
  filter (λ y, y.1 = k) (sorted_desc l) = filter (λ y, y.1 = k) l.
Proof.
  induction l as [| x l IH]; [done |].
  change (sorted_desc (x :: l)) with (insert_desc x (sorted_desc l)).
  rewrite insert_desc_stable, !filter_cons, IH. done.
Qed.

End Sorting.

Section SortAlerts.
Context {cfg : Config}.
Implicit Types (a : alerts) (item : string * list county).

(** The invariant of the data model: an alert has at least one entry,
    and its title has at least one word. *)
Definition well_formed item : Prop := item.2 ≠ [] ∧ split item.1 ≠ [].

Definition keyed (p : (Z * Z) * (string * list county)) : Prop :=
  sort_key p.2 = Ok p.1.

Lemma decorate_Ok a d : decorate a = Ok d → d.*2 = a ∧ Forall keyed d.
Proof.
  revert d. induction a as [| item a IH]; intros d; cbn.
  - intros [= <-]. split; [done | constructor].
  - destruct (sort_key item) as [k |] eqn:Ek; cbn; [| done].
    destruct (decorate a) as [r |]; cbn; [| done].
    intros [= <-]. destruct (IH r eq_refl) as [<- Hall].
    split; [done |]. constructor; done.
Qed.

(** *** The key in the words of the specification *)

(** The whitespace characters, one by one. *)
Definition whitespace : list nat :=
  [9; 10; 11; 12; 13; 28; 29; 30; 31; 32; 133; 160]%nat.

Definition blank (c : ascii) : bool := bool_decide (nat_of_ascii c ∈ whitespace).

Fixpoint all_blank (s : string) : bool :=
  match s with
  | EmptyString => true
  | String c s' => blank c && all_blank s'
  end.

Fixpoint has_blank (s : string) : bool :=
  match s with
  | EmptyString => false
  | String c s' => blank c || has_blank s'
  end.

(** The title without its trailing whitespace. *)
Fixpoint rstrip_blank (s : string) : string :=
  match s with
  | EmptyString => EmptyString
  | String c s' =>
      if blank c && all_blank s' then EmptyString else String c (rstrip_blank s')
  end.

(** What follows the last whitespace character of a text. *)
Fixpoint after_last_blank (s : string) : string :=
  match s with
  | EmptyString => EmptyString
  | String c s' =>
      if has_blank s' then after_last_blank s'
      else if blank c then s' else s
  end.

(** The last word of a title: what follows the last whitespace
    character, once the trailing whitespace is set aside. *)
Definition title_last_word (title : string) : string :=
  after_last_blank (rstrip_blank title).

(** The table of the specification: Warning 4, Watch 3, Advisory 2,
    Statement 1, any other word 0. *)
Definition word_severity (w : string) : Z :=
  default 0 (od_get [("Warning", 4); ("Watch", 3); ("Advisory", 2); ("Statement", 1)] w).

(** The largest severity of the occurrences of an alert. *)
Definition max_severity (l : list county) : Z :=
  match l with
  | [] => 0
  | c :: l' => foldr (λ c m, Z.max (severity c) m) (severity c) l'
  end.

Definition spec_key item : Z * Z :=
  (max_severity item.2, word_severity (title_last_word item.1)).

(** The alert has an occurrence, and its title a character that is not
    whitespace. *)
Definition sortable item : Prop := item.2 ≠ [] ∧ all_blank item.1 = false.

Lemma is_space_blank (c : ascii) : is_space c = blank c.
Proof. destruct c as [[] [] [] [] [] [] [] []]; vm_compute; reflexivity. Qed.

Lemma all_blank_rstrip (s : string) : all_blank s = true → rstrip_blank s = "".
Proof. destruct s as [| c s]; [done |]. cbn. by intros ->. Qed.

Lemma append_snoc (u r : string) (c : ascii) :
  (u +:+ String c "") +:+ r = u +:+ String c r.
Proof.
  induction u as [| d u IH]; [reflexivity |].
  change (String d ((u +:+ String c "") +:+ r) = String d (u +:+ String c r)).
  by rewrite IH.
Qed.

Lemma last_cons_Some {A} (x y : A) (l : list A) :
  last l = Some y → last (x :: l) = Some y.
Proof. intros H. rewrite last_cons. by rewrite H. Qed.

(** The last item of [split], in the words of the specification. *)
Lemma split_aux_last (s : string) (cur : option string) :
  last (split_aux cur s)
  = if all_blank s then cur
    else Some (if has_blank (rstrip_blank s) then after_last_blank (rstrip_blank s)
               else default "" cur +:+ rstrip_blank s).
Proof.
  revert cur. induction s as [| c s IH]; intros cur.
  - cbn. by destruct cur.
  - cbn [split_aux all_blank rstrip_blank]. rewrite is_space_blank.
    destruct (blank c) eqn:Ec; cbn [andb].
    + specialize (IH None). destruct (all_blank s) eqn:Ea.
      * apply last_None in IH. rewrite IH. by destruct cur.
      * cbn [has_blank after_last_blank]. rewrite Ec. cbn [orb].
        assert (last (split_aux None s)
                = Some (if has_blank (rstrip_blank s)
                        then after_last_blank (rstrip_blank s)
                        else rstrip_blank s)) as Hlast by exact IH.
        destruct cur; [by apply last_cons_Some | done].
    + rewrite (IH (Some (default "" cur +:+ String c ""))).
      cbn [has_blank after_last_blank]. rewrite Ec. cbn [orb].
      change (default "" (Some (default "" cur +:+ String c "")))
        with (default "" cur +:+ String c "").
      destruct (all_blank s) eqn:Ea.
      * rewrite (all_blank_rstrip s Ea). done.
      * destruct (has_blank (rstrip_blank s)); [done |]. by rewrite append_snoc.
Qed.

Lemma last_word_spec (title : string) :
  all_blank title = false → last_word title = Ok (title_last_word title).
Proof.
  intros Hword. unfold last_word, split, title_last_word.
  rewrite split_aux_last, Hword.
  destruct (has_blank (rstrip_blank title)) eqn:Eb; [done |].
  cbn [default]. f_equal.
  destruct (rstrip_blank title) as [| c r]; [done |].
  cbn in *. apply orb_false_iff in Eb as [-> ->]. done.
Qed.

Lemma severity_mapping_words_spec (w : string) :
  severity_mapping_words w = word_severity w.
Proof.
  unfold severity_mapping_words, word_severity. cbn [od_get].
  repeat case_decide; subst; done.
Qed.

Lemma foldr_max_out (l : list county) (x y : Z) :
  foldr (λ c m, Z.max (severity c) m) (Z.max x y) l
  = Z.max y (foldr (λ c m, Z.max (severity c) m) x l).
Proof. induction l as [| c l IH]; cbn; [lia |]. rewrite IH. lia. Qed.

Lemma foldl_max_foldr (l : list county) (x : Z) :
  foldl Z.max x (severity <$> l) = foldr (λ c m, Z.max (severity c) m) x l.
Proof.
  revert x. induction l as [| c l IH]; intros x; cbn; [done |].
  by rewrite IH, foldr_max_out.
Qed.

(** On a sortable alert the key the program computes is the key of the
    specification. *)
Lemma sort_key_spec item : sortable item → sort_key item = Ok (spec_key item).
Proof.
  destruct item as [title counties]. intros [Hc Hw]. cbn in Hc, Hw.
  unfold sort_key, spec_key. cbn [fst snd].
  destruct counties as [| c counties]; [done |].
  rewrite (last_word_spec title Hw). cbn.
  by rewrite foldl_max_foldr, severity_mapping_words_spec.
Qed.

Lemma decorate_spec a :
  Forall sortable a → decorate a = Ok ((λ item, (spec_key item, item)) <$> a).
Proof.
  induction 1 as [| item a Hitem _ IH]; cbn; [done |].
  rewrite (sort_key_spec item Hitem), IH. done.
Qed.

Definition spec_keyed (p : (Z * Z) * (string * list county)) : Prop :=
  p.1 = spec_key p.2.

Lemma sorted_spec d :
  Forall spec_keyed d → StronglySorted desc d →
  StronglySorted (λ x y, key_ge (spec_key x) (spec_key y)) d.*2.
Proof.
  intros Hk Hs. induction Hs as [| p d Hs IH Hall]; cbn; [constructor |].
  apply Forall_cons in Hk as [Hp Hk].
  constructor; [by apply IH |].
  apply Forall_fmap. apply Forall_forall. intros q Hq.
  rewrite Forall_forall in Hall, Hk. specialize (Hall q Hq). specialize (Hk q Hq).
  unfold spec_keyed, desc in *. cbn. by rewrite <- Hp, <- Hk.
Qed.

Lemma filter_spec (k : Z * Z) d :
  Forall spec_keyed d →
  filter (λ x, spec_key x = k) d.*2 = (filter (λ p, p.1 = k) d).*2.
Proof.
  induction 1 as [| p d Hp _ IH]; [done |].
  rewrite fmap_cons, !filter_cons, IH. unfold spec_keyed in Hp.
  repeat case_decide; try done; congruence.
Qed.

(** C4, as amended: on a collection in which every alert has an
    occurrence and every title a character that is not whitespace,
    [sort_alerts] returns the first [MAX_ALERTS] items of a
    rearrangement [s] of the collection that is in descending order of
    the key of the specification (largest severity of the occurrences,
    then severity of the last word of the title: Warning 4, Watch 3,
    Advisory 2, Statement 1 and 0 otherwise) and keeps the items of
    equal keys in their input order; so the result has at most
    [MAX_ALERTS] alerts, and no alert left out is above a kept one. *)
Theorem sort_alerts_spec a :
  Forall sortable a →
  ∃ s, sort_alerts a = Ok (take MAX_ALERTS s)
    ∧ s ≡ₚ a
    ∧ StronglySorted (λ x y, key_ge (spec_key x) (spec_key y)) s
    ∧ (∀ k, filter (λ x, spec_key x = k) s = filter (λ x, spec_key x = k) a)
    ∧ (length (take MAX_ALERTS s) ≤ MAX_ALERTS)%nat
    ∧ (∀ x y, x ∈ take MAX_ALERTS s → y ∈ drop MAX_ALERTS s →
              key_ge (spec_key x) (spec_key y)).
Proof.
  intros Hs. pose proof (decorate_spec a Hs) as Hd.
  set (d := (λ item, (spec_key item, item)) <$> a) in *.
  assert (d.*2 = a) as Hitems.
  { unfold d. rewrite <- list_fmap_compose. apply list_fmap_id. }
  assert (Forall spec_keyed d) as Hkeyed.
  { unfold d. apply Forall_fmap. by apply Forall_forall. }
  assert (Forall spec_keyed (sorted_desc d)) as Hkeyed'
    by (by rewrite sorted_desc_perm).
  pose proof (sorted_spec _ Hkeyed' (sorted_desc_sorted d)) as Hsorted.
  exists (sorted_desc d).*2.
  split; [unfold sort_alerts; rewrite Hd; reflexivity |].
  split; [by rewrite sorted_desc_perm, Hitems |].
  split; [done |].
  split.
  { intros k. rewrite (filter_spec k _ Hkeyed'), sorted_desc_stable.
    rewrite <- (filter_spec k _ Hkeyed), Hitems. done. }
  split; [rewrite length_take; lia |].
  intros x y Hx Hy. rewrite <- (take_drop MAX_ALERTS (sorted_desc d).*2) in Hsorted.
  apply (StronglySorted_app_1_elem_of
           (λ x y : string * list county, key_ge (spec_key x) (spec_key y))
           _ _ x y Hsorted Hx Hy).
Qed.

End SortAlerts.

Definition three_alerts : alerts :=
  [("Flood Watch", [County "ARC125" 3 "Flooding" "2023-05-01T12:00:00.000000Z"]);
   ("Tornado Warning", [County "ARC125" 4 "Tornado" "2023-05-01T12:00:00.000000Z";
                        County "ARC119" 3 "Tornado" "2023-05-01T12:00:00.000000Z"]);
   ("Flood Advisory", [County "ARC119" 3 "Flooding" "2023-05-01T13:00:00.000000Z"])].


(** Five alerts of one severity, under a limit of three. *)
Definition level_alerts : alerts :=
  [("Flood Advisory", [County "ARC125" 3 "Flooding" "2023-05-01T12:00:00.000000Z"]);
   ("Air Quality Alert", [County "ARC125" 3 "Smoke" "2023-05-01T12:00:00.000000Z"]);
   ("Severe Thunderstorm Watch",
    [County "ARC119" 3 "Storm" "2023-05-01T12:00:00.000000Z"]);
   ("Special Weather Statement",
    [County "ARC119" 3 "Fog" "2023-05-01T12:00:00.000000Z"]);
   ("Tornado Warning", [County "ARC125" 3 "Tornado" "2023-05-01T12:00:00.000000Z"])].

(** With equal severities the last word of the title decides: the
    warning comes first, the watch second, the advisory third, and the
    statement and the alert are left out. *)
Lemma sort_alerts_spec_witness :
  let cfg := test_config [] [] 3 in
  sort_alerts level_alerts
  = Ok [("Tornado Warning", [County "ARC125" 3 "Tornado" "2023-05-01T12:00:00.000000Z"]);
        ("Severe Thunderstorm Watch",
         [County "ARC119" 3 "Storm" "2023-05-01T12:00:00.000000Z"]);
        ("Flood Advisory",
         [County "ARC125" 3 "Flooding" "2023-05-01T12:00:00.000000Z"])]
  ∧ ∃ s, sort_alerts level_alerts = Ok (take 3 s) ∧ s ≡ₚ level_alerts
      ∧ StronglySorted (λ x y, key_ge (spec_key x) (spec_key y)) s.
Proof.
  intros cfg. split; [vm_compute; reflexivity |].
  destruct (@sort_alerts_spec cfg level_alerts) as (s & H1 & H2 & H3 & _).
  - repeat constructor; cbn; discriminate.
  - exists s. split; [exact H1 |]. split; [exact H2 | exact H3].
Defined.

(** C4 fails as stated: [sort_alerts] returns nothing on a collection
    that holds an alert without occurrence, as the one the handler of a
    failed request builds, or a title without a word; it raises
    [ValueError] in the first case and [IndexError] in the second. *)
Lemma sort_alerts_raises :
  let cfg := test_config [] [] 99 in
  sort_alerts [("Tornado Warning", [])] = Raise ValueError
  ∧ sort_alerts [(" ", [County "ARC125" 4 "Tornado" "2023-05-01T12:00:00.000000Z"])]
    = Raise IndexError.
Proof. intros cfg. split; vm_compute; reflexivity. Qed.

(** ** The invariant of alert collections *)

Section Invariant.
Context {cfg : Config} {os : Host}.
Implicit Types (a : alerts).

(** Every title has at least one entry. *)
Definition populated a : Prop := Forall (λ item, item.2 ≠ []) a.

Lemma od_set_populated a (k : string) (v : list county) :
  populated a → v ≠ [] → populated (od_set a k v).
Proof.
  unfold populated. intros Ha Hv. induction Ha as [| [k0 v0] a H0 Ha IH]; cbn.
  - by repeat constructor.
  - case_decide; constructor; done.
Qed.

Lemma od_get_populated a (k : string) (v : list county) :
  populated a → od_get a k = Some v → v ≠ [].
Proof.
  unfold populated. intros Ha Hget. apply od_get_Some_elem in Hget.
  rewrite Forall_forall in Ha. exact (Ha _ Hget).
Qed.

(** The loop over the features of a zone keeps the invariant. *)
Lemma process_feature_populated (now : Z) (code : string) (f : feature)
    (acc : alerts * gset string) :
  populated acc.1 → populated (process_feature now code f acc).2.1.
Proof.
  intros Hacc. unfold process_feature.
  repeat (case_match; cbn [fst snd]; try done);
    (apply od_set_populated; [done |]); try done.
  all: by destruct l.
Qed.

Lemma features_populated (now : Z) (code : string) (fs : list feature)
    (acc : alerts * gset string) :
  populated acc.1 →
  populated (for_each fs (process_feature now code) acc).2.1.
Proof.
  revert acc. induction fs as [| f fs IH]; intros acc Hacc; cbn; [done |].
  unfold mbind, SE_bind.
  pose proof (process_feature_populated now code f acc Hacc) as Hstep.
  destruct (process_feature now code f acc) as [[[] | e] acc']; cbn in *.
  - by apply IH.
  - done.
Qed.

(** What [sort_alerts] returns satisfies the invariant: it returns
    nothing when an alert has no entry. *)
Lemma sort_alerts_populated a r : sort_alerts a = Ok r → populated r.
Proof.
  unfold sort_alerts. destruct (decorate a) as [d |] eqn:Hd; cbn; [| done].
  intros [= <-]. destruct (decorate_Ok a d Hd) as [_ Hkeyed].
  unfold populated. apply Forall_take, Forall_fmap.
  rewrite sorted_desc_perm. eapply Forall_impl; [exact Hkeyed |].
  intros [k [title counties]]. unfold keyed, sort_key. cbn.
  destruct counties; [done | by intros _].
Qed.

(** Without a failed request, the collection built by the loop over
    the zones satisfies the invariant. *)
Lemma fetch_loop_populated (fetch : string → option (list feature))
    (now later : Z) (codes : list string) (acc : alerts * gset string)
    (w : world) a :
  (∀ code, code ∈ codes → is_Some (fetch code)) →
  populated acc.1 →
  (fetch_loop fetch now later codes acc w).1 = Ok a →
  populated a.
Proof.
  revert acc. induction codes as [| code codes IH]; intros acc Hfetch Hacc; cbn.
  - by intros [= <-].
  - destruct (Hfetch code) as [fs Hfs]; [left |]. rewrite Hfs.
    pose proof (features_populated now code fs acc Hacc) as Hstep.
    destruct (for_each fs (process_feature now code) acc) as [[[] | e] acc']; cbn in *.
    + apply IH; [| done]. intros c Hc. apply Hfetch. by right.
    + done.
Qed.

End Invariant.

(** The state stored by the cycle of 1 May 2023: a Tornado Warning for
    zone ARC125 that ends at noon. *)
Definition stored_warning : datafile :=
  Stored {| j_ct := Some (Some "WX"); j_id := Some (Some "WX");
            j_alertscript_alerts := Some [];
            j_last_alerts :=
              Some [("Tornado Warning",
                     [County "ARC125" 4 "Tornado" "2023-05-01T12:00:00.000000Z"])];
            j_last_sayalert := Some ["Tornado Warning"];
            j_active_alerts := Some ["Tornado Warning"] |}.

(** Midnight of 2 May 2023. *)
Definition next_day : Z := 20230502000000000000.

Example next_day_strftime : calendar_strftime next_day = "2023-05-02T00:00:00.000000Z".
Proof. vm_compute. reflexivity. Qed.

(** C3 fails in the code: the feed is unreachable after the stored
    warning has expired.  The handler of the failed request rebuilds the
    collection with the title and an empty list, and the sort that
    follows raises [ValueError] on it: [get_alerts] returns no
    collection. *)
Theorem fallback_keeps_expired_title :
  let cfg := test_config [] [] 99 in
  let os := test_host in
  let unreachable : string → option (list feature) := λ _, None in
  (fetch_loop unreachable next_day next_day COUNTY_CODES ([], ∅)
              (empty_world stored_warning)).1
  = Ok [("Tornado Warning", [])]
  ∧ (get_alerts unreachable next_day next_day COUNTY_CODES
                (empty_world stored_warning)).1
    = Raise ValueError.
Proof.
  intros cfg os unreachable. split; vm_compute; reflexivity.
Qed.

(** ** AlertScript triggers *)

Section Triggers.
Context {cfg : Config} {os : Host}.
Implicit Types (m : mapping) (w : world) (processed : gset string).

(** The pairs of a new alert and a trigger it matches, alert by alert
    and trigger by trigger. *)
Definition matching_pairs (new_alerts triggers : list string)
    : list (string * string) :=
  filter (λ p, fnmatch p.1 p.2 = true)
         (alert ← new_alerts; trigger ← triggers; [(alert, trigger)]).

(** The new alerts that match at least one trigger. *)
Definition matching_titles (new_alerts triggers : list string) : list string :=
  filter (λ alert, existsb (fnmatch alert) triggers = true) new_alerts.

Lemma matched_alerts_pairs (new_alerts triggers : list string) :
  matched_alerts new_alerts triggers = (matching_pairs new_alerts triggers).*1.
Proof.
  unfold matched_alerts, matching_pairs.
  induction new_alerts as [| alert new_alerts IH]; [done |].
  cbn [flat_map]. rewrite IH. rewrite bind_cons, filter_app, fmap_app. f_equal.
  clear IH. induction triggers as [| trigger triggers IH]; [done |].
  cbn [flat_map]. rewrite bind_cons, filter_app, fmap_app, <- IH. f_equal.
  rewrite filter_cons, filter_nil.
  case_decide as Hd; cbn in Hd; destruct (fnmatch alert trigger); done.
Qed.

Lemma process_mapping_no_new m processed w :
  process_mapping m [] processed w = (Ok processed, w).
Proof.
  unfold process_mapping. cbn. destruct (fires _ _ _); reflexivity.
Qed.

Lemma process_mappings_no_new (ms : list mapping) processed w :
  process_mappings ms [] processed w = (Ok processed, w).
Proof.
  induction ms as [| m ms IH]; cbn; [done |].
  unfold mbind, SE_bind. rewrite process_mapping_no_new. apply IH.
Qed.

(** Titles that were active at the last run fire nothing: when every
    title of the collection is among the stored active alerts, no
    command is run. *)
Lemma alert_script_no_new (a : alerts) w st :
  load_state_of (data_file w) = Ok st →
  (∀ t, t ∈ od_keys a → t ∈ active_alerts st) →
  ran (alert_script a w).2 = ran w ∧ (alert_script a w).1 = Ok ().
Proof.
  intros Hload Hsub. unfold alert_script, mbind, SE_bind, load_state.
  rewrite Hload.
  assert ((list_to_set (od_keys a) : gset string)
          ∖ list_to_set (active_alerts st) = ∅) as ->.
  { apply leibniz_equiv. apply set_equiv. intros t.
    rewrite elem_of_difference, !elem_of_list_to_set. set_solver. }
  rewrite elements_empty, process_mappings_no_new. done.
Qed.

(** A title that was active and is no longer in the collection is not
    among the processed titles that are saved. *)
Lemma alert_script_clears (a : alerts) w w' st t :
  load_state_of (data_file w) = Ok st →
  alert_script a w = (Ok (), w') →
  t ∈ active_alerts st →
  (t ∉ od_keys a) →
  ∃ st', load_state_of (data_file w') = Ok st'
         ∧ (t ∉ alertscript_alerts st')
         ∧ (∀ t', t' ∈ active_alerts st' ↔ t' ∈ od_keys a).
Proof.
  intros Hload Hrun Hactive Hgone.
  unfold alert_script, mbind, SE_bind, load_state in Hrun. rewrite Hload in Hrun.
  destruct (process_mappings _ _ _ w) as [[p' | e] w1]; [| done].
  unfold save_state, set_data_file in Hrun. injection Hrun as <-.
  eexists. split; [reflexivity |]. cbn. split.
  - rewrite elem_of_elements. set_solver.
  - intros t'. by rewrite elem_of_elements, elem_of_list_to_set.
Qed.


End Triggers.

Definition siren (match_mode : string) : mapping :=
  {| Triggers := ["Tornado*"; "*Warning"];
     Commands := ["/usr/local/bin/siren.sh {alert_title}"];
     Nodes := [];
     Match := match_mode;
     Type_ := Some "BASH" |}.



Definition tornado_warning : alerts :=
  [("Tornado Warning",
    [County "ARC125" 4 "Tornado" "2023-05-01T12:00:00.000000Z"])].

(** C6 fails in the code: a first cycle with one Tornado Warning and an
    ANY mapping whose two patterns both match it.  The title is new
    once, and the command of the mapping is run twice for it. *)
Theorem alert_script_fires_twice :
  let cfg := test_config [] [siren "ANY"] 99 in
  let os := test_host in
  ran (alert_script tornado_warning (empty_world Absent)).2
  = [Bash "/usr/local/bin/siren.sh Tornado Warning";
     Bash "/usr/local/bin/siren.sh Tornado Warning"].
Proof.
  intros cfg os. vm_compute. reflexivity.
Qed.

(** ** Audio assembly *)

Section Audio.
Context {cfg : Config} {os : Host}.
Implicit Types (a : alerts) (w : world) (b : builder).

(** An empty collection gives the silence clip. *)
Lemma build_tailmessage_empty w :
  build_tailmessage [] w = export_tailmessage silence_100 w
  ∧ tailmessage_file (build_tailmessage [] w).2 = Some silence_100.
Proof. split; reflexivity. Qed.

(** The test [combined_sound.empty()] is false whatever was built. *)
Lemma empty_is_false (combined : AudioSegment) :
  segment_bool (empty combined) = false.
Proof. reflexivity. Qed.

(** Blocked alerts leave the variables of the builder as they were. *)
Lemma tail_alerts_blocked (sound_effect : clip) a b :
  Forall (λ item, existsb (fnmatch item.1) TAILMESSAGE_BLOCKED_EVENTS = true) a →
  for_each a (tail_alert sound_effect) b = (Ok (), b).
Proof.
  induction 1 as [| item a Hitem _ IH]; cbn; [done |].
  unfold mbind, SE_bind, tail_alert. rewrite Hitem. cbn. exact IH.
Qed.

(** What is written when every alert of a collection is blocked: the
    segment built from nothing, with the suffix or the delay when they
    are configured. *)
Lemma build_tailmessage_all_blocked a w :
  a ≠ [] →
  wav_exists (Effect AlertSeperator) = true →
  Forall (λ item, existsb (fnmatch item.1) TAILMESSAGE_BLOCKED_EVENTS = true) a →
  TailmessageSuffix = None →
  tailmessage_file (build_tailmessage a w).2 =
    Some (convert_audio (if 0 <? AUDIO_DELAY then [Silent AUDIO_DELAY] else [])).
Proof.
  intros Hne Hsep Hblocked Hsuffix. unfold build_tailmessage.
  rewrite bool_decide_eq_false_2 by done.
  unfold mbind, SE_bind, lift, from_wav. rewrite Hsep.
  rewrite (tail_alerts_blocked _ _ _ Hblocked). rewrite empty_is_false.
  rewrite Hsuffix. cbn. destruct (0 <? AUDIO_DELAY); reflexivity.
Qed.

(** In [say_alerts] the set of announced codes is emptied for every
    alert: what an alert adds to the sound does not depend on the
    codes announced before it. *)
Lemma add_multiples_frame (counties : list county) (s : AudioSegment)
    (X : gset string) (n : nat) :
  ∃ r s', ∀ Y, add_multiples counties (Builder s Y n) = (r, Builder s' Y n).
Proof.
  unfold add_multiples.
  destruct WithMultiples; [| by exists (Ok ()), s].
  destruct (multiples counties); [| by exists (Ok ()), s].
  unfold mbind, SE_bind, lift. destruct (from_wav (SWP 149)) as [c | e].
  - by exists (Ok ()), (s ++ [Silent 200; c]).
  - by exists (Raise e), s.
Qed.

Lemma say_alert_resets (sound_effect : clip) (filtered : odict (list string))
    (item : string * list county) (s : AudioSegment) (X : gset string) (n : nat) :
  let r1 := say_alert sound_effect filtered item (Builder s X n) in
  let r2 := say_alert sound_effect filtered item (Builder s ∅ n) in
  r1.1 = r2.1
  ∧ combined_sound r1.2 = combined_sound r2.2
  ∧ alert_count r1.2 = alert_count r2.2.
Proof.
  cbn zeta. unfold say_alert. destruct (od_mem filtered item.1); [| done].
  unfold try_except, mbind, SE_bind, lift.
  destruct (py_index ALERT_STRINGS item.1) as [index | e]; [| by destruct (caught e)].
  destruct (from_wav (SWP (S index))) as [audio_file | e]; [| by destruct (caught e)].
  unfold append_sound. cbn [combined_sound added_counties alert_count].
  destruct (add_multiples_frame item.2 (s ++ [sound_effect; audio_file]) X n)
    as (r & s' & Hm).
  rewrite (Hm X), (Hm ∅). destruct r as [[] | e]; [| by destruct (caught e)].
  unfold count_alert, reset_counties. cbn [combined_sound added_counties alert_count].
  done.
Qed.

End Audio.

(** Two alerts for the same zone. *)
Definition two_alerts_one_zone : alerts :=
  [("Tornado Warning",
    [County "ARC125" 4 "Tornado" "2023-05-01T12:00:00.000000Z"]);
   ("Flood Watch",
    [County "ARC125" 3 "Flooding" "2023-05-01T18:00:00.000000Z"])].

(** C8 fails in the code: one Tornado Warning and a tail message block
    list that blocks every title.  The file written holds the segment
    built from nothing, of length zero, and not the silence clip. *)
Theorem blocked_tailmessage_is_not_silence :
  let cfg := test_config ["*"] [] 99 in
  let os := test_host in
  tailmessage_file (build_tailmessage tornado_warning (empty_world Absent)).2
  = Some (convert_audio [])
  ∧ convert_audio [] ≠ silence_100.
Proof.
  intros cfg os. split; [vm_compute; reflexivity | discriminate].
Qed.

(** C9 fails in the code of the tail message: with two alerts for zone
    ARC125, the announcement names the zone after each title, and the
    tail message names it after the first title only. *)
Theorem tailmessage_announces_zone_once :
  let cfg := test_config [] [] 99 in
  let os := test_host in
  (clips <$> alert_file (say_alerts two_alerts_one_zone (empty_world Absent)).2)
  = Some [File (Effect "Duncecap.wav.wav"); Silent 600; File (SWP 148);
          File (Effect "Woodblock.wav"); File (SWP 108);
          Silent 600; File (Sound "Saline.wav"); Silent 600;
          File (Effect "Woodblock.wav"); File (SWP 44);
          Silent 600; File (Sound "Saline.wav"); Silent 600]
  ∧ (clips <$> tailmessage_file
                (build_tailmessage two_alerts_one_zone (empty_world Absent)).2)
    = Some [File (Effect "Woodblock.wav"); File (SWP 108);
            Silent 600; File (Sound "Saline.wav"); Silent 600;
            File (Effect "Woodblock.wav"); File (SWP 44)].
Proof.
  intros cfg os. split; vm_compute; reflexivity.
Qed.

(** ** The notification text *)

(** [m] posts no notification, and every value it returns satisfies
    [P]. *)
Definition yields {A} (m : M A) (P : A → Prop) : Prop :=
  ∀ w, pushed (m w).2 = pushed w ∧ ∀ x, (m w).1 = Ok x → P x.

Definition quiet {A} (m : M A) : Prop := yields m (λ _, True).

Section Yields.

Lemma yields_ret {A} (a : A) (P : A → Prop) : P a → yields (mret a) P.
Proof. intros Ha w. split; [done |]. by intros x [= <-]. Qed.

Lemma yields_bind {A B} (m : M A) (f : A → M B) (Q : A → Prop) (P : B → Prop) :
  yields m Q → (∀ a, Q a → yields (f a) P) → yields (m ≫= f) P.
Proof.
  intros Hm Hf w. unfold mbind, SE_bind.
  destruct (Hm w) as [Hp Hq]. destruct (m w) as [[a | e] w1]; cbn in *.
  - destruct (Hf a (Hq a eq_refl) w1) as [Hp' Hq']. split; [congruence | done].
  - split; [done | by intros x].
Qed.

Lemma yields_weaken {A} (m : M A) (P Q : A → Prop) :
  yields m P → (∀ a, P a → Q a) → yields m Q.
Proof. intros Hm HPQ w. destruct (Hm w). split; [done | eauto]. Qed.

Lemma quiet_lift {A} (r : result A) : quiet (lift r : M A).
Proof. intros w. by split. Qed.

Lemma quiet_raise {A} (e : exn) : quiet (raise e : M A).
Proof. intros w. by split. Qed.

Lemma quiet_for_each {A} (l : list A) (body : A → M unit) :
  (∀ x, quiet (body x)) → quiet (for_each l body).
Proof.
  intros Hbody. induction l as [| x l IH]; cbn.
  - by apply yields_ret.
  - eapply yields_bind; [apply Hbody | intros _ _; exact IH].
Qed.

Lemma quiet_intro {A} (m : M A) : (∀ w, pushed (m w).2 = pushed w) → quiet m.
Proof. intros H w. by split. Qed.

End Yields.

Lemma quiet_copyfile `{Host} (src dest : string) : quiet (copyfile src dest).
Proof. intros w. unfold copyfile. by destruct (_ || _). Qed.

(** Steps through a computation that posts nothing. *)
Ltac quiet_step :=
  first
    [ apply yields_ret; exact I
    | apply quiet_lift
    | apply quiet_raise
    | apply quiet_copyfile
    | apply quiet_for_each; intros ?
    | eapply yields_bind; [| intros ? _]
    | match goal with
      | |- yields (if ?c then _ else _) _ => destruct c
      | |- yields (match ?x with _ => _ end) _ => destruct x
      end
    | (apply quiet_intro; intros ?; reflexivity) ].

Ltac quiet_steps := unfold quiet; repeat quiet_step.

Section Notification.
Context {cfg : Config} {os : Host}.
Implicit Types (a : alerts) (w : world).

Lemma quiet_load_state : quiet load_state.
Proof. intros w. by split. Qed.

Lemma quiet_save_state (st : state) : quiet (save_state st).
Proof. intros w. by split. Qed.

Lemma quiet_change_ct (X : string) : quiet (change_ct X).
Proof. unfold change_ct, save_state. quiet_steps. Qed.

Lemma quiet_change_id (X : string) : quiet (change_id X).
Proof. unfold change_id, save_state. quiet_steps. Qed.

Lemma quiet_build_tailmessage a : quiet (build_tailmessage a).
Proof. unfold build_tailmessage. quiet_steps. Qed.

Lemma quiet_say_alerts a : quiet (say_alerts a).
Proof. unfold say_alerts, save_state. quiet_steps. Qed.

Lemma quiet_say_allclear : quiet say_allclear.
Proof. unfold say_allclear, save_state. quiet_steps. Qed.

Lemma quiet_supermon a : quiet (supermon_back_compat a).
Proof. unfold supermon_back_compat. quiet_steps. Qed.

Lemma quiet_run_commands (m : mapping) (alert : string) :
  quiet (run_commands m alert).
Proof. unfold run_commands. quiet_steps. Qed.

Lemma quiet_run_matched (m : mapping) (matched : list string)
    (processed : gset string) : quiet (run_matched m matched processed).
Proof.
  revert processed. induction matched as [| alert rest IH]; intros processed; cbn.
  - by apply yields_ret.
  - eapply yields_bind; [apply quiet_run_commands | intros _ _; apply IH].
Qed.

Lemma quiet_process_mappings (ms : list mapping) (new_alerts : list string)
    (processed : gset string) :
  quiet (process_mappings ms new_alerts processed).
Proof.
  revert processed. induction ms as [| m ms IH]; intros processed; cbn.
  - by apply yields_ret.
  - eapply yields_bind; [| intros p _; apply IH].
    unfold process_mapping. destruct (fires _ _ _).
    + apply quiet_run_matched.
    + by apply yields_ret.
Qed.

Lemma quiet_alert_script a : quiet (alert_script a).
Proof.
  unfold alert_script. eapply yields_bind; [apply quiet_load_state | intros st _].
  eapply yields_bind; [apply quiet_process_mappings | intros p _].
  apply quiet_save_state.
Qed.

Lemma quiet_fetch_loop (fetch : string → option (list feature)) (now later : Z)
    (codes : list string) (acc : alerts * gset string) :
  quiet (fetch_loop fetch now later codes acc).
Proof.
  revert acc. induction codes as [| code codes IH]; intros acc; cbn.
  - by apply yields_ret.
  - destruct (fetch code) as [fs |].
    + destruct (for_each fs (process_feature now code) acc) as [[[] | e] acc'].
      * apply IH.
      * apply quiet_raise.
    + intros w. split; [| done]. by destruct (data_file w).
Qed.

Lemma quiet_get_alerts (fetch : string → option (list feature)) (now later : Z)
    (codes : list string) : quiet (get_alerts fetch now later codes).
Proof.
  unfold get_alerts. eapply yields_bind; [apply quiet_fetch_loop | intros a _].
  apply quiet_lift.
Qed.

(** The local variable of the helper does change: with the debug
    option on, a first run that switches the tone to WX ends with the
    notice appended to it. *)
Lemma helper_local_appends a (msg : string) w st :
  load_state_of (data_file w) = Ok st →
  ct st = Some None →
  sources_exist (ct_copies "WX") →
  (∃ t, t ∈ od_keys a ∧ t ∈ CTAlerts) →
  (change_ct_id_helper_local a CTAlerts true "CT" true msg w).1
  = Ok (msg +:+ "Changed CT to WX" +:+ nl).
Proof.
  intros Hload Hct Hfiles (t & Ha & Hs). unfold change_ct_id_helper_local.
  destruct (filter _ _) as [| t' l] eqn:E.
  - exfalso. assert (t ∈ filter (λ alert, alert ∈ CTAlerts) (od_keys a)) as Hin
      by (apply list_elem_of_filter; done).
    rewrite E in Hin. by apply elem_of_nil in Hin.
  - unfold mbind, SE_bind. rewrite decide_True by done.
    rewrite (change_ct_other "WX" w st None) by done. reflexivity.
Qed.

Lemma quiet_helper a (specified : list string) (enabled : bool)
    (alert_type : string) (debug : bool) (msg : string) :
  quiet (change_ct_id_helper a specified enabled alert_type debug msg).
Proof.
  unfold change_ct_id_helper, change_ct_id_helper_local.
  apply (yields_bind _ _ (λ _, True)); [| intros ? _; by apply yields_ret].
  destruct enabled; [| by apply yields_ret].
  destruct (filter _ _); (apply (yields_bind _ _ (λ _, True));
    [destruct (decide _); [apply quiet_change_ct | apply quiet_change_id]
    | intros ? _; destruct (_ && _); by apply yields_ret]).
Qed.

(** The two calls of the helper leave the message of [main] as it
    was. *)
Lemma main_change_ct_id_yields a (msg : string) :
  yields (main_change_ct_id a msg) (λ msg', msg' = msg).
Proof.
  unfold main_change_ct_id.
  eapply yields_bind; [apply quiet_helper | intros _ _].
  eapply yields_bind; [apply quiet_helper | intros _ _].
  by apply yields_ret.
Qed.

(** The text [main] hands to [send_pushover] for the alerts [a] of the
    cycle and the alerts [last] of the state: the lines of the added,
    removed and changed alerts, the all-clear line, and the line of
    the tail message. *)
Definition notification_text (a last : alerts) : string :=
  let pushover_message := "" in
  let pushover_message :=
    pushover_message +:+ concat_lines (added_line a <$> added_alerts a last) in
  let pushover_message :=
    pushover_message +:+ concat_lines (removed_line last <$> removed_alerts a last) in
  let changes_details :=
    (if bool_decide (a ≠ []) then detect_county_changes last a else ([], [])).2 in
  let pushover_message :=
    pushover_message +:+ concat_lines (changed_line <$> changes_details) in
  let pushover_message :=
    if bool_decide (a = []) then pushover_message +:+ "Alerts Cleared" +:+ nl
    else pushover_message in
  if ENABLE_TAILMESSAGE then
    if PushoverDebug then
      pushover_message
      +:+ (if bool_decide (a = []) then "WX tailmessage removed"
           else "Built WX tailmessage") +:+ nl
    else pushover_message
  else pushover_message.

(** [m] posts nothing, or the one notification [text]. *)
Definition posts_at_most {A} (text : string) (m : M A) : Prop :=
  ∀ w, pushed (m w).2 = pushed w ∨ pushed (m w).2 = pushed w ++ [text].

Lemma posts_bind {A B} (text : string) (m : M A) (f : A → M B) (Q : A → Prop) :
  yields m Q → (∀ x, Q x → posts_at_most text (f x)) →
  posts_at_most text (m ≫= f).
Proof.
  intros Hm Hf w. unfold mbind, SE_bind.
  destruct (Hm w) as [Hp Hq]. destruct (m w) as [[x | e] w1]; cbn in *.
  - destruct (Hf x (Hq x eq_refl) w1) as [H | H]; rewrite H, Hp; eauto.
  - by left.
Qed.

Lemma posts_quiet {A} (text : string) (m : M A) : quiet m → posts_at_most text m.
Proof. intros Hm w. left. apply Hm. Qed.

(** [m] posts nothing, or the text of some collections. *)
Definition notifies {A} (m : M A) : Prop :=
  ∀ w, pushed (m w).2 = pushed w
       ∨ ∃ a last,
           pushed (m w).2
           = pushed w ++ [rstrip_nl (rstrip_nl (notification_text a last))].

Lemma notifies_bind {A B} (m : M A) (f : A → M B) :
  quiet m → (∀ x, notifies (f x)) → notifies (m ≫= f).
Proof.
  intros Hm Hf w. unfold mbind, SE_bind.
  destruct (Hm w) as [Hp _]. destruct (m w) as [[x | e] w1]; cbn in *.
  - rewrite <- Hp. apply Hf.
  - by left.
Qed.

Lemma posts_notifies {A} (a last : alerts) (m : M A) :
  posts_at_most (rstrip_nl (rstrip_nl (notification_text a last))) m →
  notifies m.
Proof. intros Hm w. destruct (Hm w) as [H | H]; [by left | right; eauto]. Qed.

(** The calls of [main] between the save of the state and the post. *)
Local Ltac quiet_if :=
  first [ by apply yields_ret
        | apply quiet_supermon | apply quiet_alert_script
        | apply quiet_say_allclear
        | (eapply yields_bind; [apply quiet_lift | intros ? _; apply quiet_say_alerts]) ].

Local Ltac main_rest :=
  eapply (posts_bind _ _ _ (λ m, m = _));
  [ first [ by apply yields_ret
          | (apply (yields_bind _ _ (λ _, True));
             [ destruct SayAllClear; quiet_if | intros _ _; by apply yields_ret ]) ]
  | intros ? -> ];
  eapply (posts_bind _ _ _ (λ m, m = _));
  [ destruct (_ || _);
    [ apply (yields_bind _ _ (λ _, True));
      [ destruct SupermonCompat; quiet_if | intros _ _ ];
      eapply yields_bind; [ apply main_change_ct_id_yields | intros ? -> ];
      apply (yields_bind _ _ (λ _, True));
      [ destruct AlertScriptEnable; quiet_if | intros _ _ ];
      apply (yields_bind _ _ (λ _, True));
      [ destruct SayAlert; quiet_if | intros _ _; by apply yields_ret ]
    | apply (yields_bind _ _ (λ _, True));
      [ destruct say_changed_enabled; quiet_if
      | intros _ _; by apply yields_ret ] ]
  | intros ? -> ];
  eapply (posts_bind _ _ _ (λ m, m = _));
  [ first [ by apply yields_ret
          | (eapply yields_bind;
             [ apply quiet_build_tailmessage | intros _ _; by apply yields_ret ]) ]
  | intros ? -> ];
  destruct PushoverEnable; [| apply posts_quiet; by apply yields_ret];
  intros ?; right; reflexivity.

(** C10: [change_ct_id_helper] returns nothing and posts nothing, and
    after the two calls of the helper the variable [pushover_message]
    of [main] holds what it held before them; so whatever the helper
    did to the tone and the identifier, a run of [main] posts at most
    one notification, and its text is the text of the alerts, with no
    notice of a change of tone or identifier. *)
Theorem helper_leaves_message :
  (∀ a (specified : list string) (enabled : bool) (alert_type : string)
     (debug : bool) (msg : string) w,
      pushed (change_ct_id_helper a specified enabled alert_type debug msg w).2
      = pushed w)
  ∧ (∀ a (msg : string) w,
      match (main_change_ct_id a msg w).1 with
      | Ok msg' => msg' = msg
      | Raise _ => True
      end)
  ∧ (∀ (fetch : string → option (list feature)) (now later : Z) w,
      pushed (main fetch now later w).2 = pushed w
      ∨ ∃ a last,
          pushed (main fetch now later w).2
          = pushed w ++ [rstrip_nl (rstrip_nl (notification_text a last))]).
Proof.
  split; [| split].
  - intros. apply quiet_helper.
  - intros a msg w. destruct (main_change_ct_id_yields a msg w) as [_ H].
    destruct (main_change_ct_id a msg w).1; [by apply H | done].
  - intros fetch now later.
    change (notifies (main fetch now later)). unfold main.
    apply notifies_bind; [by apply quiet_intro | intros fr].
    apply notifies_bind; [| intros _].
    { destruct fr; [| by apply yields_ret].
      apply (yields_bind _ _ (λ _, True)); [| intros _ _].
      { destruct CTEnable; [| by apply yields_ret].
        eapply yields_bind; [apply quiet_change_ct | intros _ _; by apply yields_ret]. }
      apply (yields_bind _ _ (λ _, True)); [| intros _ _].
      { destruct IDEnable; [| by apply yields_ret].
        eapply yields_bind; [apply quiet_change_id | intros _ _; by apply yields_ret]. }
      destruct ENABLE_TAILMESSAGE; [apply quiet_build_tailmessage | by apply yields_ret]. }
    apply notifies_bind; [apply quiet_load_state | intros st].
    apply notifies_bind; [apply quiet_get_alerts | intros a].
    apply (posts_notifies a (last_alerts st)).
    unfold notification_text.
    destruct (if bool_decide (a ≠ []) then _ else _) as [changed_alerts changes_details].
    cbn [snd].
    destruct (_ || _); [| apply posts_quiet; by apply yields_ret].
    eapply posts_bind; [apply quiet_save_state | intros _ _].
    destruct ENABLE_TAILMESSAGE, PushoverDebug, (bool_decide (a = []));
      lazy beta iota; main_rest.
Qed.

End Notification.

(** * Further properties of the engine *)

(** ** The state file *)

Section StateFile.
Context {V : Type}.
Implicit Types (d l : list (string * V)) (k : string) (v : V).

Lemma od_set_fresh d k v : k ∉ od_keys d → od_set d k v = d ++ [(k, v)].
Proof.
  unfold od_keys. induction d as [| [k0 v0] d IH]; cbn; [done |].
  rewrite not_elem_of_cons. intros [Hne Hnotin].
  rewrite decide_False by congruence. by rewrite IH.
Qed.

Lemma od_set_keys d k v :
  od_keys (od_set d k v) = if decide (k ∈ od_keys d) then od_keys d else od_keys d ++ [k].
Proof.
  unfold od_keys. induction d as [| [k0 v0] d IH]; cbn.
  - rewrite decide_False by apply not_elem_of_nil. done.
  - destruct (decide (k0 = k)) as [-> | Hne]; cbn.
    + rewrite decide_True by left. done.
    + rewrite IH. destruct (decide (k ∈ d.*1)) as [Hin | Hnotin].
      * rewrite decide_True by (by right). done.
      * rewrite decide_False; [done |]. rewrite not_elem_of_cons. split; congruence.
Qed.

Lemma od_set_NoDup d k v : NoDup (od_keys d) → NoDup (od_keys (od_set d k v)).
Proof.
  intros Hnd. rewrite od_set_keys. case_decide as Hin; [done |].
  apply NoDup_app. split; [done |]. split.
  - intros x Hx Hx'. apply list_elem_of_singleton in Hx'. by subst.
  - apply NoDup_singleton.
Qed.

Lemma od_update_NoDup d l : NoDup (od_keys d) → NoDup (od_keys (od_update d l)).
Proof.
  unfold od_update. revert d. induction l as [| [k v] l IH]; intros d Hd; cbn; [done |].
  apply IH. by apply od_set_NoDup.
Qed.

Lemma od_of_pairs_NoDup l : NoDup (od_keys (od_of_pairs l)).
Proof. apply (od_update_NoDup [] l). apply NoDup_nil. done. Qed.

Lemma od_update_id d l : NoDup (od_keys (d ++ l)) → od_update d l = d ++ l.
Proof.
  unfold od_update. revert d. induction l as [| [k v] l IH]; intros d Hnd; cbn.
  - by rewrite app_nil_r.
  - assert (k ∉ od_keys d) as Hfresh.
    { unfold od_keys in *. rewrite fmap_app in Hnd. apply NoDup_app in Hnd as (_ & Hd & _).
      intros Hin. apply (Hd k Hin). left. }
    rewrite od_set_fresh by done. rewrite IH; rewrite <- app_assoc; done.
Qed.

Lemma od_update_cons d l k v : od_update d ((k, v) :: l) = od_update (od_set d k v) l.
Proof. reflexivity. Qed.

Lemma od_get_update d l k :
  od_get (od_update d l) k =
    match last (filter (λ p, p.1 = k) l) with
    | Some p => Some p.2
    | None => od_get d k
    end.
Proof.
  revert d. induction l as [| [k0 v0] l IH]; intros d; [done |].
  rewrite od_update_cons, IH, filter_cons, od_get_set. cbn [fst].
  destruct (decide (k0 = k)) as [-> | Hne]; [| done].
  rewrite last_cons. by destruct (last _).
Qed.

End StateFile.

Section StateRoundTrip.
Implicit Types (st : state) (w : world).

(** X1: a state that is saved and loaded again comes back as it was
    saved, the alerts in their order, when the titles of [last_alerts]
    are distinct (as the keys of a dictionary are); the only change is
    that a dictionary under ["last_sayalert"] comes back as the list of
    its titles. *)
Theorem save_load_round_trip st w :
  NoDup (od_keys (last_alerts st)) →
  load_state (save_state st w).2
  = (Ok (set_last_sayalert st (SayList (sayalert_list (last_sayalert st)))),
     (save_state st w).2).
Proof.
  intros Hnd. unfold load_state, save_state, set_data_file. cbn.
  unfold od_of_pairs. fold (od_update [] (last_alerts st)).
  rewrite od_update_id by done. destruct st; reflexivity.
Qed.

(** X2: whatever the state file holds, the alerts [load_state] returns
    have distinct titles, and the alert found under a title is the last
    one the file lists for it. *)
Theorem loaded_alerts_distinct (j : json_state) w :
  data_file w = Stored j →
  ∃ st, load_state w = (Ok st, w)
    ∧ NoDup (od_keys (last_alerts st))
    ∧ ∀ t, od_get (last_alerts st) t
           = snd <$> last (filter (λ p, p.1 = t) (default [] (j_last_alerts j))).
Proof.
  intros Hj. unfold load_state. rewrite Hj. eexists. split; [reflexivity |]. cbn.
  split; [apply od_of_pairs_NoDup |].
  intros t. unfold od_of_pairs. fold (od_update [] (default [] (j_last_alerts j))).
  rewrite od_get_update. by destruct (last _).
Qed.

End StateRoundTrip.

Lemma save_load_round_trip_witness :
  let st := set_last_alerts default_state three_alerts in
  load_state (save_state st (empty_world Absent)).2
  = (Ok st, (save_state st (empty_world Absent)).2).
Proof.
  intros st.
  rewrite (save_load_round_trip st (empty_world Absent)).
  - reflexivity.
  - vm_compute. repeat (apply NoDup_cons; split; [set_solver |]). apply NoDup_nil. done.
Defined.

(** A file that lists Flood Watch twice. *)
Definition repeated_title : json_state :=
  {| j_ct := None; j_id := None; j_alertscript_alerts := None;
     j_last_alerts := Some [("Flood Watch", [zone "ARC125"]);
                            ("Tornado Warning", [zone "ARC119"]);
                            ("Flood Watch", [zone "ARC119"])];
     j_last_sayalert := None; j_active_alerts := None |}.

Lemma loaded_alerts_distinct_witness :
  ∃ st, load_state (empty_world (Stored repeated_title))
        = (Ok st, empty_world (Stored repeated_title))
    ∧ od_keys (last_alerts st) = ["Flood Watch"; "Tornado Warning"]
    ∧ od_get (last_alerts st) "Flood Watch" = Some [zone "ARC119"].
Proof.
  destruct (loaded_alerts_distinct repeated_title (empty_world (Stored repeated_title))
              eq_refl) as (st & Hload & _ & Hget).
  exists st. split; [exact Hload |]. split.
  - injection Hload as <-. reflexivity.
  - rewrite Hget. reflexivity.
Defined.

(** ** Tone and identifier: errors and independence *)

Section ToneFrame.
Context {cfg : Config} {os : Host}.
Implicit Types (st : state) (w : world) (X : string).

(** A state that was loaded has distinct titles and a list under
    ["last_sayalert"]; such a state is read back unchanged once saved. *)
Lemma loaded_shape (d : datafile) st :
  load_state_of d = Ok st →
  NoDup (od_keys (last_alerts st)) ∧ ∃ l, last_sayalert st = SayList l.
Proof.
  intros Hload. destruct d; cbn in Hload; try done; injection Hload as <-; cbn.
  - split; [apply NoDup_nil; done | by eexists].
  - split; [apply od_of_pairs_NoDup | by eexists].
Qed.

Lemma reload st (l : list string) :
  NoDup (od_keys (last_alerts st)) →
  last_sayalert st = SayList l →
  load_state_of (Stored (json_of_state st)) = Ok st.
Proof.
  intros Hnd Hl. cbn. unfold od_of_pairs. fold (od_update [] (last_alerts st)).
  rewrite od_update_id by done. destruct st; cbn in *. by subst.
Qed.

Lemma change_ct_frame X w st :
  load_state_of (data_file w) = Ok st →
  ∃ st', load_state_of (data_file (change_ct X w).2) = Ok st'
    ∧ id st' = id st
    ∧ alertscript_alerts st' = alertscript_alerts st
    ∧ last_alerts st' = last_alerts st
    ∧ last_sayalert st' = last_sayalert st
    ∧ active_alerts st' = active_alerts st.
Proof.
  intros Hload.
  destruct (ct st) as [cur |] eqn:Hct.
  - destruct (decide (X = "")) as [-> | HX].
    + unfold change_ct, mbind, SE_bind, load_state, lift, getitem.
      rewrite Hload, Hct. cbn. rewrite decide_True by done. cbn.
      rewrite Hload. by eexists.
    + destruct (decide (cur = Some X)) as [-> | Hcur].
      * rewrite (change_ct_same X w st) by done. cbn. rewrite Hload. by eexists.
      * destruct (change_ct_cases X w st cur HX Hload Hct Hcur) as [copies [-> | ->]];
          cbn [snd with_copies data_file].
        -- destruct (loaded_shape _ _ Hload) as [Hnd [l Hl]].
           exists (set_ct st X). split; [| done].
           by apply (reload (set_ct st X) l).
        -- rewrite Hload. by eexists.
  - unfold change_ct, mbind, SE_bind, load_state, lift, getitem.
    rewrite Hload, Hct. cbn. rewrite Hload. by eexists.
Qed.

Lemma change_id_frame X w st :
  load_state_of (data_file w) = Ok st →
  ∃ st', load_state_of (data_file (change_id X w).2) = Ok st'
    ∧ ct st' = ct st
    ∧ alertscript_alerts st' = alertscript_alerts st
    ∧ last_alerts st' = last_alerts st
    ∧ last_sayalert st' = last_sayalert st
    ∧ active_alerts st' = active_alerts st.
Proof.
  intros Hload.
  destruct (id st) as [cur |] eqn:Hid.
  - destruct (decide (X = "")) as [-> | HX].
    + unfold change_id, mbind, SE_bind, load_state, lift, getitem.
      rewrite Hload, Hid. cbn. rewrite decide_True by done. cbn.
      rewrite Hload. by eexists.
    + destruct (decide (cur = Some X)) as [-> | Hcur].
      * rewrite (change_id_same X w st) by done. cbn. rewrite Hload. by eexists.
      * destruct (change_id_cases X w st cur HX Hload Hid Hcur) as [copies [-> | ->]];
          cbn [snd with_copies data_file].
        -- destruct (loaded_shape _ _ Hload) as [Hnd [l Hl]].
           exists (set_id st X). split; [| done].
           by apply (reload (set_id st X) l).
        -- rewrite Hload. by eexists.
  - unfold change_id, mbind, SE_bind, load_state, lift, getitem.
    rewrite Hload, Hid. cbn. rewrite Hload. by eexists.
Qed.

(** X3: the two switches are independent.  Whatever the target, after
    [change_ct] the state file still loads, with the identifier, the
    alerts and the three lists it held before; after [change_id] it
    still loads with the tone, the alerts and the lists it held before.
    Neither runs a command or writes an audio file. *)
Theorem tone_and_identifier_independent X w st :
  load_state_of (data_file w) = Ok st →
  (∃ st', load_state_of (data_file (change_ct X w).2) = Ok st'
     ∧ id st' = id st
     ∧ alertscript_alerts st' = alertscript_alerts st
     ∧ last_alerts st' = last_alerts st
     ∧ last_sayalert st' = last_sayalert st
     ∧ active_alerts st' = active_alerts st)
  ∧ (∃ st', load_state_of (data_file (change_id X w).2) = Ok st'
     ∧ ct st' = ct st
     ∧ alertscript_alerts st' = alertscript_alerts st
     ∧ last_alerts st' = last_alerts st
     ∧ last_sayalert st' = last_sayalert st
     ∧ active_alerts st' = active_alerts st)
  ∧ ran (change_ct X w).2 = ran w
  ∧ ran (change_id X w).2 = ran w
  ∧ tailmessage_file (change_ct X w).2 = tailmessage_file w
  ∧ tailmessage_file (change_id X w).2 = tailmessage_file w.
Proof.
  intros Hload.
  split; [by apply change_ct_frame |]. split; [by apply change_id_frame |].
  unfold change_ct, change_id, copyfile, mbind, SE_bind, load_state, lift, getitem.
  rewrite Hload.
  destruct (ct st) as [c |], (id st) as [i |]; cbn;
    repeat first
      [ case_decide
      | match goal with
        | |- context [if ?b || ?c then _ else _] => destruct (b || c)
        end ];
    cbn; done.
Qed.

(** X4: the errors of the two switches.  A state file that does not
    load makes them raise what [load_state] raises; a state without the
    key ["ct"] (resp. ["id"]) makes [change_ct] (resp. [change_id])
    raise [KeyError], even for an empty target; an empty target with
    the key present returns [None].  In all these cases nothing is
    copied and nothing is written. *)
Theorem transition_errors X w :
  match load_state_of (data_file w) with
  | Raise e => change_ct X w = (Raise e, w) ∧ change_id X w = (Raise e, w)
  | Ok st =>
      match ct st with
      | None => change_ct X w = (Raise (KeyError "ct"), w)
      | Some _ => X = "" → change_ct X w = (Ok None, w)
      end
      ∧ match id st with
        | None => change_id X w = (Raise (KeyError "id"), w)
        | Some _ => X = "" → change_id X w = (Ok None, w)
        end
  end.
Proof.
  unfold change_ct, change_id, mbind, SE_bind, load_state, lift, getitem.
  destruct (load_state_of (data_file w)) as [st | e]; [| done].
  destruct (ct st), (id st); cbn; split; try done; intros ->; done.
Qed.

End ToneFrame.

(** The stored warning state, switched back to the normal tone. *)
Lemma tone_and_identifier_independent_witness :
  let cfg := test_config [] [] 99 in
  let os := test_host in
  ∃ st', load_state_of (data_file (change_ct "NORMAL" (empty_world stored_warning)).2)
         = Ok st'
    ∧ ct st' = Some (Some "NORMAL") ∧ id st' = Some (Some "WX")
    ∧ last_alerts st' = tornado_warning.
Proof.
  intros cfg os.
  destruct (@tone_and_identifier_independent cfg os "NORMAL" (empty_world stored_warning)
              _ eq_refl) as [(st' & Hload & Hid & _ & Hla & _) _].
  exists st'. split; [exact Hload |]. split; [| split; [exact Hid | exact Hla]].
  vm_compute in Hload. injection Hload as <-. reflexivity.
Defined.

(** ** What [get_alerts] collects *)

Section Collected.
Context {cfg : Config} {os : Host}.
Implicit Types (a : alerts) (f : feature) (t code : string) (now : Z).

(** The end time [get_alerts] uses for a feature. *)
Definition feature_end f : option string :=
  if truthy (time_type_end f) then time_type_end f else expires f.

(** Start and end are given and [start <= now < end]. *)
Definition in_window now f : bool :=
  truthy (time_type_start f) && truthy (feature_end f)
  && bool_decide (parser_parse (default "" (time_type_start f)) ≤ now
                  < parser_parse (default "" (feature_end f))).

Definition globally_blocked f : bool :=
  existsb (fnmatch (event f)) GLOBAL_BLOCKED_EVENTS.

(** The severity of a feature: the field of the feed through its table
    when it is given, else the last word of the event. *)
Definition feature_severity f : result Z :=
  match f_severity f with
  | None => w ← last_word (event f); mret (severity_mapping_words w)
  | Some s => Ok (severity_mapping_api s)
  end.

(** The entry a feature of zone [code] contributes under title [t]. *)
Definition feature_entry now code f t : list county :=
  if in_window now f && negb (globally_blocked f) && bool_decide (event f = t) then
    match feature_severity f with
    | Ok sev =>
        [{| county_code := code; severity := sev;
            description := default "" (f_description f);
            end_time_utc := strftime (parser_parse (default "" (feature_end f))) |}]
    | Raise _ => []
    end
  else [].

Definition zone_entries now code (fs : list feature) t : list county :=
  flat_map (λ f, feature_entry now code f t) fs.

Definition feed_entries now (fetch : string → option (list feature))
    (codes : list string) t : list county :=
  flat_map (λ code, zone_entries now code (default [] (fetch code)) t) codes.

(** The state of the loop is coherent: the seen titles are the titles
    of the collection, they are distinct, and each has an entry. *)
Definition coherent (acc : alerts * gset string) : Prop :=
  (∀ t, t ∈ acc.2 ↔ t ∈ od_keys acc.1)
  ∧ NoDup (od_keys acc.1)
  ∧ populated acc.1.

Definition entries_under a t : list county := default [] (od_get a t).

Lemma coherent_empty : coherent ([], ∅).
Proof.
  split; [| split].
  - intros t. cbn. split; [set_solver | intros H; by apply elem_of_nil in H].
  - apply NoDup_nil. done.
  - constructor.
Qed.

Lemma coherent_add (acc : alerts * gset string) t (c : county) :
  coherent acc →
  coherent (od_set acc.1 t (entries_under acc.1 t ++ [c]), {[t]} ∪ acc.2)
  ∧ ∀ t', entries_under (od_set acc.1 t (entries_under acc.1 t ++ [c])) t'
          = entries_under acc.1 t' ++ (if decide (t = t') then [c] else []).
Proof.
  intros (Hseen & Hnd & Hpop). split; [split; [| split] |]; cbn [fst snd].
  - intros t'. rewrite od_set_keys. case_decide as Hin.
    + rewrite elem_of_union, elem_of_singleton, Hseen. split; [| by right].
      intros [-> | ?]; done.
    + rewrite elem_of_union, elem_of_singleton, Hseen, elem_of_app, list_elem_of_singleton.
      split; intros [? | ?]; auto.
  - by apply od_set_NoDup.
  - apply od_set_populated; [done |]. by destruct (entries_under _ _).
  - intros t'. unfold entries_under. rewrite od_get_set.
    case_decide as Ht; [subst t'; done |]. cbn. by rewrite app_nil_r.
Qed.

(** One feature: either the loop raises, or the state stays coherent
    and the collection gains what the feature contributes. *)
Lemma process_feature_entries now code f (acc acc' : alerts * gset string) :
  coherent acc →
  process_feature now code f acc = (Ok (), acc') →
  coherent acc'
  ∧ ∀ t, entries_under acc'.1 t = entries_under acc.1 t ++ feature_entry now code f t.
Proof.
  destruct acc as [a1 a2].
  intros Hacc. pose proof Hacc as (Hseen & Hnd & Hpop). cbn [fst snd] in Hseen, Hnd, Hpop.
  unfold process_feature, feature_entry, in_window, globally_blocked, feature_end.
  fold (feature_severity f). cbn [fst snd].
  destruct (truthy (time_type_start f) && truthy _) eqn:Etruthy; cbn [andb];
    [| intros [= <-]; split; [done | intros; by rewrite app_nil_r]].
  destruct (bool_decide _) eqn:Ewin; cbn [andb];
    [| intros [= <-]; split; [done | intros; by rewrite app_nil_r]].
  destruct (existsb _ _) eqn:Eblocked; cbn [andb negb];
    [intros [= <-]; split; [done | intros; by rewrite app_nil_r] |].
  destruct (feature_severity f) as [sev | e]; [| done].
  set (c := {| county_code := code |}).
  destruct (coherent_add (a1, a2) (event f) c Hacc) as [Hco Hent].
  cbn [fst snd] in Hco, Hent. unfold entries_under in Hco, Hent.
  assert (∀ t, (if decide (event f = t) then [c] else [])
               = (if bool_decide (event f = t) then [c] else [])) as Hdec.
  { intros t. destruct (decide (event f = t)).
    - by rewrite bool_decide_eq_true_2.
    - by rewrite bool_decide_eq_false_2. }
  destruct (decide (event f ∈ a2)) as [Hin | Hnotin].
  - apply Hseen, od_get_is_Some in Hin as [l Hl]. rewrite Hl.
    intros [= <-]. rewrite Hl in Hco, Hent. cbn [default] in Hco, Hent.
    replace ({[event f]} ∪ a2) with a2 in Hco.
    2: { apply leibniz_equiv. apply set_equiv. intros x.
         rewrite elem_of_union, elem_of_singleton. split; [by right |].
         intros [-> | ?]; [| done]. apply Hseen, od_get_is_Some. eauto. }
    split; [exact Hco |]. intros t. cbn [fst snd]. unfold entries_under.
    by rewrite Hent, Hdec.
  - assert (od_get a1 (event f) = None) as Hnone.
    { apply od_get_None. intros Hin. by apply Hnotin, Hseen. }
    intros [= <-]. rewrite Hnone in Hco, Hent. cbn [default app] in Hco, Hent.
    split; [exact Hco |]. intros t. cbn [fst snd]. unfold entries_under.
    by rewrite Hent, Hdec.
Qed.

Lemma zone_loop_entries now code (fs : list feature) (acc acc' : alerts * gset string) :
  coherent acc →
  for_each fs (process_feature now code) acc = (Ok (), acc') →
  coherent acc'
  ∧ ∀ t, entries_under acc'.1 t = entries_under acc.1 t ++ zone_entries now code fs t.
Proof.
  revert acc. induction fs as [| f fs IH]; intros acc Hacc; cbn.
  - intros [= <-]. split; [done | intros; by rewrite app_nil_r].
  - unfold mbind, SE_bind.
    destruct (process_feature now code f acc) as [[[] | e] acc1] eqn:Estep; [| done].
    destruct (process_feature_entries now code f acc acc1 Hacc Estep) as [Hco1 Hent1].
    intros Hrest. destruct (IH acc1 Hco1 Hrest) as [Hco' Hent'].
    split; [done |]. intros t. by rewrite Hent', Hent1, <- app_assoc.
Qed.

(** The loop over the zones when every request succeeds. *)
Lemma fetch_loop_entries (fetch : string → option (list feature)) now (later : Z)
    (codes : list string) (acc : alerts * gset string) (w w' : world) a :
  (∀ code, code ∈ codes → is_Some (fetch code)) →
  coherent acc →
  fetch_loop fetch now later codes acc w = (Ok a, w') →
  w' = w
  ∧ NoDup (od_keys a) ∧ populated a
  ∧ ∀ t, entries_under a t = entries_under acc.1 t ++ feed_entries now fetch codes t.
Proof.
  revert acc. induction codes as [| code codes IH]; intros acc Hfetch Hacc; cbn.
  - intros [= <- <-]. destruct Hacc as (_ & ? & ?).
    repeat split; try done. intros; by rewrite app_nil_r.
  - destruct (Hfetch code) as [fs Hfs]; [left |]. rewrite Hfs. cbn [default].
    destruct (for_each fs (process_feature now code) acc) as [[[] | e] acc1] eqn:Ezone;
      [| done].
    destruct (zone_loop_entries now code fs acc acc1 Hacc Ezone) as [Hco1 Hent1].
    intros Hrest.
    destruct (IH acc1 (λ c Hc, Hfetch c (proj2 (elem_of_cons _ _ _) (or_intror Hc)))
                Hco1 Hrest) as (-> & Hnd & Hpop & Hent).
    repeat split; try done. intros t. by rewrite Hent, Hent1, <- app_assoc.
Qed.

Lemma sort_alerts_take a r :
  sort_alerts a = Ok r → ∃ s, s ≡ₚ a ∧ r = take MAX_ALERTS s.
Proof.
  unfold sort_alerts. destruct (decorate a) as [d |] eqn:Hd; cbn; [| done].
  intros [= <-]. destruct (decorate_Ok a d Hd) as [Hitems _].
  exists (sorted_desc d).*2. split; [| done]. by rewrite sorted_desc_perm, Hitems.
Qed.

Lemma sort_alerts_distinct a r :
  sort_alerts a = Ok r → NoDup (od_keys a) → NoDup (od_keys r).
Proof.
  intros (s & Hperm & ->)%sort_alerts_take Hnd. unfold od_keys in *.
  rewrite fmap_take. apply (sublist_NoDup _ s.*1); [| apply sublist_take].
  by rewrite Hperm.
Qed.

Lemma sort_alerts_kept a r item :
  sort_alerts a = Ok r → item ∈ r → item ∈ a.
Proof.
  intros (s & Hperm & ->)%sort_alerts_take Hin.
  rewrite <- Hperm. apply elem_of_take in Hin as (i & Hi & _).
  by eapply list_elem_of_lookup_2.
Qed.

Lemma feed_entries_elem now (fetch : string → option (list feature))
    (codes : list string) t (c : county) :
  c ∈ feed_entries now fetch codes t →
  ∃ code fs f, code ∈ codes ∧ fetch code = Some fs ∧ f ∈ fs
               ∧ c ∈ feature_entry now code f t.
Proof.
  unfold feed_entries, zone_entries. rewrite list_elem_of_In, in_flat_map.
  intros (code & Hcode & Hc). rewrite in_flat_map in Hc.
  destruct Hc as (f & Hf & Hc).
  apply list_elem_of_In in Hcode. apply list_elem_of_In in Hf. apply list_elem_of_In in Hc.
  destruct (fetch code) as [fs |] eqn:Efs; cbn in Hf; [| by apply elem_of_nil in Hf].
  by exists code, fs, f.
Qed.

Lemma severity_range (s : string) :
  0 ≤ severity_mapping_api s ≤ 4 ∧ 0 ≤ severity_mapping_words s ≤ 4.
Proof.
  unfold severity_mapping_api, severity_mapping_words.
  repeat case_decide; lia.
Qed.

Lemma feature_entry_elem now code f t (c : county) :
  c ∈ feature_entry now code f t →
  event f = t ∧ in_window now f = true ∧ globally_blocked f = false
  ∧ county_code c = code ∧ feature_severity f = Ok (severity c)
  ∧ 0 ≤ severity c ≤ 4
  ∧ end_time_utc c = strftime (parser_parse (default "" (feature_end f))).
Proof.
  unfold feature_entry.
  destruct (in_window now f); cbn [andb]; [| by intros ?%elem_of_nil].
  destruct (globally_blocked f); cbn [andb negb]; [by intros ?%elem_of_nil |].
  case_bool_decide as Ht; [| by intros ?%elem_of_nil].
  destruct (feature_severity f) as [sev | e] eqn:Esev; [| by intros ?%elem_of_nil].
  intros ->%list_elem_of_singleton. cbn. repeat split; try done.
  - unfold feature_severity in Esev. destruct (f_severity f) as [s |].
    + injection Esev as <-. apply severity_range.
    + destruct (last_word (event f)) as [w0 |]; cbn in Esev; [| done].
      injection Esev as <-. apply severity_range.
  - unfold feature_severity in Esev. destruct (f_severity f) as [s |].
    + injection Esev as <-. apply severity_range.
    + destruct (last_word (event f)) as [w0 |]; cbn in Esev; [| done].
      injection Esev as <-. apply severity_range.
Qed.

(** The result of [get_alerts] when every request succeeds. *)
Lemma get_alerts_reachable (fetch : string → option (list feature)) now (later : Z)
    (codes : list string) (w w' : world) r :
  (∀ code, code ∈ codes → is_Some (fetch code)) →
  get_alerts fetch now later codes w = (Ok r, w') →
  w' = w
  ∧ NoDup (od_keys r)
  ∧ (length r ≤ MAX_ALERTS)%nat
  ∧ (∀ t l, (t, l) ∈ r → l = feed_entries now fetch codes t ∧ l ≠ [])
  ∧ ((length r < MAX_ALERTS)%nat →
     ∀ t, feed_entries now fetch codes t ≠ [] → t ∈ od_keys r).
Proof.
  intros Hfetch. unfold get_alerts, mbind, SE_bind, lift.
  destruct (fetch_loop fetch now later codes ([], ∅) w) as [[a | e] w1] eqn:Eloop; [| done].
  destruct (fetch_loop_entries fetch now later codes ([], ∅) w w1 a Hfetch
              coherent_empty Eloop) as (-> & Hnd & Hpop & Hent).
  destruct (sort_alerts a) as [r' |] eqn:Esort; [| done]. intros [= <- <-].
  destruct (sort_alerts_take a r' Esort) as (s & Hperm & Hr).
  split; [done |]. split; [by eapply sort_alerts_distinct |].
  split; [subst r'; rewrite length_take; lia |]. split.
  - intros t l Hin. apply (sort_alerts_kept a r' _ Esort) in Hin.
    pose proof (od_get_NoDup a t l Hnd Hin) as Hget.
    specialize (Hent t). unfold entries_under in Hent. rewrite Hget in Hent. cbn in Hent.
    split; [done |]. unfold populated in Hpop. rewrite Forall_forall in Hpop.
    exact (Hpop _ Hin).
  - intros Hlen t Hne.
    assert (r' = s) as ->.
    { subst r'. apply take_ge. rewrite length_take in Hlen. lia. }
    unfold od_keys. rewrite Hperm. apply od_get_is_Some.
    specialize (Hent t). unfold entries_under in Hent. cbn in Hent.
    destruct (od_get a t); [by eauto |]. cbn in Hent. by rewrite <- Hent in Hne.
Qed.

(** X5: when every zone answers, the collection [get_alerts] returns
    holds under each of its titles exactly the entries of the features
    of that title that are in their time window and not globally
    blocked, zone after zone in the order of the county codes and in
    the order of the feed within a zone, with no merging of equal
    zones; a title with such a feature is left out only by the
    truncation to [MAX_ALERTS].  The state file and the rest of the
    world are not touched. *)
Theorem get_alerts_collects (fetch : string → option (list feature)) now (later : Z)
    (codes : list string) (w w' : world) r :
  (∀ code, code ∈ codes → is_Some (fetch code)) →
  get_alerts fetch now later codes w = (Ok r, w') →
  w' = w
  ∧ (∀ t l, (t, l) ∈ r → l = feed_entries now fetch codes t)
  ∧ ((length r < MAX_ALERTS)%nat →
     ∀ t, feed_entries now fetch codes t ≠ [] → t ∈ od_keys r).
Proof.
  intros Hfetch Hget.
  destruct (get_alerts_reachable fetch now later codes w w' r Hfetch Hget)
    as (Hw & _ & _ & Hent & Hall).
  split; [done |]. split; [| done]. intros t l Hin. by apply Hent.
Qed.

(** X6: when every zone answers, the collection [get_alerts] returns
    has distinct titles and at most [MAX_ALERTS] of them, every title
    has an entry and matches no pattern of [GlobalBlockedEvents], and
    every entry names one of the requested zones, has a severity from 0
    to 4, and comes from a feature whose window holds the current
    time. *)
Theorem get_alerts_never (fetch : string → option (list feature)) now (later : Z)
    (codes : list string) (w w' : world) r :
  (∀ code, code ∈ codes → is_Some (fetch code)) →
  get_alerts fetch now later codes w = (Ok r, w') →
  NoDup (od_keys r)
  ∧ (length r ≤ MAX_ALERTS)%nat
  ∧ ∀ t l, (t, l) ∈ r →
      l ≠ []
      ∧ existsb (fnmatch t) GLOBAL_BLOCKED_EVENTS = false
      ∧ ∀ c, c ∈ l →
          county_code c ∈ codes
          ∧ 0 ≤ severity c ≤ 4
          ∧ ∃ fs f, fetch (county_code c) = Some fs ∧ f ∈ fs ∧ event f = t
                    ∧ in_window now f = true.
Proof.
  intros Hfetch Hget.
  destruct (get_alerts_reachable fetch now later codes w w' r Hfetch Hget)
    as (_ & Hnd & Hlen & Hent & _).
  split; [done |]. split; [done |]. intros t l Hin.
  destruct (Hent t l Hin) as [Hl Hne]. split; [done |].
  assert (∀ c, c ∈ l →
            ∃ code fs f, code ∈ codes ∧ fetch code = Some fs ∧ f ∈ fs
                         ∧ c ∈ feature_entry now code f t) as Hsrc.
  { intros c Hc. rewrite Hl in Hc. by apply feed_entries_elem. }
  split.
  - destruct l as [| c l]; [done |].
    destruct (Hsrc c) as (code & fs & f & _ & _ & _ & Hc); [left |].
    apply feature_entry_elem in Hc as (<- & _ & Hb & _). exact Hb.
  - intros c Hc. destruct (Hsrc c Hc) as (code & fs & f & Hcode & Hfs & Hf & Hentry).
    apply feature_entry_elem in Hentry as (Ht & Hwin & _ & Hcc & _ & Hsev & _).
    rewrite Hcc. split; [done |]. split; [done |]. by exists fs, f.
Qed.

End Collected.

(** ** A failed request *)

Section FailedRequest.
Context {cfg : Config} {os : Host}.
Implicit Types (a : alerts) (t code : string) (now later : Z) (w : world)
  (fetch : string → option (list feature)).

(** The entries of a stored alert that have not expired. *)
Definition unexpired (current_time_str : string) (l : list county) : list county :=
  filter (λ alert, parser_parse current_time_str ≤ parser_parse (end_time_utc alert)) l.

Lemma stored_fallback_update (s : string) (stored : list (string * list county)) :
  stored_fallback s stored
  = od_of_pairs ((λ p, (p.1, unexpired s p.2)) <$> stored).
Proof.
  unfold stored_fallback, od_of_pairs. generalize (@nil (string * list county)).
  induction stored as [| [t l] stored IH]; intros acc; [done |].
  cbn [foldl fmap list_fmap]. apply IH.
Qed.

Lemma stored_fallback_get (s : string) (stored : list (string * list county)) t :
  od_get (stored_fallback s stored) t
  = (λ p, unexpired s p.2) <$> last (filter (λ p, p.1 = t) stored).
Proof.
  rewrite stored_fallback_update. unfold od_of_pairs.
  fold (od_update [] ((λ p : string * list county, (p.1, unexpired s p.2)) <$> stored)).
  rewrite od_get_update. cbn [od_get].
  assert (filter (λ p, p.1 = t)
            ((λ p : string * list county, (p.1, unexpired s p.2)) <$> stored)
          = (λ p : string * list county, (p.1, unexpired s p.2))
              <$> filter (λ p, p.1 = t) stored) as ->.
  { induction stored as [| [t0 l0] stored IH]; [done |].
    rewrite fmap_cons, !filter_cons, IH. cbn [fst].
    by destruct (decide (t0 = t)). }
  rewrite fmap_last. by destruct (last _).
Qed.

(** The loop stops at the zone whose request fails: the zones after it
    and what the feed would answer for them play no part. *)
Lemma fetch_loop_stops fetch (fetch' : string → option (list feature)) now later
    (codes1 codes2 codes2' : list string) code (acc : alerts * gset string) w :
  fetch code = None → fetch' code = None →
  (∀ c, c ∈ codes1 → fetch' c = fetch c) →
  fetch_loop fetch now later (codes1 ++ code :: codes2) acc w
  = fetch_loop fetch' now later (codes1 ++ code :: codes2') acc w.
Proof.
  intros Hf Hf'. revert acc.
  induction codes1 as [| c codes1 IH]; intros acc Hsame; cbn.
  - by rewrite Hf, Hf'.
  - rewrite (Hsame c) by left. destruct (fetch c) as [fs |]; [| done].
    destruct (for_each fs (process_feature now c) acc) as [[[] | e] acc1]; [| done].
    apply IH. intros c' Hc'. apply Hsame. by right.
Qed.

(** With a state file, the alerts gathered before the failure are
    replaced by the stored ones. *)
Lemma fetch_loop_fallback fetch now later (codes1 codes2 : list string) code
    (acc : alerts * gset string) w (j : json_state) a w' :
  fetch code = None → data_file w = Stored j →
  (∀ c, c ∈ codes1 → is_Some (fetch c)) →
  fetch_loop fetch now later (codes1 ++ code :: codes2) acc w = (Ok a, w') →
  w' = w ∧ a = stored_fallback (strftime later) (default [] (j_last_alerts j)).
Proof.
  intros Hf Hj. revert acc.
  induction codes1 as [| c codes1 IH]; intros acc Hok; cbn.
  - rewrite Hf, Hj. by intros [= <- <-].
  - destruct (Hok c) as [fs Hfs]; [left |]. rewrite Hfs.
    destruct (for_each fs (process_feature now c) acc) as [[[] | e] acc1]; [| done].
    apply IH. intros c' Hc'. apply Hok. by right.
Qed.

(** Without a state file, the alerts gathered before the failure are
    the result. *)
Lemma fetch_loop_no_file fetch now later (codes1 codes2 : list string) code
    (acc : alerts * gset string) w :
  fetch code = None → data_file w = Absent →
  (∀ c, c ∈ codes1 → is_Some (fetch c)) →
  fetch_loop fetch now later (codes1 ++ code :: codes2) acc w
  = fetch_loop fetch now later codes1 acc w.
Proof.
  intros Hf Hw. revert acc.
  induction codes1 as [| c codes1 IH]; intros acc Hok; cbn.
  - by rewrite Hf, Hw.
  - destruct (Hok c) as [fs Hfs]; [left |]. rewrite Hfs.
    destruct (for_each fs (process_feature now c) acc) as [[[] | e] acc1]; [| done].
    apply IH. intros c' Hc'. apply Hok. by right.
Qed.

(** X7: [get_alerts] stops at the first zone whose request fails.  Its
    result is the same whatever zones follow the failed one and
    whatever the feed would answer for them. *)
Theorem get_alerts_stops_at_failure fetch (fetch' : string → option (list feature))
    now later (codes1 codes2 codes2' : list string) code w :
  fetch code = None → fetch' code = None →
  (∀ c, c ∈ codes1 → fetch' c = fetch c) →
  get_alerts fetch now later (codes1 ++ code :: codes2) w
  = get_alerts fetch' now later (codes1 ++ code :: codes2') w.
Proof.
  intros Hf Hf' Hsame. unfold get_alerts, mbind, SE_bind.
  by rewrite (fetch_loop_stops fetch fetch' now later codes1 codes2 codes2' code).
Qed.

(** X8: when a request fails and the state file holds a state, what
    [get_alerts] returns comes from the stored alerts alone, the alerts
    gathered from the zones before the failure being dropped: each
    returned title is a stored title, with the entries of its last
    stored list whose end time is not before the current time, and
    there is at least one. *)
Theorem get_alerts_fallback fetch now later (codes1 codes2 : list string) code
    w w' (j : json_state) r :
  fetch code = None → data_file w = Stored j →
  (∀ c, c ∈ codes1 → is_Some (fetch c)) →
  get_alerts fetch now later (codes1 ++ code :: codes2) w = (Ok r, w') →
  w' = w
  ∧ NoDup (od_keys r)
  ∧ ∀ t l, (t, l) ∈ r →
      l ≠ []
      ∧ (∀ c, c ∈ l →
           parser_parse (strftime later) ≤ parser_parse (end_time_utc c))
      ∧ ∃ stored_l,
          last (filter (λ p, p.1 = t) (default [] (j_last_alerts j))) = Some (t, stored_l)
          ∧ l = unexpired (strftime later) stored_l.
Proof.
  intros Hf Hj Hok. unfold get_alerts, mbind, SE_bind, lift.
  destruct (fetch_loop _ _ _ _ _ w) as [[a | e] w1] eqn:Eloop; [| done].
  destruct (fetch_loop_fallback fetch now later codes1 codes2 code _ w j a w1
              Hf Hj Hok Eloop) as [-> Ha].
  destruct (sort_alerts a) as [r' |] eqn:Esort; [| done]. intros [= <- <-].
  assert (NoDup (od_keys a)) as Hnd
    by (rewrite Ha, stored_fallback_update; apply od_of_pairs_NoDup).
  split; [done |]. split; [by eapply sort_alerts_distinct |].
  intros t l Hin.
  pose proof (sort_alerts_populated a r' Esort) as Hpop.
  unfold populated in Hpop. rewrite Forall_forall in Hpop.
  split; [exact (Hpop _ Hin) |].
  apply (sort_alerts_kept a r' _ Esort) in Hin.
  pose proof (od_get_NoDup a t l Hnd Hin) as Hget.
  rewrite Ha, stored_fallback_get in Hget.
  destruct (last (filter _ _)) as [[t0 l0] |] eqn:Elast; [| done].
  cbn in Hget. injection Hget as <-.
  assert (t0 = t) as ->.
  { apply last_Some_elem_of in Elast. apply list_elem_of_filter in Elast as [Ht _]. done. }
  split; [| by exists l0].
  intros c Hc. unfold unexpired in Hc. by apply list_elem_of_filter in Hc as [Hc _].
Qed.

(** X9: when a request fails and there is no state file, [get_alerts]
    returns what it would return for the zones before the failed one
    alone; when the first request fails, that is the empty
    collection. *)
Theorem get_alerts_no_file fetch now later (codes1 codes2 : list string) code w :
  fetch code = None → data_file w = Absent →
  (∀ c, c ∈ codes1 → is_Some (fetch c)) →
  get_alerts fetch now later (codes1 ++ code :: codes2) w
  = get_alerts fetch now later codes1 w
  ∧ (codes1 = [] →
     get_alerts fetch now later (codes1 ++ code :: codes2) w = (Ok [], w)).
Proof.
  intros Hf Hw Hok. unfold get_alerts, mbind, SE_bind.
  rewrite (fetch_loop_no_file fetch now later codes1 codes2 code _ w Hf Hw Hok).
  split; [done |]. intros ->. cbn. unfold lift, sort_alerts. cbn.
  by rewrite take_nil.
Qed.

End FailedRequest.

(** A feed for two zones at 11:30 on 1 May 2023: a Tornado Warning in
    both, a Flood Watch that has ended in the first, a Flood Advisory
    without severity field in the second. *)
Definition half_past_eleven : Z := 20230501113000000000.

Definition tornado_feature : feature :=
  {| event := "Tornado Warning";
     onset := Some "2023-05-01T11:00:00.000000Z";
     ends := Some "2023-05-01T12:00:00.000000Z";
     effective := Some "2023-05-01T10:55:00.000000Z";
     expires := Some "2023-05-01T12:00:00.000000Z";
     f_description := Some "Tornado";
     f_severity := Some "Extreme" |}.

Definition ended_feature : feature :=
  {| event := "Flood Watch";
     onset := Some "2023-05-01T06:00:00.000000Z";
     ends := Some "2023-05-01T10:00:00.000000Z";
     effective := Some "2023-05-01T06:00:00.000000Z";
     expires := Some "2023-05-01T10:00:00.000000Z";
     f_description := Some "Flooding";
     f_severity := Some "Severe" |}.

Definition advisory_feature : feature :=
  {| event := "Flood Advisory";
     onset := Some "2023-05-01T09:00:00.000000Z";
     ends := None;
     effective := Some "2023-05-01T09:00:00.000000Z";
     expires := Some "2023-05-01T18:00:00.000000Z";
     f_description := None;
     f_severity := None |}.

Definition two_zone_feed (code : string) : option (list feature) :=
  if decide (code = "ARC125") then Some [tornado_feature; ended_feature]
  else Some [advisory_feature; tornado_feature].

Lemma two_zone_feed_answers (code : string) :
  code ∈ ["ARC125"; "ARC119"] → is_Some (two_zone_feed code).
Proof. intros _. unfold two_zone_feed. case_decide; by eexists. Qed.

Definition two_zone_result : alerts :=
  [("Tornado Warning",
    [County "ARC125" 4 "Tornado" "2023-05-01T12:00:00.000000Z";
     County "ARC119" 4 "Tornado" "2023-05-01T12:00:00.000000Z"]);
   ("Flood Advisory",
    [County "ARC119" 2 "" "2023-05-01T18:00:00.000000Z"])].

Lemma two_zone_get_alerts :
  let cfg := test_config [] [] 99 in
  let os := test_host in
  get_alerts two_zone_feed half_past_eleven half_past_eleven ["ARC125"; "ARC119"]
             (empty_world Absent)
  = (Ok two_zone_result, empty_world Absent).
Proof. intros cfg os. vm_compute. reflexivity. Qed.

Lemma get_alerts_collects_witness :
  let cfg := test_config [] [] 99 in
  let os := test_host in
  [County "ARC125" 4 "Tornado" "2023-05-01T12:00:00.000000Z";
   County "ARC119" 4 "Tornado" "2023-05-01T12:00:00.000000Z"]
  = feed_entries half_past_eleven two_zone_feed ["ARC125"; "ARC119"] "Tornado Warning".
Proof.
  intros cfg os.
  apply (proj1 (proj2 (@get_alerts_collects cfg os two_zone_feed half_past_eleven
                         half_past_eleven ["ARC125"; "ARC119"] (empty_world Absent)
                         (empty_world Absent) two_zone_result
                         two_zone_feed_answers two_zone_get_alerts))).
  left.
Defined.

Lemma get_alerts_never_witness :
  let cfg := test_config [] [] 99 in
  let os := test_host in
  NoDup (od_keys two_zone_result) ∧ (length two_zone_result ≤ 99)%nat.
Proof.
  intros cfg os.
  destruct (@get_alerts_never cfg os two_zone_feed half_past_eleven
              half_past_eleven ["ARC125"; "ARC119"] (empty_world Absent)
              (empty_world Absent) two_zone_result
              two_zone_feed_answers two_zone_get_alerts) as (H1 & H2 & _).
  split; [exact H1 | exact H2].
Defined.

(** The first zone answers, the request for the second fails. *)
Definition failing_feed (code : string) : option (list feature) :=
  if decide (code = "ARC125") then Some [tornado_feature; ended_feature]
  else None.

Lemma get_alerts_stops_at_failure_witness :
  let cfg := test_config [] [] 99 in
  let os := test_host in
  get_alerts failing_feed half_past_eleven half_past_eleven
             (["ARC125"] ++ "ARC119" :: ["ARC001"; "ARC003"]) (empty_world Absent)
  = get_alerts failing_feed half_past_eleven half_past_eleven
               (["ARC125"] ++ "ARC119" :: []) (empty_world Absent).
Proof.
  intros cfg os.
  apply (@get_alerts_stops_at_failure cfg os failing_feed failing_feed).
  - reflexivity.
  - reflexivity.
  - intros c _. reflexivity.
Defined.

Lemma get_alerts_fallback_witness :
  let cfg := test_config [] [] 99 in
  let os := test_host in
  ∃ stored_l,
    last (filter (λ p, p.1 = "Tornado Warning")
            [("Tornado Warning",
              [County "ARC125" 4 "Tornado" "2023-05-01T12:00:00.000000Z"])])
    = Some ("Tornado Warning", stored_l)
    ∧ [County "ARC125" 4 "Tornado" "2023-05-01T12:00:00.000000Z"]
      = unexpired (strftime half_past_eleven) stored_l.
Proof.
  intros cfg os.
  destruct (@get_alerts_fallback cfg os failing_feed half_past_eleven
              half_past_eleven ["ARC125"] [] "ARC119"
              (empty_world stored_warning) (empty_world stored_warning)
              _ tornado_warning eq_refl eq_refl) as (_ & _ & H).
  - intros c Hc. apply list_elem_of_singleton in Hc as ->. by eexists.
  - vm_compute. reflexivity.
  - refine (proj2 (proj2 (H "Tornado Warning" _ _))). left.
Defined.

Lemma get_alerts_no_file_witness :
  let cfg := test_config [] [] 99 in
  let os := test_host in
  get_alerts failing_feed half_past_eleven half_past_eleven
             (["ARC125"] ++ "ARC119" :: []) (empty_world Absent)
  = get_alerts failing_feed half_past_eleven half_past_eleven ["ARC125"]
               (empty_world Absent).
Proof.
  intros cfg os.
  refine (proj1 (@get_alerts_no_file cfg os failing_feed half_past_eleven
                   half_past_eleven ["ARC125"] [] "ARC119" (empty_world Absent)
                   eq_refl eq_refl _)).
  intros c Hc. apply list_elem_of_singleton in Hc as ->. by eexists.
Defined.

(** ** Sorting: errors, idempotence, size *)

Section SortMore.
Context {cfg : Config}.
Implicit Types (a r : alerts) (item : string * list county).

Lemma sort_key_Raise item e :
  sort_key item = Raise e →
  (item.2 = [] ∧ e = ValueError)
  ∨ (item.2 ≠ [] ∧ split item.1 = [] ∧ e = IndexError).
Proof.
  destruct item as [title counties]. unfold sort_key, last_word.
  simpl fst. simpl snd.
  destruct (last (split title)) as [w |] eqn:Ew;
    destruct counties as [| c counties]; cbn; try done.
  - intros [= <-]. by left.
  - intros [= <-]. by left.
  - intros [= <-]. right. apply last_None in Ew. done.
Qed.

Lemma decorate_Raise a e :
  decorate a = Raise e → ∃ item, item ∈ a ∧ sort_key item = Raise e.
Proof.
  induction a as [| item a IH]; cbn; [done |].
  destruct (sort_key item) as [k |] eqn:Ek; cbn.
  - destruct (decorate a) as [d |]; cbn; [done |].
    intros [= <-]. destruct (IH eq_refl) as (x & Hx & Hkey).
    exists x. split; [by right | done].
  - intros [= <-]. exists item. split; [left | done].
Qed.

Lemma sort_key_well_formed item k : sort_key item = Ok k → well_formed item.
Proof.
  destruct item as [title counties]. unfold sort_key, last_word, well_formed.
  simpl fst. simpl snd.
  destruct (last (split title)) as [w |] eqn:Ew;
    destruct counties as [| c counties]; cbn; try done.
  intros _. split; [done |]. intros Hs. by rewrite Hs in Ew.
Qed.

(** X10: [sort_alerts] fails exactly on a collection that breaks the
    invariant of the data model: it returns a collection when every
    alert has an entry and every title a word; otherwise it raises
    [ValueError] for an alert without entry, or [IndexError] for a
    title without a word. *)
Theorem sort_alerts_errors a :
  match sort_alerts a with
  | Ok _ => Forall well_formed a
  | Raise e =>
      ∃ item, item ∈ a
        ∧ ((item.2 = [] ∧ e = ValueError)
           ∨ (item.2 ≠ [] ∧ split item.1 = [] ∧ e = IndexError))
  end.
Proof.
  unfold sort_alerts. destruct (decorate a) as [d | e] eqn:Hd; cbn.
  - destruct (decorate_Ok a d Hd) as [<- Hkeyed].
    apply Forall_fmap. eapply Forall_impl; [exact Hkeyed |].
    intros [k item] Hk. by eapply sort_key_well_formed.
  - destruct (decorate_Raise a e Hd) as (item & Hin & Hkey).
    exists item. split; [done |]. by apply sort_key_Raise.
Qed.

Lemma decorate_keyed (d : list ((Z * Z) * (string * list county))) :
  Forall keyed d → decorate d.*2 = Ok d.
Proof.
  induction 1 as [| [k item] d Hk _ IH]; [done |].
  rewrite fmap_cons. cbn [decorate snd]. unfold keyed in Hk. cbn in Hk.
  rewrite Hk. cbn. rewrite IH. done.
Qed.

Lemma insert_desc_head {A} (x : (Z * Z) * A) (l : list ((Z * Z) * A)) :
  Forall (desc x) l → insert_desc x l = x :: l.
Proof.
  destruct 1 as [| y l Hxy _]; [done |]. cbn.
  unfold desc in Hxy. apply key_ltb_false in Hxy. by rewrite Hxy.
Qed.

Lemma sorted_desc_id {A} (l : list ((Z * Z) * A)) :
  StronglySorted desc l → sorted_desc l = l.
Proof.
  induction 1 as [| x l Hs IH Hall]; [done |].
  change (sorted_desc (x :: l)) with (insert_desc x (sorted_desc l)).
  rewrite IH. by apply insert_desc_head.
Qed.

(** X11: sorting is idempotent: a collection that [sort_alerts]
    returned is returned unchanged when it is sorted again. *)
Theorem sort_alerts_idempotent a r :
  sort_alerts a = Ok r → sort_alerts r = Ok r.
Proof.
  unfold sort_alerts at 1. destruct (decorate a) as [d |] eqn:Hd; cbn; [| done].
  intros [= <-]. destruct (decorate_Ok a d Hd) as [_ Hkeyed].
  assert (Forall keyed (take MAX_ALERTS (sorted_desc d))) as Hk
    by (apply Forall_take; by rewrite sorted_desc_perm).
  assert (StronglySorted desc (take MAX_ALERTS (sorted_desc d))) as Hs.
  { pose proof (sorted_desc_sorted d) as H.
    rewrite <- (take_drop MAX_ALERTS (sorted_desc d)) in H.
    by apply StronglySorted_app_1_l in H. }
  unfold sort_alerts. rewrite <- fmap_take, (decorate_keyed _ Hk). cbn.
  rewrite (sorted_desc_id _ Hs), fmap_take, take_take. f_equal. f_equal. lia.
Qed.

(** X12: [sort_alerts] neither invents nor repeats an alert: its result
    is a selection of the items of the collection, of length the
    smaller of [MAX_ALERTS] and the size of the collection, so it is a
    rearrangement of the whole collection when the limit is not
    exceeded. *)
Theorem sort_alerts_size a r :
  sort_alerts a = Ok r →
  r ⊆+ a
  ∧ length r = Nat.min MAX_ALERTS (length a)
  ∧ ((length a ≤ MAX_ALERTS)%nat → r ≡ₚ a).
Proof.
  intros (s & Hperm & ->)%sort_alerts_take.
  split; [| split].
  - rewrite <- Hperm. apply sublist_submseteq, sublist_take.
  - by rewrite length_take, Hperm.
  - intros Hlen. rewrite take_ge; [done |]. by rewrite Hperm.
Qed.

End SortMore.

Lemma sort_alerts_idempotent_witness :
  let cfg := test_config [] [] 2 in
  sort_alerts (take 2 [three_alerts !!! 1%nat; three_alerts !!! 0%nat])
  = Ok (take 2 [three_alerts !!! 1%nat; three_alerts !!! 0%nat]).
Proof.
  intros cfg.
  apply (@sort_alerts_idempotent cfg three_alerts). vm_compute. reflexivity.
Defined.

Lemma sort_alerts_size_witness :
  let cfg := test_config [] [] 2 in
  length [three_alerts !!! 1%nat; three_alerts !!! 0%nat] = Nat.min 2 (length three_alerts).
Proof.
  intros cfg.
  refine (proj1 (proj2 (@sort_alerts_size cfg three_alerts _ _))).
  vm_compute. reflexivity.
Defined.

(** ** A cycle without change *)

Section Unchanged.
Context {cfg : Config} {os : Host}.
Implicit Types (a last : alerts) (t : string) (w : world).

(** The two collections have the same titles, and under each title the
    same set of county codes. *)
Definition same_zones a last : Prop :=
  (∀ t, od_get a t = None ↔ od_get last t = None)
  ∧ ∀ t l l', od_get a t = Some l → od_get last t = Some l' →
              county_codes l = county_codes l'.

Lemma od_get_all_None {V} (d : odict V) : (∀ t, od_get d t = None) → d = [].
Proof.
  destruct d as [| [k v] d]; [done |]. intros H. specialize (H k). cbn in H.
  by rewrite decide_True in H.
Qed.

Lemma filter_nil_iff {A} (P : A → Prop) `{∀ x, Decision (P x)} (l : list A) :
  (∀ x, x ∈ l → ¬ P x) → filter P l = [].
Proof.
  intros Hall. induction l as [| x l IH]; [done |].
  rewrite filter_cons, decide_False by (apply Hall; left).
  apply IH. intros y Hy. apply Hall. by right.
Qed.

Lemma same_zones_no_difference a last :
  NoDup (od_keys a) → same_zones a last →
  added_alerts a last = [] ∧ removed_alerts a last = []
  ∧ detect_county_changes last a = ([], []).
Proof.
  intros Hnd [Htitles Hzones]. split; [| split].
  - apply filter_nil_iff. intros t Ht Hnone. apply Htitles in Hnone.
    apply od_get_None in Hnone. done.
  - apply filter_nil_iff. intros t Ht Hnone. apply Htitles in Hnone.
    apply od_get_None in Hnone. done.
  - pose proof (detect_fold last a a Hnd (λ t i H, od_get_NoDup a t i Hnd H)) as Hfold.
    cbn zeta in Hfold. fold (detect_county_changes last a) in Hfold.
    assert (∀ t, od_get a t ≫= change_of last t = None) as Hnone.
    { intros t. destruct (od_get a t) as [l |] eqn:Ea; [| done]. cbn.
      unfold change_of. destruct (od_get last t) as [l' |] eqn:El; [| done]. cbn.
      rewrite decide_True; [done |]. symmetry. by eapply Hzones. }
    destruct (detect_county_changes last a) as [changed details]. cbn in Hfold.
    f_equal; apply od_get_all_None; intros t; destruct (Hfold t) as [H2 H1].
    + rewrite H1. specialize (Hnone t). destruct (od_get a t) as [l |]; [| done].
      cbn in *. by destruct (change_of last t l).
    + by rewrite H2.
Qed.

Lemma bind_ok {S A B} (m : SE S A) (f : A → SE S B) (s : S) (x : A) (s' : S) :
  m s = (Ok x, s') → (m ≫= f) s = f x s'.
Proof. intros H. unfold mbind, SE_bind. by rewrite H. Qed.

Lemma get_alerts_reads (fetch : string → option (list feature)) (now later : Z)
    (codes : list string) w :
  (get_alerts fetch now later codes w).2 = w.
Proof.
  unfold get_alerts, mbind, SE_bind, lift.
  assert (∀ acc, (fetch_loop fetch now later codes acc w).2 = w) as Hloop.
  { induction codes as [| code codes IH]; intros acc; cbn; [done |].
    destruct (fetch code) as [fs |].
    - destruct (for_each fs (process_feature now code) acc) as [[[] | e] acc1]; [apply IH | done].
    - by destruct (data_file w). }
  specialize (Hloop ([], ∅)).
  destruct (fetch_loop fetch now later codes ([], ∅) w) as [[a | e] w1]; cbn in *; by subst.
Qed.

(** X13: a cycle in which nothing changed does nothing.  When the state
    file exists and the collection [get_alerts] returns has the titles
    of the stored alerts, each with the same set of county codes,
    [main] ends without saving the state, copying a file, writing
    audio, running a command or posting a notification, even if
    severities, descriptions or end times differ from the stored
    ones. *)
Theorem main_unchanged (fetch : string → option (list feature)) (now later : Z)
    w (j : json_state) a :
  data_file w = Stored j →
  (get_alerts fetch now later COUNTY_CODES w).1 = Ok a →
  same_zones a (od_of_pairs (default [] (j_last_alerts j))) →
  main fetch now later w = (Ok (), w).
Proof.
  intros Hj Hget Hsame.
  assert (NoDup (od_keys a)) as Hnd.
  { destruct (get_alerts fetch now later COUNTY_CODES w) as [r w1] eqn:E.
    cbn in Hget. subst r. unfold get_alerts, mbind, SE_bind, lift in E.
    destruct (fetch_loop _ _ _ _ _ w) as [[a0 | e] w0] eqn:Eloop; [| done].
    destruct (sort_alerts a0) as [r |] eqn:Esort; [| done]. injection E as <- <-.
    eapply sort_alerts_distinct; [exact Esort |].
    clear Hsame Esort. revert Eloop. generalize coherent_empty.
    generalize (([], ∅) : alerts * gset string).
    induction COUNTY_CODES as [| code codes IH]; intros acc Hacc; cbn.
    - intros [= <- <-]. by destruct Hacc as (_ & ? & _).
    - destruct (fetch code) as [fs |].
      + destruct (for_each fs (process_feature now code) acc) as [[[] | e] acc1] eqn:Ez;
          [| done].
        apply IH. by destruct (zone_loop_entries now code fs acc acc1 Hacc Ez).
      + rewrite Hj. intros [= <- <-]. rewrite stored_fallback_update.
        apply od_of_pairs_NoDup. }
  destruct (same_zones_no_difference a _ Hnd Hsame) as (Hadd & Hrem & Hdet).
  assert (get_alerts fetch now later COUNTY_CODES w = (Ok a, w)) as Hget'.
  { pose proof (get_alerts_reads fetch now later COUNTY_CODES w) as Hw.
    destruct (get_alerts fetch now later COUNTY_CODES w) as [r w1].
    cbn [fst snd] in Hget, Hw. by subst. }
  unfold main.
  rewrite (bind_ok is_first_run _ w false w) by (unfold is_first_run; by rewrite Hj).
  erewrite bind_ok by reflexivity.
  erewrite (bind_ok load_state) by (unfold load_state; rewrite Hj; reflexivity).
  erewrite bind_ok by exact Hget'.
  cbn [last_alerts]. rewrite Hadd, Hrem, Hdet.
  destruct (bool_decide (a ≠ [])); reflexivity.
Qed.

End Unchanged.

(** The stored Tornado Warning is still in the feed, with another
    description and a later end. *)
Definition extended_feed (code : string) : option (list feature) :=
  if decide (code = "ARC125") then
    Some [{| event := "Tornado Warning";
             onset := Some "2023-05-01T11:00:00.000000Z";
             ends := Some "2023-05-01T13:00:00.000000Z";
             effective := None; expires := None;
             f_description := Some "Tornado, extended";
             f_severity := Some "Extreme" |}]
  else Some [].

Definition extended_result : alerts :=
  [("Tornado Warning",
    [County "ARC125" 4 "Tornado, extended" "2023-05-01T13:00:00.000000Z"])].

Lemma extended_get_alerts :
  let cfg := test_config [] [] 99 in
  let os := test_host in
  (get_alerts extended_feed half_past_eleven half_past_eleven COUNTY_CODES
              (empty_world stored_warning)).1
  = Ok extended_result.
Proof. intros cfg os. vm_compute. reflexivity. Qed.

Lemma main_unchanged_witness :
  let cfg := test_config [] [] 99 in
  let os := test_host in
  main extended_feed half_past_eleven half_past_eleven (empty_world stored_warning)
  = (Ok (), empty_world stored_warning).
Proof.
  intros cfg os.
  apply (@main_unchanged cfg os extended_feed half_past_eleven half_past_eleven
           (empty_world stored_warning) _ extended_result eq_refl extended_get_alerts).
  split.
  - intros t. cbn. repeat case_decide; done.
  - intros t l l'. cbn. repeat case_decide; try done.
    intros [= <-] [= <-]. reflexivity.
Defined.

(** ** AlertScript: commands and bookkeeping *)

Section Scripts.
Context {cfg : Config} {os : Host}.
Implicit Types (m : mapping) (w : world) (p : gset string) (a : alerts).

(** The world after the commands [cs] were run. *)
Definition add_ran w (cs : list command) : world :=
  World (data_file w) (copied w) (ran w ++ cs) (tailmessage_file w) (alert_file w)
        (allclear_file w) (warnings_txt w) (pushed w).

(** The templates of a [BASH] mapping formatted with a title, up to the
    first one that does not format, and the exception it raises. *)
Fixpoint bash_commands (cmds : list string) (alert : string)
    : list command * option exn :=
  match cmds with
  | [] => ([], None)
  | cmd :: rest =>
      match str_format cmd alert with
      | Ok c => let r := bash_commands rest alert in (Bash c :: r.1, r.2)
      | Raise e => ([], Some e)
      end
  end.

(** The commands of a mapping run for one matched title, and the
    exception that ends them, if any. *)
Definition commands_of m (alert : string) : list command * option exn :=
  if decide (Type_ m = Some "BASH") then bash_commands (Commands m) alert
  else if decide (Type_ m = Some "DTMF") then
    (flat_map (λ node, (λ cmd, Dtmf node cmd) <$> Commands m) (Nodes m), None)
  else ([], None).

(** The same for the matched titles, in order. *)
Fixpoint matched_commands m (matched : list string) : list command * option exn :=
  match matched with
  | [] => ([], None)
  | alert :: rest =>
      match commands_of m alert with
      | (cs, Some e) => (cs, Some e)
      | (cs, None) =>
          let r := matched_commands m rest in (cs ++ r.1, r.2)
      end
  end.

Definition outcome {A} (x : A) (e : option exn) : result A :=
  match e with
  | None => Ok x
  | Some e => Raise e
  end.

(** Every template of the mapping formats with every one of the
    titles; only [BASH] mappings format their commands. *)
Definition formats m (titles : list string) : Prop :=
  Type_ m = Some "BASH" →
  ∀ cmd alert, cmd ∈ Commands m → alert ∈ titles → ∃ c, str_format cmd alert = Ok c.

Lemma add_ran_nil w : add_ran w [] = w.
Proof. unfold add_ran. rewrite app_nil_r. by destruct w. Qed.

Lemma add_ran_app w (cs cs' : list command) :
  add_ran (add_ran w cs) cs' = add_ran w (cs ++ cs').
Proof. unfold add_ran. cbn. by rewrite app_assoc. Qed.

Lemma for_each_run {A} (l : list A) (f : A → command) w :
  for_each l (λ x, run (f x)) w = (Ok (), add_ran w (f <$> l)).
Proof.
  revert w. induction l as [| x l IH]; intros w; cbn.
  - by rewrite add_ran_nil.
  - unfold mbind, SE_bind. cbn. rewrite IH. f_equal.
    unfold add_ran. cbn. by rewrite <- app_assoc.
Qed.

Lemma bash_run (cmds : list string) (alert : string) w :
  for_each cmds (λ cmd, cmd ← lift (str_format cmd alert); run (Bash cmd)) w
  = (outcome () (bash_commands cmds alert).2, add_ran w (bash_commands cmds alert).1).
Proof.
  revert w. induction cmds as [| cmd cmds IH]; intros w; cbn.
  - by rewrite add_ran_nil.
  - unfold mbind at 1, SE_bind at 1, mbind at 1, SE_bind at 1, lift at 1.
    destruct (str_format cmd alert) as [c | e]; cbn.
    + rewrite IH. f_equal. unfold add_ran. cbn. by rewrite <- app_assoc.
    + by rewrite add_ran_nil.
Qed.

Lemma run_commands_spec m (alert : string) w :
  run_commands m alert w
  = (outcome () (commands_of m alert).2, add_ran w (commands_of m alert).1).
Proof.
  unfold run_commands, commands_of.
  destruct (decide (Type_ m = Some "BASH")); [apply bash_run |].
  destruct (decide (Type_ m = Some "DTMF")); [| by rewrite add_ran_nil].
  cbn [fst snd outcome].
  generalize (Nodes m). intros nodes. revert w.
  induction nodes as [| node nodes IH]; intros w; cbn.
  - by rewrite add_ran_nil.
  - unfold mbind, SE_bind. rewrite for_each_run, IH, add_ran_app. done.
Qed.

Lemma run_matched_spec m (matched : list string) p w :
  run_matched m matched p w
  = (outcome (list_to_set matched ∪ p) (matched_commands m matched).2,
     add_ran w (matched_commands m matched).1).
Proof.
  revert p w. induction matched as [| alert rest IH]; intros p w.
  - assert ((list_to_set [] : gset string) ∪ p = p) as -> by set_solver.
    cbn. by rewrite add_ran_nil.
  - assert ((list_to_set (alert :: rest) : gset string) ∪ p
            = list_to_set rest ∪ ({[alert]} ∪ p)) as -> by set_solver.
    cbn [run_matched matched_commands]. unfold mbind, SE_bind.
    rewrite run_commands_spec.
    destruct (commands_of m alert) as [cs [e |]]; cbn [fst snd outcome]; [done |].
    by rewrite IH, add_ran_app.
Qed.

Lemma bash_commands_formats (cmds : list string) (alert : string) :
  (∀ cmd, cmd ∈ cmds → ∃ c, str_format cmd alert = Ok c) →
  (bash_commands cmds alert).2 = None
  ∧ length (bash_commands cmds alert).1 = length cmds.
Proof.
  induction cmds as [| cmd cmds IH]; intros Hall; [done |].
  cbn. destruct (Hall cmd) as [c ->]; [left |]. cbn.
  destruct IH as [-> ->]; [intros ? ?; apply Hall; by right |]. done.
Qed.

Lemma bash_commands_raise (cmds : list string) (alert : string) e :
  (bash_commands cmds alert).2 = Some e →
  ∃ cmd, cmd ∈ cmds ∧ str_format cmd alert = Raise e.
Proof.
  induction cmds as [| cmd cmds IH]; [done |]. cbn.
  destruct (str_format cmd alert) as [c | e'] eqn:E; cbn.
  - intros H. destruct (IH H) as (cmd' & Hin & Hraise). exists cmd'.
    split; [by right | done].
  - intros [= <-]. exists cmd. split; [left | done].
Qed.

Lemma commands_of_formats m (alert : string) :
  formats m [alert] →
  (commands_of m alert).2 = None
  ∧ length (commands_of m alert).1
    = if decide (Type_ m = Some "BASH") then length (Commands m)
      else if decide (Type_ m = Some "DTMF")
           then (length (Nodes m) * length (Commands m))%nat
           else 0%nat.
Proof.
  intros Hf. unfold commands_of. repeat case_decide; [| | done].
  - apply bash_commands_formats. intros cmd Hcmd. apply (Hf ltac:(done) cmd alert Hcmd).
    left.
  - split; [done |]. cbn [fst].
    generalize (Nodes m). intros nodes. induction nodes as [| node nodes IHn]; [done |].
    cbn [flat_map]. rewrite length_app, length_fmap, IHn. cbn [length]. lia.
Qed.

Lemma commands_of_raise m (alert : string) e :
  (commands_of m alert).2 = Some e →
  Type_ m = Some "BASH" ∧ ∃ cmd, cmd ∈ Commands m ∧ str_format cmd alert = Raise e.
Proof.
  unfold commands_of. repeat case_decide; [| done | done].
  intros Hraise. split; [done |]. by apply bash_commands_raise.
Qed.

Lemma formats_cons m (alert : string) (rest : list string) :
  formats m (alert :: rest) → formats m [alert] ∧ formats m rest.
Proof.
  intros Hf. split; intros Hb cmd t Hcmd Ht; apply (Hf Hb cmd t Hcmd).
  - apply list_elem_of_singleton in Ht as ->. left.
  - by right.
Qed.

Lemma formats_sub m (titles titles' : list string) :
  (∀ t, t ∈ titles' → t ∈ titles) → formats m titles → formats m titles'.
Proof. intros Hsub Hf Hb cmd t Hcmd Ht. apply (Hf Hb cmd t Hcmd). by apply Hsub. Qed.

Lemma matched_commands_formats m (matched : list string) :
  formats m matched →
  (matched_commands m matched).2 = None
  ∧ (matched_commands m matched).1 = flat_map (λ alert, (commands_of m alert).1) matched.
Proof.
  induction matched as [| alert rest IH]; intros Hf; [done |].
  apply formats_cons in Hf as [Hone Hrest].
  destruct (commands_of_formats m alert Hone) as [Hnone _].
  destruct (IH Hrest) as [IH2 IH1].
  cbn [matched_commands flat_map].
  destruct (commands_of m alert) as [cs o]. cbn in Hnone. subst o.
  cbn [fst snd]. by rewrite IH2, IH1.
Qed.

Lemma matched_commands_raise m (matched : list string) e :
  (matched_commands m matched).2 = Some e →
  Type_ m = Some "BASH"
  ∧ ∃ cmd alert, cmd ∈ Commands m ∧ alert ∈ matched ∧ str_format cmd alert = Raise e.
Proof.
  induction matched as [| alert rest IH]; [done |]. cbn [matched_commands].
  destruct (commands_of m alert) as [cs [e' |]] eqn:E; cbn [snd].
  - intros [= <-]. destruct (commands_of_raise m alert e') as (Hb & cmd & Hcmd & Hraise);
      [by rewrite E |].
    split; [done |]. exists cmd, alert. split; [done |]. split; [left | done].
  - intros H. destruct (IH H) as (Hb & cmd & t & Hcmd & Ht & Hraise).
    split; [done |]. exists cmd, t. split; [done |]. split; [by right | done].
Qed.

(** X14: the commands of a mapping that fires.  When every template of
    the mapping formats with every matched title, the commands are run
    for each entry of the matches in order: for [BASH] every template,
    formatted with the title, for [DTMF] every command on every node,
    node by node, and for any other type nothing, and the matched
    titles join the processed set.  An exception is raised only by a
    [BASH] mapping, and it is the exception of a template that does not
    format with a matched title. *)
Theorem run_matched_commands m (matched : list string) p w :
  (formats m matched →
   run_matched m matched p w
   = (Ok (list_to_set matched ∪ p),
      add_ran w (flat_map (λ alert, (commands_of m alert).1) matched))
   ∧ length (flat_map (λ alert, (commands_of m alert).1) matched)
     = (length matched
        * (if decide (Type_ m = Some "BASH") then length (Commands m)
           else if decide (Type_ m = Some "DTMF")
                then length (Nodes m) * length (Commands m)
                else 0))%nat)
  ∧ (∀ e w', run_matched m matched p w = (Raise e, w') →
       Type_ m = Some "BASH"
       ∧ ∃ cmd alert, cmd ∈ Commands m ∧ alert ∈ matched
                      ∧ str_format cmd alert = Raise e).
Proof.
  split.
  - intros Hf. split.
    + rewrite run_matched_spec.
      destruct (matched_commands_formats m matched Hf) as [-> ->]. done.
    + induction matched as [| alert rest IH]; [done |].
      apply formats_cons in Hf as [Hone Hrest].
      cbn [flat_map]. rewrite length_app, (IH Hrest).
      destruct (commands_of_formats m alert Hone) as [_ ->]. cbn [length]. lia.
  - intros e w'. rewrite run_matched_spec.
    destruct (matched_commands m matched).2 as [e' |] eqn:E; cbn; [| done].
    intros [= <- _]. by apply matched_commands_raise.
Qed.

Lemma matching_pairs_elem (new_alerts triggers : list string) (alert trigger : string) :
  (alert, trigger) ∈ matching_pairs new_alerts triggers
  ↔ alert ∈ new_alerts ∧ trigger ∈ triggers ∧ fnmatch alert trigger = true.
Proof.
  unfold matching_pairs. rewrite list_elem_of_filter. cbn [fst snd].
  rewrite list_elem_of_bind. split.
  - intros (Hm & x & Hx & Hin). rewrite list_elem_of_bind in Hx.
    destruct Hx as (y & Hy & Hyin). apply list_elem_of_singleton in Hy.
    injection Hy as -> ->. done.
  - intros (Ha & Ht & Hm). split; [done |]. exists alert. split; [| done].
    rewrite list_elem_of_bind. exists trigger. split; [| done].
    by apply list_elem_of_singleton.
Qed.

Lemma matching_titles_elem (new_alerts triggers : list string) (alert : string) :
  alert ∈ matching_titles new_alerts triggers
  ↔ alert ∈ new_alerts ∧ ∃ trigger, trigger ∈ triggers ∧ fnmatch alert trigger = true.
Proof.
  unfold matching_titles. rewrite list_elem_of_filter, existsb_exists.
  split.
  - intros [(tr & Htr & Hm) H]. split; [done |]. exists tr.
    split; [by apply list_elem_of_In | done].
  - intros [H (tr & Htr & Hm)]. split; [| done]. exists tr.
    split; [by apply list_elem_of_In | done].
Qed.

Lemma matching_none (new_alerts triggers : list string) :
  matching_pairs new_alerts triggers = [] ↔ matching_titles new_alerts triggers = [].
Proof.
  split; intros Hnil.
  - destruct (matching_titles new_alerts triggers) as [| alert l] eqn:E; [done |].
    assert (alert ∈ matching_titles new_alerts triggers) as Hin by (rewrite E; left).
    apply matching_titles_elem in Hin as (Ha & tr & Htr & Hm).
    assert ((alert, tr) ∈ matching_pairs new_alerts triggers) as Hp
      by (by apply matching_pairs_elem).
    rewrite Hnil in Hp. by apply elem_of_nil in Hp.
  - destruct (matching_pairs new_alerts triggers) as [| [alert tr] l] eqn:E; [done |].
    assert ((alert, tr) ∈ matching_pairs new_alerts triggers) as Hin by (rewrite E; left).
    apply matching_pairs_elem in Hin as (Ha & Htr & Hm).
    assert (alert ∈ matching_titles new_alerts triggers) as Hp
      by (apply matching_titles_elem; eauto).
    rewrite Hnil in Hp. by apply elem_of_nil in Hp.
Qed.

(** X15: the match modes other than ALL.  A mapping in mode ANY fires
    exactly when some newly appeared title matches some pattern of the
    mapping, and then runs its commands once for each pair of a new
    title and a pattern it matches; a mapping whose mode is neither ANY
    nor ALL (in any letter case) never fires. *)
Theorem any_and_other_modes m (new_alerts : list string) p :
  (upper (Match m) = "ANY" →
   process_mapping m new_alerts p =
     if decide (matching_titles new_alerts (Triggers m) = []) then mret p
     else run_matched m (matching_pairs new_alerts (Triggers m)).*1 p)
  ∧ (upper (Match m) ≠ "ANY" → upper (Match m) ≠ "ALL" →
     process_mapping m new_alerts p = mret p).
Proof.
  unfold process_mapping, fires. split.
  - intros ->. rewrite matched_alerts_pairs.
    rewrite (bool_decide_eq_true_2 ("ANY" = "ANY")) by done.
    rewrite (bool_decide_eq_false_2 ("ANY" = "ALL")) by discriminate.
    rewrite andb_true_l, andb_false_l, orb_false_r.
    destruct (decide (matching_titles new_alerts (Triggers m) = [])) as [Hnil | Hsome].
    + apply matching_none in Hnil. rewrite Hnil. done.
    + rewrite bool_decide_eq_true_2; [done |].
      intros Hnil. apply Hsome, matching_none. by apply fmap_nil_inv in Hnil.
  - intros Hany Hall.
    rewrite (bool_decide_eq_false_2 _ Hany), (bool_decide_eq_false_2 _ Hall). done.
Qed.

Lemma matched_alerts_new (new_alerts triggers : list string) (t : string) :
  t ∈ matched_alerts new_alerts triggers → t ∈ new_alerts.
Proof.
  rewrite matched_alerts_pairs, list_elem_of_fmap.
  intros ([alert tr] & -> & Hin). by apply matching_pairs_elem in Hin as [? _].
Qed.

Lemma process_mappings_spec (ms : list mapping) (new_alerts : list string) p w :
  ∃ r cs, process_mappings ms new_alerts p w = (r, add_ran w cs)
    ∧ (∀ p', r = Ok p' → p ⊆ p' ∧ p' ⊆ p ∪ list_to_set new_alerts)
    ∧ ((∀ m, m ∈ ms → formats m new_alerts) → ∃ p', r = Ok p').
Proof.
  revert p w. induction ms as [| m ms IH]; intros p w; cbn.
  - exists (Ok p), []. rewrite add_ran_nil. split; [done |]. split; [| by eexists].
    intros p' [= <-]. set_solver.
  - unfold mbind, SE_bind, process_mapping.
    destruct (fires _ _ _).
    + rewrite run_matched_spec.
      destruct (matched_commands m (matched_alerts new_alerts (Triggers m))) as [cs0 o]
        eqn:Ecs.
      destruct o as [e |]; cbn [fst snd outcome].
      * exists (Raise e), cs0. split; [done |]. split; [done |].
        intros Hf. exfalso.
        destruct (matched_commands_formats m (matched_alerts new_alerts (Triggers m)))
          as [Hnone _].
        { eapply formats_sub; [| apply Hf; left]. intros t. apply matched_alerts_new. }
        rewrite Ecs in Hnone. done.
      * destruct (IH (list_to_set (matched_alerts new_alerts (Triggers m)) ∪ p)
                     (add_ran w cs0)) as (r & cs & -> & Hsub & Hok).
        exists r, (cs0 ++ cs). rewrite add_ran_app. split; [done |]. split.
        -- intros p' Hr. destruct (Hsub p' Hr) as [H1 H2]. split; [set_solver |].
           intros t Ht. apply H2 in Ht.
           apply elem_of_union in Ht as [Ht | Ht]; [| set_solver].
           apply elem_of_union in Ht as [Ht | Ht]; [| set_solver].
           apply elem_of_list_to_set, matched_alerts_new in Ht. set_solver.
        -- intros Hf. apply Hok. intros m' Hm'. apply Hf. by right.
    + cbn. destruct (IH p w) as (r & cs & -> & Hsub & Hok). exists r, cs.
      split; [done |]. split; [done |]. intros Hf. apply Hok. intros m' Hm'.
      apply Hf. by right.
Qed.

(** X16: the bookkeeping of [alert_script].  When the state loads and
    every template of every mapping formats with every title of the
    collection, [alert_script] raises nothing and saves a state whose
    active alerts are the titles of the collection, without repetition,
    and whose processed titles are either titles of the collection or
    processed titles that were not active; a processed title whose
    alert is still in the collection stays processed; tone, identifier,
    stored alerts and [last_sayalert] are kept; and when every title of
    the collection was already active no command is run.  When
    [alert_script] raises, as it does at a template that does not
    format, the state file is left as it was: nothing of the above is
    saved. *)
Theorem alert_script_bookkeeping a w st :
  load_state_of (data_file w) = Ok st →
  ((∀ m, m ∈ Mappings → formats m (od_keys a)) →
   ∃ w' st',
     alert_script a w = (Ok (), w')
     ∧ load_state_of (data_file w') = Ok st'
     ∧ (∀ t, t ∈ active_alerts st' ↔ t ∈ od_keys a)
     ∧ NoDup (active_alerts st')
     ∧ (∀ t, t ∈ alertscript_alerts st' →
             t ∈ od_keys a ∨ (t ∈ alertscript_alerts st ∧ t ∉ active_alerts st))
     ∧ (∀ t, t ∈ alertscript_alerts st → t ∈ od_keys a → t ∈ alertscript_alerts st')
     ∧ ct st' = ct st ∧ id st' = id st
     ∧ last_alerts st' = last_alerts st ∧ last_sayalert st' = last_sayalert st
     ∧ ((∀ t, t ∈ od_keys a → t ∈ active_alerts st) → ran w' = ran w))
  ∧ (∀ e w', alert_script a w = (Raise e, w') → data_file w' = data_file w).
Proof.
  intros Hload. destruct (loaded_shape _ _ Hload) as [Hnd [l Hl]].
  unfold alert_script, mbind, SE_bind, load_state. rewrite Hload.
  set (names := list_to_set (od_keys a) : gset string).
  set (active := list_to_set (active_alerts st) : gset string).
  set (processed := list_to_set (alertscript_alerts st) : gset string).
  destruct (process_mappings_spec Mappings (elements (names ∖ active)) processed w)
    as (r & cs & Hrun & Hsubsup & Hok).
  rewrite Hrun. split; [| by destruct r as [p0 | e0]; intros e w' [= <- <-]].
  intros Hf. destruct Hok as [p' ->].
  { intros m Hm. eapply formats_sub; [| by apply Hf]. intros t.
    rewrite elem_of_elements, elem_of_difference. unfold names.
    rewrite elem_of_list_to_set. tauto. }
  destruct (Hsubsup p' eq_refl) as [Hsub Hsup].
  eexists _, _. split; [reflexivity |].
  split; [unfold save_state, set_data_file; cbn [snd data_file]; by eapply reload |].
  cbn [active_alerts alertscript_alerts set_alertscript_alerts set_active_alerts
       ct id last_alerts last_sayalert].
  split; [intros t; unfold names; by rewrite elem_of_elements, elem_of_list_to_set |].
  split; [apply NoDup_elements |].
  assert (∀ t, t ∈ (list_to_set (elements (names ∖ active)) : gset string)
               ↔ t ∈ names ∖ active) as Hnew
    by (intros t; by rewrite elem_of_list_to_set, elem_of_elements).
  split.
  { intros t. rewrite elem_of_elements, elem_of_difference. intros [Hp Hc].
    apply Hsup, elem_of_union in Hp as [Hp | Hp].
    - destruct (decide (t ∈ names)) as [Hn | Hn].
      + left. unfold names in Hn. by apply elem_of_list_to_set in Hn.
      + right. unfold processed in Hp. apply elem_of_list_to_set in Hp.
        split; [done |]. intros Ha. apply Hc.
        apply elem_of_difference. split; [| done].
        unfold active. by apply elem_of_list_to_set.
    - apply Hnew, elem_of_difference in Hp as [Hn _]. left.
      unfold names in Hn. by apply elem_of_list_to_set in Hn. }
  split.
  { intros t Hp Hn. rewrite elem_of_elements, elem_of_difference. split.
    - apply Hsub. unfold processed. by apply elem_of_list_to_set.
    - rewrite elem_of_difference. intros [_ Hnot]. apply Hnot.
      unfold names. by apply elem_of_list_to_set. }
  repeat split; try done.
  intros Hall. unfold save_state, set_data_file. cbn [snd ran].
  assert (names ∖ active = ∅) as Hempty.
  { apply leibniz_equiv. apply set_equiv. intros t.
    unfold names, active. rewrite elem_of_difference, !elem_of_list_to_set. set_solver. }
  rewrite Hempty, elements_empty, process_mappings_no_new in Hrun.
  injection Hrun as _ Hw. by rewrite <- Hw.
Qed.

End Scripts.

Definition sirens_on_nodes : mapping :=
  {| Triggers := ["Tornado*"];
     Commands := ["*81"; "*82"];
     Nodes := ["1998"; "1999"];
     Match := "any";
     Type_ := Some "DTMF" |}.

Lemma any_and_other_modes_witness :
  let cfg := test_config [] [sirens_on_nodes] 99 in
  let os := test_host in
  ran (process_mapping sirens_on_nodes ["Flood Watch"; "Tornado Warning"] ∅
                       (empty_world Absent)).2
  = [Dtmf "1998" "*81"; Dtmf "1998" "*82"; Dtmf "1999" "*81"; Dtmf "1999" "*82"].
Proof.
  intros cfg os.
  rewrite (proj1 (@any_and_other_modes os sirens_on_nodes
                    ["Flood Watch"; "Tornado Warning"] ∅) eq_refl).
  vm_compute. reflexivity.
Defined.

Lemma siren_formats :
  let os := test_host in
  formats (siren "ANY") ["Tornado Warning"].
Proof.
  intros os _ cmd alert Hcmd Halert. cbn in Hcmd.
  apply list_elem_of_singleton in Hcmd as ->.
  apply list_elem_of_singleton in Halert as ->.
  exists "/usr/local/bin/siren.sh Tornado Warning". reflexivity.
Qed.

(** A title matched twice by a mapping with one template: the
    formatted command is run twice. *)
Lemma run_matched_commands_witness :
  let os := test_host in
  run_matched (siren "ANY") ["Tornado Warning"; "Tornado Warning"] ∅ (empty_world Absent)
  = (Ok {["Tornado Warning"]},
     add_ran (empty_world Absent)
             [Bash "/usr/local/bin/siren.sh Tornado Warning";
              Bash "/usr/local/bin/siren.sh Tornado Warning"]).
Proof.
  intros os.
  destruct (proj1 (@run_matched_commands os (siren "ANY")
                     ["Tornado Warning"; "Tornado Warning"] ∅ (empty_world Absent)))
    as [Hrun _].
  - intros Hb cmd alert Hcmd Halert. apply (siren_formats Hb cmd alert Hcmd).
    apply elem_of_cons in Halert as [-> | Halert]; [left | exact Halert].
  - rewrite Hrun. reflexivity.
Defined.

Lemma alert_script_bookkeeping_witness :
  let cfg := test_config [] [siren "ANY"] 99 in
  let os := test_host in
  ∃ w' st',
    alert_script tornado_warning (empty_world stored_warning) = (Ok (), w')
    ∧ load_state_of (data_file w') = Ok st'
    ∧ ran w' = [].
Proof.
  intros cfg os.
  destruct (proj1 (@alert_script_bookkeeping cfg os tornado_warning
                     (empty_world stored_warning) _ eq_refl))
    as (w' & st' & Hrun & Hload & _ & _ & _ & _ & _ & _ & _ & _ & Hran).
  - intros m Hm. cbn in Hm. apply list_elem_of_singleton in Hm as ->.
    exact siren_formats.
  - exists w', st'. split; [exact Hrun |]. split; [exact Hload |].
    apply Hran. intros t Ht. exact Ht.
Defined.

(** ** The tail message: skipped alerts and exceptions *)

Section TailMore.
Context {cfg : Config} {os : Host}.
Implicit Types (a : list (string * list county)) (w : world) (b : builder)
  (item : string * list county).

(** The alert is not blocked for the tail message, its title is in the
    catalogue and its clip exists. *)
Definition announceable item : bool :=
  negb (existsb (fnmatch item.1) TAILMESSAGE_BLOCKED_EVENTS)
  && match py_index ALERT_STRINGS item.1 with
     | Ok index => wav_exists (SWP (S index))
     | Raise _ => false
     end.

Lemma tail_alert_skipped (sound_effect : clip) item b :
  announceable item = false → tail_alert sound_effect item b = (Ok (), b).
Proof.
  unfold announceable, tail_alert.
  destruct (existsb _ _); cbn [negb andb]; [done |].
  unfold try_except, mbind, SE_bind, lift, from_wav.
  destruct (py_index ALERT_STRINGS item.1) as [index | e] eqn:Ei.
  - intros ->. done.
  - intros _. unfold py_index in Ei. destruct (list_find _ _) as [[i x] |]; [done |].
    by injection Ei as <-.
Qed.

Lemma tail_alerts_filter (sound_effect : clip) a b :
  for_each a (tail_alert sound_effect) b
  = for_each (filter (λ item, announceable item = true) a) (tail_alert sound_effect) b.
Proof.
  revert b. induction a as [| item a IH]; intros b; [done |].
  rewrite filter_cons. destruct (announceable item) eqn:E.
  - rewrite decide_True by done. cbn. unfold mbind, SE_bind.
    destruct (tail_alert sound_effect item b) as [[[] | e] b1]; [apply IH | done].
  - rewrite decide_False by done. cbn. unfold mbind, SE_bind.
    rewrite (tail_alert_skipped _ _ _ E). apply IH.
Qed.

(** X17: building the tail message skips and goes on.  An alert that is
    blocked for the tail message, whose title is not in the catalogue
    of alert strings, or whose clip is missing adds nothing: when at
    least one alert is left, the tail message built from a collection
    is the one built from the collection without such alerts. *)
Theorem build_tailmessage_skips a w :
  filter (λ item, announceable item = true) a ≠ [] →
  build_tailmessage a w
  = build_tailmessage (filter (λ item, announceable item = true) a) w.
Proof.
  intros Hsome. unfold build_tailmessage.
  assert (a ≠ []) as Ha by (intros ->; done).
  rewrite !bool_decide_eq_false_2 by done.
  unfold mbind, SE_bind. destruct (lift (from_wav (Effect AlertSeperator)) w) as [[se | e] w1];
    [| done].
  by rewrite tail_alerts_filter.
Qed.

(** [m] raises nothing but exceptions of [P]. *)
Definition raises_only (P : exn → Prop) {A} (m : SE builder A) : Prop :=
  ∀ b, match (m b).1 with Raise e => P e | Ok _ => True end.

Lemma raises_only_ret (P : exn → Prop) {A} (x : A) : raises_only P (mret x : SE builder A).
Proof. by intros b. Qed.

Lemma raises_only_bind (P : exn → Prop) {A B} (m : SE builder A) (f : A → SE builder B) :
  raises_only P m → (∀ x, raises_only P (f x)) → raises_only P (m ≫= f).
Proof.
  intros Hm Hf b. unfold mbind, SE_bind. specialize (Hm b).
  destruct (m b) as [[x | e] b1]; cbn in *; [apply Hf | done].
Qed.

Lemma raises_only_lift (P : exn → Prop) {A} (r : result A) :
  (∀ e, r = Raise e → P e) → raises_only P (lift r : SE builder A).
Proof. intros Hr b. cbn. destruct r; [done | by apply Hr]. Qed.

Lemma raises_only_for_each (P : exn → Prop) {A} (l : list A) (body : A → SE builder unit) :
  (∀ x, raises_only P (body x)) → raises_only P (for_each l body).
Proof.
  intros Hbody. induction l as [| x l IH]; cbn; [apply raises_only_ret |].
  apply raises_only_bind; [apply Hbody | intros _; apply IH].
Qed.

Lemma raises_only_try (P Q : exn → Prop) (m : SE builder unit) (handled : exn → bool) :
  raises_only P m → (∀ e, P e → handled e = false → Q e) →
  raises_only Q (try_except m handled).
Proof.
  intros Hm HPQ b. unfold try_except. specialize (Hm b).
  destruct (m b) as [[[] | e] b1]; cbn in *; [done |].
  destruct (handled e) eqn:He; cbn; [done | by apply HPQ].
Qed.

(** The exceptions the handlers of the builders catch. *)
Definition is_caught (e : exn) : Prop := caught e = true.

Lemma from_wav_caught (f : wav) e : from_wav f = Raise e → is_caught e.
Proof. unfold from_wav. destruct (wav_exists f); [done |]. by intros [= <-]. Qed.

Lemma py_index_caught {A} `{EqDecision A} (l : list A) (x : A) e :
  py_index l x = Raise e → is_caught e.
Proof. unfold py_index. destruct (list_find _ _) as [[i y] |]; [done |]. by intros [= <-]. Qed.

Lemma py_index_lt {A} `{EqDecision A} (l : list A) (x : A) (i : nat) :
  py_index l x = Ok i → (i < length l)%nat.
Proof.
  unfold py_index. destruct (list_find _ _) as [[j y] |] eqn:E; [| done].
  intros [= <-]. apply list_find_Some in E as (Hj & _). by eapply lookup_lt_Some.
Qed.

(** The county tables as the configuration loader builds them: no
    sound file at all, or one for every county code. *)
Definition county_tables_aligned : Prop :=
  COUNTY_WAVS = [] ∨ (length COUNTY_CODES ≤ length COUNTY_WAVS)%nat.

Lemma raises_only_state (P : exn → Prop) (f : builder → builder) :
  raises_only P (λ b, (Ok (), f b)).
Proof. by intros b. Qed.

Lemma word_space_caught (counties : list county) (c : county) e :
  word_space counties c = Raise e → is_caught e.
Proof.
  unfold word_space. destruct (py_index counties c) eqn:E; cbn; [done |].
  intros [= <-]. by eapply py_index_caught.
Qed.

Lemma is_last_caught (counties : list county) (c : county) e :
  is_last counties c = Raise e → is_caught e.
Proof.
  unfold is_last. destruct (py_index counties c) eqn:E; cbn; [done |].
  intros [= <-]. by eapply py_index_caught.
Qed.

Lemma add_multiples_caught (counties : list county) :
  raises_only is_caught (add_multiples counties).
Proof.
  unfold add_multiples. destruct WithMultiples; [| apply raises_only_ret].
  destruct (multiples counties); [| apply raises_only_ret].
  apply raises_only_bind; [apply raises_only_lift, from_wav_caught |].
  intros ?. apply raises_only_state.
Qed.

(** The sound file of a county code that passed the test of the
    builders is found when the tables are aligned. *)
Lemma county_file_found (code : string) (index : nat) :
  county_tables_aligned → COUNTY_WAVS ≠ [] →
  py_index COUNTY_CODES code = Ok index →
  ∃ file, py_nth COUNTY_WAVS index = Ok file.
Proof.
  intros [Hnil | Hlen] Hne Hi; [done |]. apply py_index_lt in Hi.
  unfold py_nth. destruct (COUNTY_WAVS !! index) as [file |] eqn:E; [by eexists |].
  apply lookup_ge_None in E. lia.
Qed.

Lemma tail_county_caught (counties : list county) (c : county) :
  county_tables_aligned → raises_only is_caught (tail_county counties c).
Proof.
  intros Hal. unfold tail_county.
  apply raises_only_bind; [apply raises_only_lift, word_space_caught | intros ws].
  apply raises_only_bind; [by intros b | intros added].
  destruct (bool_decide (COUNTY_WAVS ≠ [])) eqn:Hne; cbn [andb];
    [| apply raises_only_ret].
  apply bool_decide_eq_true in Hne.
  destruct (_ && _); [| apply raises_only_ret].
  intros b. unfold mbind at 1, SE_bind at 1, lift at 1.
  destruct (py_index COUNTY_CODES (county_code c)) as [index | e] eqn:Ei;
    [| by eapply py_index_caught].
  destruct (county_file_found _ _ Hal Hne Ei) as [file Hfile].
  unfold mbind at 1, SE_bind at 1, lift at 1. rewrite Hfile.
  revert b. apply (raises_only_try is_caught); [| done].
  apply raises_only_bind; [apply raises_only_lift, from_wav_caught | intros f].
  apply raises_only_bind; [apply raises_only_state | intros _].
  apply raises_only_bind; [apply raises_only_lift, is_last_caught | intros last_one].
  apply raises_only_bind; [| intros _; apply raises_only_state].
  destruct last_one; [apply raises_only_state | apply raises_only_ret].
Qed.

Lemma tail_alert_never_raises (sound_effect : clip) item :
  county_tables_aligned → raises_only (λ _, False) (tail_alert sound_effect item).
Proof.
  intros Hal. unfold tail_alert.
  destruct (existsb _ _); [apply raises_only_ret |].
  apply (raises_only_try is_caught).
  - apply raises_only_bind; [apply raises_only_lift, py_index_caught | intros index].
    apply raises_only_bind; [apply raises_only_lift, from_wav_caught | intros f].
    apply raises_only_bind; [apply raises_only_state | intros _].
    apply raises_only_bind; [apply add_multiples_caught | intros _].
    destruct TailmessageCounties; [| apply raises_only_ret].
    apply raises_only_for_each. intros c. by apply tail_county_caught.
  - unfold is_caught. intros e He Hn. congruence.
Qed.

(** X18: a missing clip never aborts the tail message.  When the county
    tables are aligned (no county sound file, or one for every county
    code), the separator clip exists and the suffix clip exists if one
    is configured, [build_tailmessage] raises nothing and writes the
    tail message file, whatever alert or county clips are missing and
    whatever titles the collection holds; nothing else in the world
    changes. *)
Theorem build_tailmessage_never_raises a w :
  county_tables_aligned →
  wav_exists (Effect AlertSeperator) = true →
  (∀ suffix, TailmessageSuffix = Some suffix → wav_exists (Sound suffix) = true) →
  ∃ f, build_tailmessage a w
       = (Ok (), World (data_file w) (copied w) (ran w) (Some f) (alert_file w)
                       (allclear_file w) (warnings_txt w) (pushed w)).
Proof.
  intros Hal Hsep Hsuffix. unfold build_tailmessage.
  case_bool_decide; [by eexists |].
  unfold mbind at 1, SE_bind at 1, lift at 1, from_wav at 1. rewrite Hsep.
  pose proof (raises_only_for_each (λ _, False) a (tail_alert (File (Effect AlertSeperator)))
                (λ item, tail_alert_never_raises _ item Hal)
                (Builder AudioSegment_empty ∅ 0)) as Hloop.
  destruct (for_each a _ _) as [[[] | e] b]; cbn in Hloop; [| done].
  rewrite empty_is_false.
  destruct TailmessageSuffix as [suffix |] eqn:Es.
  - unfold mbind, SE_bind, lift, from_wav. rewrite (Hsuffix suffix eq_refl).
    by eexists.
  - destruct (0 <? AUDIO_DELAY); by eexists.
Qed.

End TailMore.

Definition unknown_and_known : alerts :=
  [("Meteor Shower Warning", [zone "ARC125"]);
   ("Tornado Warning", [zone "ARC125"])].

Lemma build_tailmessage_skips_witness :
  let cfg := test_config [] [] 99 in
  let os := test_host in
  build_tailmessage unknown_and_known (empty_world Absent)
  = build_tailmessage [("Tornado Warning", [zone "ARC125"])] (empty_world Absent).
Proof.
  intros cfg os.
  rewrite (@build_tailmessage_skips cfg os unknown_and_known (empty_world Absent)).
  - reflexivity.
  - vm_compute. discriminate.
Defined.

Lemma build_tailmessage_never_raises_witness :
  let cfg := test_config [] [] 99 in
  let os := test_host in
  ∃ f, build_tailmessage unknown_and_known (empty_world Absent)
       = (Ok (), World Absent [] [] (Some f) None None None []).
Proof.
  intros cfg os.
  apply (@build_tailmessage_never_raises cfg os unknown_and_known (empty_world Absent)).
  - right. cbn. lia.
  - reflexivity.
  - intros suffix Hs. discriminate Hs.
Defined.

(** ** The spoken announcement: repetition, blocked alerts, broadcast *)

Section SayMore.
Context {cfg : Config} {os : Host}.
Implicit Types (a : list (string * list county)) (w : world) (b : builder) (st : state)
  (item : string * list county).

(** The announcement is exported, the tail message silenced and the
    announcement played on every node. *)
Definition said w (f : wavfile) : world :=
  add_ran (World (data_file w) (copied w) (ran w) (Some silence_100) (Some f)
                 (allclear_file w) (warnings_txt w) (pushed w))
          ((λ node_number, LocalPlay node_number "alert") <$> AsteriskNodes).

(** The loop of [say_alerts] over the alerts, from its initial sound. *)
Definition say_loop a (sound_effect intro_effect swp_148 : clip) : result unit * builder :=
  for_each a (say_alert sound_effect (filtered_alerts_and_counties a))
           (Builder [intro_effect; Silent 600; swp_148] ∅ 0).

(** The file [say_alerts] exports, [None] when no alert was counted:
    the part of [say_alerts] that does not read the world. *)
Definition say_sound a : result (option wavfile) :=
  sound_effect ← from_wav (Effect AlertSeperator);
  intro_effect ← from_wav (Effect AlertSound);
  swp_148 ← from_wav (SWP 148);
  match say_loop a sound_effect intro_effect swp_148 with
  | (Raise e, _) => Raise e
  | (Ok _, b) =>
      if decide (alert_count b = 0%nat) then Ok None
      else
        combined ←
          match SayAlertSuffix with
          | Some alert_suffix =>
              suffix_sound ← from_wav (Sound alert_suffix);
              mret (combined_sound b ++ [Silent 600; suffix_sound])%list
          | None => mret (combined_sound b)
          end;
        mret (Some (convert_audio
                      (if 0 <? AUDIO_DELAY then Silent AUDIO_DELAY :: combined
                       else combined)))
  end.

Lemma say_alerts_eq a w :
  say_alerts a w
  = match load_state_of (data_file w) with
    | Raise e => (Raise e, w)
    | Ok st =>
        let w' := (save_state (set_last_sayalert st
                                 (SayDict (filtered_alerts_and_counties a))) w).2 in
        match say_sound a with
        | Raise e => (Raise e, w')
        | Ok None => (Ok (), w')
        | Ok (Some f) => (Ok (), said w' f)
        end
    end.
Proof.
  unfold say_alerts, say_sound, say_loop, load_state, mbind at 1, SE_bind at 1.
  destruct (load_state_of (data_file w)) as [st | e] eqn:Hload; [| done].
  assert (sayalert_eqb (filtered_alerts_and_counties a) (last_sayalert st) = false) as ->.
  { destruct (data_file w); cbn in Hload; by simplify_eq. }
  unfold mbind at 1, SE_bind at 1. cbn [save_state set_data_file snd].
  unfold save_state, set_data_file. cbv zeta.
  set (w' := World _ _ _ _ _ _ _ _).
  unfold mbind, SE_bind, result_bind, lift.
  destruct (from_wav (Effect AlertSeperator)) as [sound_effect | e]; [| done].
  destruct (from_wav (Effect AlertSound)) as [intro_effect | e]; [| done].
  destruct (from_wav (SWP 148)) as [swp_148 | e]; [| done].
  destruct (for_each a _ _) as [[[] | e] b]; [| done].
  destruct (decide (alert_count b = 0%nat)); [done |].
  destruct SayAlertSuffix as [alert_suffix |].
  - destruct (from_wav (Sound alert_suffix)) as [suffix_sound | e]; [| done].
    cbn. rewrite for_each_run. done.
  - cbn. rewrite for_each_run. done.
Qed.

Lemma load_state_of_distinct (d : datafile) st :
  load_state_of d = Ok st → NoDup (od_keys (last_alerts st)).
Proof.
  destruct d; cbn; try done; intros [= <-]; cbn.
  - apply NoDup_nil. done.
  - apply od_of_pairs_NoDup.
Qed.

(** Saving the new titles a second time writes the same file. *)
Lemma save_sayalert_again st (d : odict (list string)) :
  NoDup (od_keys (last_alerts st)) →
  ∃ st', load_state_of (Stored (json_of_state (set_last_sayalert st (SayDict d)))) = Ok st'
         ∧ json_of_state (set_last_sayalert st' (SayDict d))
           = json_of_state (set_last_sayalert st (SayDict d)).
Proof.
  intros Hnd. eexists. split; [reflexivity |].
  unfold json_of_state, set_last_sayalert. cbn.
  unfold od_of_pairs. fold (od_update [] (last_alerts st)).
  rewrite od_update_id by done. reflexivity.
Qed.

(** X19: the test for an unchanged announcement never holds.  The state
    file keeps the last announcement as the list of its titles, which
    never equals the dictionary of titles and county codes it is
    compared with: a call of [say_alerts] that succeeded, repeated with
    the same alerts, succeeds again and runs the same commands once
    more, leaving everything else as it is. *)
Theorem say_alerts_repeats a w w1 :
  say_alerts a w = (Ok (), w1) →
  ∃ cs, ran w1 = (ran w ++ cs)%list ∧ say_alerts a w1 = (Ok (), add_ran w1 cs).
Proof.
  rewrite (say_alerts_eq a w), (say_alerts_eq a w1).
  destruct (load_state_of (data_file w)) as [st |] eqn:Hload; [| done].
  apply load_state_of_distinct in Hload.
  destruct (save_sayalert_again st (filtered_alerts_and_counties a) Hload)
    as (st' & Hload' & Hsame).
  cbv zeta. destruct (say_sound a) as [[f |] |]; [| | done]; intros [= <-].
  - exists ((λ node_number, LocalPlay node_number "alert") <$> AsteriskNodes).
    split; [done |]. cbn [said add_ran data_file save_state set_data_file snd].
    rewrite Hload'. unfold said, save_state, set_data_file. cbn. by rewrite Hsame.
  - exists []. split; [by rewrite app_nil_r |].
    cbn [data_file save_state set_data_file snd].
    rewrite Hload'. unfold save_state, set_data_file. cbn. rewrite Hsame.
    by rewrite add_ran_nil.
Qed.

(** The alert is announced and counted: it is not blocked for the
    announcement, its title is in the catalogue, its clip exists, and
    so does the clip for multiples when the alert calls for it. *)
Definition sayable item : bool :=
  negb (existsb (fnmatch item.1) SAYALERT_BLOCKED_EVENTS)
  && match py_index ALERT_STRINGS item.1 with
     | Ok index => wav_exists (SWP (S index))
     | Raise _ => false
     end
  && (negb (WithMultiples && multiples item.2) || wav_exists (SWP 149)).

Lemma od_update_keys_elem {V} (d l : list (string * V)) (k : string) :
  k ∈ od_keys (od_update d l) ↔ k ∈ od_keys d ∨ k ∈ l.*1.
Proof.
  revert d. induction l as [| [k0 v0] l IH]; intros d.
  - cbn. rewrite elem_of_nil. tauto.
  - rewrite od_update_cons, IH, od_set_keys. cbn [fmap list_fmap fst].
    rewrite elem_of_cons. case_decide as Hin.
    + split; [tauto |]. intros [? | [-> | ?]]; tauto.
    + rewrite elem_of_app, list_elem_of_singleton. tauto.
Qed.

Lemma alert_names_keys a (t : string) :
  t ∈ od_keys (alert_names_and_counties a) ↔ t ∈ od_keys a.
Proof.
  unfold alert_names_and_counties, od_of_pairs.
  fold (od_update [] ((λ item, (item.1, county_code <$> item.2)) <$> a)).
  rewrite od_update_keys_elem. unfold od_keys at 1. cbn [fmap list_fmap].
  rewrite elem_of_nil, <- list_fmap_compose. unfold od_keys.
  assert (((fst ∘ (λ item, (item.1, county_code <$> item.2))) <$> a) = a.*1) as ->
    by (by apply list_fmap_ext). tauto.
Qed.

Lemma filtered_fold_keys (l acc : list (string * list string)) (t : string) :
  t ∈ od_keys (foldl (λ (acc : odict (list string)) (kv : string * list string),
                        if existsb (fnmatch kv.1) SAYALERT_BLOCKED_EVENTS then acc
                        else od_set acc kv.1 kv.2) acc l)
  ↔ t ∈ od_keys acc
    ∨ (t ∈ l.*1 ∧ existsb (fnmatch t) SAYALERT_BLOCKED_EVENTS = false).
Proof.
  revert acc. induction l as [| [k v] l IH]; intros acc.
  - cbn. rewrite elem_of_nil. tauto.
  - cbn [foldl fst snd]. rewrite IH. cbn [fmap list_fmap fst]. rewrite elem_of_cons.
    destruct (existsb (fnmatch k) SAYALERT_BLOCKED_EVENTS) eqn:Hk.
    + split; [tauto |]. intros [? | [[-> | ?] ?]]; [tauto | congruence | tauto].
    + rewrite od_set_keys. case_decide as Hin.
      * split; [tauto |]. intros [? | [[-> | ?] ?]]; tauto.
      * rewrite elem_of_app, list_elem_of_singleton.
        split; [intros [[? | ->] | ?]; tauto | tauto].
Qed.

(** The titles compared and announced: those of the collection that
    are not blocked. *)
Lemma filtered_mem a (t : string) :
  od_mem (filtered_alerts_and_counties a) t = true
  ↔ t ∈ od_keys a ∧ existsb (fnmatch t) SAYALERT_BLOCKED_EVENTS = false.
Proof.
  unfold od_mem. rewrite bool_decide_eq_true, od_get_is_Some.
  unfold filtered_alerts_and_counties. rewrite filtered_fold_keys.
  fold (od_keys (alert_names_and_counties a)). rewrite alert_names_keys.
  unfold od_keys at 1. cbn [fmap list_fmap]. rewrite elem_of_nil. tauto.
Qed.

Lemma try_except_state {S} (m : SE S unit) (handled : exn → bool) (s : S) :
  (try_except m handled s).2 = (m s).2.
Proof. unfold try_except. destruct (m s) as [[[] | e] s']; [done |]. by destruct (handled e). Qed.

Lemma add_multiples_count (counties : list county) b :
  alert_count (add_multiples counties b).2 = alert_count b.
Proof.
  unfold add_multiples. destruct WithMultiples; [| done].
  destruct (multiples counties); [| done].
  unfold mbind, SE_bind, lift. by destruct (from_wav (SWP 149)).
Qed.

(** An alert that is not announceable leaves the count as it is. *)
Lemma say_alert_uncounted (sound_effect : clip) (filtered : odict (list string)) item b :
  (od_mem filtered item.1 = true →
   existsb (fnmatch item.1) SAYALERT_BLOCKED_EVENTS = false) →
  sayable item = false →
  ∃ b', say_alert sound_effect filtered item b = (Ok (), b')
        ∧ alert_count b' = alert_count b.
Proof.
  intros Hmem Hno. unfold say_alert.
  destruct (od_mem filtered item.1); [| by eexists].
  unfold sayable in Hno. rewrite Hmem in Hno by done. cbn [negb andb] in Hno.
  unfold try_except, mbind at 1, SE_bind at 1, lift at 1.
  destruct (py_index ALERT_STRINGS item.1) as [index | e] eqn:Ei.
  - unfold mbind at 1, SE_bind at 1, lift at 1, from_wav at 1.
    destruct (wav_exists (SWP (S index))); [| by eexists].
    cbn [andb] in Hno. apply orb_false_iff in Hno as [Hm H149].
    apply negb_false_iff, andb_true_iff in Hm as [Hwith Hmult].
    unfold mbind at 1, SE_bind at 1, append_sound at 1.
    unfold mbind at 1, SE_bind at 1, add_multiples. rewrite Hwith, Hmult.
    unfold mbind at 1, SE_bind at 1, lift at 1, from_wav at 1. rewrite H149.
    cbn. by eexists.
  - apply py_index_caught in Ei. unfold is_caught in Ei. rewrite Ei. by eexists.
Qed.

Lemma say_loop_uncounted (sound_effect : clip) (filtered : odict (list string)) a b :
  (∀ t, od_mem filtered t = true →
        existsb (fnmatch t) SAYALERT_BLOCKED_EVENTS = false) →
  (∀ item, item ∈ a → sayable item = false) →
  ∃ b', for_each a (say_alert sound_effect filtered) b = (Ok (), b')
        ∧ alert_count b' = alert_count b.
Proof.
  intros Hmem. revert b. induction a as [| item a IH]; intros b Hno; [by eexists |].
  destruct (say_alert_uncounted sound_effect filtered item b (Hmem _))
    as (b1 & Hb1 & Hc1); [apply Hno; left |].
  destruct (IH b1) as (b2 & Hb2 & Hc2); [intros ? ?; apply Hno; by right |].
  exists b2. cbn. unfold mbind, SE_bind. rewrite Hb1. split; [done | congruence].
Qed.

(** X20: nothing to announce, nothing broadcast.  When every alert of
    the collection is blocked for the announcement, has a title outside
    the catalogue, or lacks its clip (or the clip for multiples it calls
    for), [say_alerts] stores the titles it compared and stops: it
    exports no announcement, leaves the tail message alone and plays
    nothing.  The three opening clips are loaded before that, so they
    must exist. *)
Theorem say_alerts_silent a w st :
  load_state w = (Ok st, w) →
  (∀ item, item ∈ a → sayable item = false) →
  wav_exists (Effect AlertSeperator) = true →
  wav_exists (Effect AlertSound) = true →
  wav_exists (SWP 148) = true →
  say_alerts a w
  = save_state (set_last_sayalert st (SayDict (filtered_alerts_and_counties a))) w.
Proof.
  intros Hload Hno Hsep Hintro H148. rewrite say_alerts_eq.
  unfold load_state in Hload. injection Hload as ->.
  unfold say_sound, say_loop, mbind, result_bind, from_wav. rewrite Hsep, Hintro, H148.
  destruct (say_loop_uncounted (File (Effect AlertSeperator))
              (filtered_alerts_and_counties a) a
              (Builder [File (Effect AlertSound); Silent 600; File (SWP 148)] ∅ 0))
    as (b' & -> & Hc); [intros t Ht; by apply filtered_mem in Ht as [_ ?] | done |].
  cbn in Hc. rewrite decide_True by done. reflexivity.
Qed.

(** [m] never lowers the count of announced alerts. *)
Definition counts_up {A} (m : SE builder A) : Prop :=
  ∀ b, (alert_count b ≤ alert_count (m b).2)%nat.

Lemma counts_up_ret {A} (x : A) : counts_up (mret x : SE builder A).
Proof. by intros b. Qed.

Lemma counts_up_lift {A} (r : result A) : counts_up (lift r : SE builder A).
Proof. by intros b. Qed.

Lemma counts_up_bind {A B} (m : SE builder A) (f : A → SE builder B) :
  counts_up m → (∀ x, counts_up (f x)) → counts_up (m ≫= f).
Proof.
  intros Hm Hf b. unfold mbind, SE_bind. specialize (Hm b).
  destruct (m b) as [[x | e] b1]; cbn in *; [| done].
  specialize (Hf x b1). lia.
Qed.

Lemma counts_up_for_each {A} (l : list A) (body : A → SE builder unit) :
  (∀ x, counts_up (body x)) → counts_up (for_each l body).
Proof.
  intros Hbody. induction l as [| x l IH]; cbn; [apply counts_up_ret |].
  apply counts_up_bind; [apply Hbody | intros _; apply IH].
Qed.

Lemma counts_up_try (m : SE builder unit) (handled : exn → bool) :
  counts_up m → counts_up (try_except m handled).
Proof. intros Hm b. rewrite try_except_state. apply Hm. Qed.

Lemma counts_up_append (s : AudioSegment) : counts_up (append_sound s).
Proof. by intros b. Qed.

Lemma say_county_counts (counties : list county) (c : county) :
  counts_up (say_county counties c).
Proof.
  unfold say_county.
  apply counts_up_bind; [apply counts_up_lift | intros ws].
  apply counts_up_bind; [by intros b | intros added].
  destruct (_ && _); [| apply counts_up_ret].
  apply counts_up_bind; [apply counts_up_lift | intros index].
  apply counts_up_bind; [apply counts_up_lift | intros file].
  apply counts_up_bind; [| intros _].
  { apply counts_up_try. apply counts_up_bind; [apply counts_up_lift | intros f].
    apply counts_up_append. }
  apply counts_up_bind; [by intros b | intros _].
  apply counts_up_bind; [apply counts_up_lift | intros last_one].
  destruct last_one; [apply counts_up_append | apply counts_up_ret].
Qed.

Lemma say_alert_counts (sound_effect : clip) (filtered : odict (list string)) item :
  counts_up (say_alert sound_effect filtered item).
Proof.
  unfold say_alert. destruct (od_mem _ _); [| apply counts_up_ret].
  apply counts_up_try.
  apply counts_up_bind; [apply counts_up_lift | intros index].
  apply counts_up_bind; [apply counts_up_lift | intros f].
  apply counts_up_bind; [apply counts_up_append | intros _].
  apply counts_up_bind; [intros b; by rewrite add_multiples_count | intros _].
  apply counts_up_bind; [intros b; cbn; lia | intros _].
  apply counts_up_bind; [by intros b | intros _].
  apply counts_up_for_each. intros c. apply say_county_counts.
Qed.

(** An announceable alert raises the count. *)
Lemma say_alert_counted (sound_effect : clip) (filtered : odict (list string)) item b :
  od_mem filtered item.1 = true → sayable item = true →
  (S (alert_count b) ≤ alert_count (say_alert sound_effect filtered item b).2)%nat.
Proof.
  intros Hmem Hyes. unfold say_alert. rewrite Hmem, try_except_state.
  unfold sayable in Hyes. apply andb_true_iff in Hyes as [Hyes H149].
  apply andb_true_iff in Hyes as [_ Hclip].
  destruct (py_index ALERT_STRINGS item.1) as [index | e] eqn:Ei; [| done].
  erewrite bind_ok by reflexivity.
  unfold from_wav at 1. rewrite Hclip.
  erewrite bind_ok by reflexivity.
  erewrite bind_ok by reflexivity.
  set (b1 := Builder _ _ _).
  assert (∃ b2, add_multiples item.2 b1 = (Ok (), b2) ∧ alert_count b2 = alert_count b)
    as (b2 & Hb2 & Hc2).
  { unfold add_multiples. destruct WithMultiples; [| by eexists].
    destruct (multiples item.2); [| by eexists]. cbn in H149.
    unfold mbind, SE_bind, lift, from_wav. rewrite H149. by eexists. }
  erewrite bind_ok by exact Hb2.
  erewrite bind_ok by reflexivity.
  erewrite bind_ok by reflexivity.
  pose proof (counts_up_for_each item.2 (say_county item.2)
                (λ c, say_county_counts item.2 c)
                (Builder (combined_sound b2) ∅ (S (alert_count b2)))) as Hup.
  cbn [combined_sound alert_count]. cbn in Hup. lia.
Qed.

Lemma say_county_caught (counties : list county) (c : county) :
  county_tables_aligned → raises_only is_caught (say_county counties c).
Proof.
  intros Hal. unfold say_county.
  apply raises_only_bind; [apply raises_only_lift, word_space_caught | intros ws].
  apply raises_only_bind; [by intros b | intros added].
  destruct (bool_decide (COUNTY_WAVS ≠ [])) eqn:Hne; cbn [andb];
    [| apply raises_only_ret].
  apply bool_decide_eq_true in Hne.
  destruct (_ && _); [| apply raises_only_ret].
  intros b. unfold mbind at 1, SE_bind at 1, lift at 1.
  destruct (py_index COUNTY_CODES (county_code c)) as [index | e] eqn:Ei;
    [| by eapply py_index_caught].
  destruct (county_file_found _ _ Hal Hne Ei) as [file Hfile].
  unfold mbind at 1, SE_bind at 1, lift at 1. rewrite Hfile.
  revert b. apply raises_only_bind; [| intros _].
  { apply (raises_only_try is_caught); [| done].
    apply raises_only_bind; [apply raises_only_lift, from_wav_caught | intros f].
    apply raises_only_state. }
  apply raises_only_bind; [apply raises_only_state | intros _].
  apply raises_only_bind; [apply raises_only_lift, is_last_caught | intros last_one].
  destruct last_one; [apply raises_only_state | apply raises_only_ret].
Qed.

Lemma say_alert_never_raises (sound_effect : clip) (filtered : odict (list string)) item :
  county_tables_aligned → raises_only (λ _, False) (say_alert sound_effect filtered item).
Proof.
  intros Hal. unfold say_alert.
  destruct (od_mem _ _); [| apply raises_only_ret].
  apply (raises_only_try is_caught).
  - apply raises_only_bind; [apply raises_only_lift, py_index_caught | intros index].
    apply raises_only_bind; [apply raises_only_lift, from_wav_caught | intros f].
    apply raises_only_bind; [apply raises_only_state | intros _].
    apply raises_only_bind; [apply add_multiples_caught | intros _].
    apply raises_only_bind; [apply raises_only_state | intros _].
    apply raises_only_bind; [apply raises_only_state | intros _].
    apply raises_only_for_each. intros c. by apply say_county_caught.
  - unfold is_caught. intros e He Hn. congruence.
Qed.

Lemma say_loop_counted (sound_effect : clip) (filtered : odict (list string)) a item b :
  county_tables_aligned →
  item ∈ a → od_mem filtered item.1 = true → sayable item = true →
  ∃ b', for_each a (say_alert sound_effect filtered) b = (Ok (), b')
        ∧ (S (alert_count b) ≤ alert_count b')%nat.
Proof.
  intros Hal Hin Hmem Hyes. revert b.
  induction a as [| x a IH]; intros b; [by apply elem_of_nil in Hin |].
  cbn. unfold mbind, SE_bind.
  pose proof (say_alert_never_raises sound_effect filtered x Hal b) as Hx.
  pose proof (say_alert_counts sound_effect filtered x b) as Hup.
  destruct (say_alert sound_effect filtered x b) as [[[] | e] b1] eqn:E; [| done].
  cbn in Hup. apply elem_of_cons in Hin as [<- | Hin].
  - pose proof (say_alert_counted sound_effect filtered item b Hmem Hyes) as Hc.
    rewrite E in Hc. cbn in Hc.
    pose proof (raises_only_for_each (λ _, False) a (say_alert sound_effect filtered)
                  (λ y, say_alert_never_raises sound_effect filtered y Hal) b1) as Hrest.
    pose proof (counts_up_for_each a (say_alert sound_effect filtered)
                  (λ y, say_alert_counts sound_effect filtered y) b1) as Hrup.
    destruct (for_each a _ b1) as [[[] | e] b2]; [| done].
    exists b2. split; [done |]. cbn in Hrup. lia.
  - destruct (IH Hin b1) as (b2 & -> & Hc). exists b2. split; [done | lia].
Qed.

(** X21: an announceable alert is broadcast.  When the collection holds
    an alert that is not blocked for the announcement, whose title is
    in the catalogue and whose clips exist, the county tables are
    aligned, and the opening clips and the configured suffix exist,
    [say_alerts] stores the titles, exports the announcement, replaces
    the tail message by 100 ms of silence and plays the announcement on
    every node, in the order of the configuration; no missing county
    clip or unknown title of another alert prevents it. *)
Theorem say_alerts_broadcasts a w st item :
  load_state w = (Ok st, w) →
  item ∈ a → sayable item = true →
  county_tables_aligned →
  wav_exists (Effect AlertSeperator) = true →
  wav_exists (Effect AlertSound) = true →
  wav_exists (SWP 148) = true →
  (∀ suffix, SayAlertSuffix = Some suffix → wav_exists (Sound suffix) = true) →
  ∃ f, say_alerts a w
       = (Ok (), World (Stored (json_of_state
                                  (set_last_sayalert st
                                     (SayDict (filtered_alerts_and_counties a)))))
                       (copied w)
                       (ran w ++ ((λ node_number, LocalPlay node_number "alert")
                                    <$> AsteriskNodes))
                       (Some silence_100) (Some f) (allclear_file w)
                       (warnings_txt w) (pushed w)).
Proof.
  intros Hload Hin Hyes Hal Hsep Hintro H148 Hsuffix. rewrite say_alerts_eq.
  unfold load_state in Hload. injection Hload as ->.
  assert (od_mem (filtered_alerts_and_counties a) item.1 = true) as Hmem.
  { apply filtered_mem. split; [unfold od_keys; by apply list_elem_of_fmap_2 |].
    unfold sayable in Hyes. destruct (existsb _ _); [done | done]. }
  unfold say_sound, say_loop, mbind, result_bind, from_wav. rewrite Hsep, Hintro, H148.
  destruct (say_loop_counted (File (Effect AlertSeperator))
              (filtered_alerts_and_counties a) a item
              (Builder [File (Effect AlertSound); Silent 600; File (SWP 148)] ∅ 0)
              Hal Hin Hmem Hyes) as (b' & -> & Hc).
  rewrite decide_False by lia.
  destruct SayAlertSuffix as [suffix |] eqn:Es.
  - rewrite (Hsuffix suffix eq_refl). by eexists.
  - by eexists.
Qed.

(** X22: the all clear.  When the state file loads and the clips
    exist, [say_allclear] empties the stored announcement, exports the
    all-clear file and plays it on every node.  Without a suffix the
    file holds the all-clear sound, 600 ms of silence and clip 147,
    after the configured delay; with a suffix the file is exported a
    second time and holds the suffix clip alone. *)
Theorem say_allclear_effect w st :
  load_state w = (Ok st, w) →
  wav_exists (Effect AllClearSound) = true →
  wav_exists (SWP 147) = true →
  (∀ suffix, SayAllClearSuffix = Some suffix → wav_exists (Sound suffix) = true) →
  say_allclear w
  = (Ok (), World (Stored (json_of_state (set_last_sayalert st (SayList []))))
                  (copied w)
                  (ran w ++ ((λ node_number, LocalPlay node_number "allclear")
                               <$> AsteriskNodes))
                  (tailmessage_file w) (alert_file w)
                  (Some (match SayAllClearSuffix with
                         | Some suffix => convert_audio [File (Sound suffix)]
                         | None =>
                             convert_audio
                               (let combined :=
                                  [File (Effect AllClearSound); Silent 600;
                                   File (SWP 147)] in
                                if 0 <? AUDIO_DELAY then Silent AUDIO_DELAY :: combined
                                else combined)
                         end))
                  (warnings_txt w) (pushed w)).
Proof.
  intros Hload Hclear H147 Hsuffix. unfold say_allclear.
  erewrite bind_ok by exact Hload.
  erewrite bind_ok by reflexivity.
  unfold from_wav. rewrite Hclear, H147.
  erewrite bind_ok by reflexivity.
  erewrite bind_ok by reflexivity.
  erewrite bind_ok by reflexivity.
  destruct SayAllClearSuffix as [suffix |] eqn:Es.
  - rewrite (Hsuffix suffix eq_refl).
    erewrite bind_ok by reflexivity.
    rewrite for_each_run. reflexivity.
  - erewrite bind_ok by reflexivity.
    rewrite for_each_run. reflexivity.
Qed.

End SayMore.

Lemma say_alerts_repeats_witness :
  let cfg := test_config [] [] 99 in
  let os := test_host in
  let w1 := (say_alerts tornado_warning (empty_world Absent)).2 in
  ran w1 = [LocalPlay "1998" "alert"]
  ∧ say_alerts tornado_warning w1
    = (Ok (), add_ran w1 [LocalPlay "1998" "alert"]).
Proof.
  intros cfg os w1.
  destruct (@say_alerts_repeats cfg os tornado_warning (empty_world Absent) w1)
    as (cs & Hran & Hsay); [reflexivity |].
  change (ran (empty_world Absent) ++ cs) with cs in Hran.
  rewrite <- Hran in Hsay. split; [reflexivity | exact Hsay].
Defined.

Definition unknown_alert : alerts :=
  [("Meteor Shower Warning", [zone "ARC125"])].

Lemma say_alerts_silent_witness :
  let cfg := test_config [] [] 99 in
  let os := test_host in
  say_alerts unknown_alert (empty_world stored_warning)
  = save_state
      (set_last_sayalert
         {| ct := Some (Some "WX"); id := Some (Some "WX"); alertscript_alerts := [];
            last_alerts := tornado_warning; last_sayalert := SayList ["Tornado Warning"];
            active_alerts := ["Tornado Warning"] |}
         (SayDict [("Meteor Shower Warning", ["ARC125"])]))
      (empty_world stored_warning).
Proof.
  intros cfg os.
  apply (@say_alerts_silent cfg os unknown_alert (empty_world stored_warning)).
  - reflexivity.
  - intros item Hin. apply list_elem_of_singleton in Hin as ->. reflexivity.
  - reflexivity.
  - reflexivity.
  - reflexivity.
Defined.

Lemma say_alerts_broadcasts_witness :
  let cfg := test_config [] [] 99 in
  let os := test_host in
  ∃ f, say_alerts unknown_and_known (empty_world Absent)
       = (Ok (), World (Stored (json_of_state
                                  (set_last_sayalert default_state
                                     (SayDict [("Meteor Shower Warning", ["ARC125"]);
                                               ("Tornado Warning", ["ARC125"])]))))
                       [] [LocalPlay "1998" "alert"] (Some silence_100) (Some f)
                       None None []).
Proof.
  intros cfg os.
  apply (@say_alerts_broadcasts cfg os unknown_and_known (empty_world Absent)
           default_state ("Tornado Warning", [zone "ARC125"])).
  - reflexivity.
  - right. left.
  - reflexivity.
  - right. cbn. lia.
  - reflexivity.
  - reflexivity.
  - reflexivity.
  - intros suffix Hs. discriminate Hs.
Defined.

(** A configuration with a suffix for the all clear. *)
Definition suffix_config : Config :=
  let c := test_config [] [] 99 in
  {| MAX_ALERTS := MAX_ALERTS;
     GLOBAL_BLOCKED_EVENTS := GLOBAL_BLOCKED_EVENTS;
     SAYALERT_BLOCKED_EVENTS := SAYALERT_BLOCKED_EVENTS;
     TAILMESSAGE_BLOCKED_EVENTS := TAILMESSAGE_BLOCKED_EVENTS;
     AUDIO_DELAY := AUDIO_DELAY;
     ENABLE_TAILMESSAGE := ENABLE_TAILMESSAGE;
     COUNTY_CODES := COUNTY_CODES;
     COUNTY_WAVS := COUNTY_WAVS;
     TONE_DIR := TONE_DIR;
     CT1 := CT1; CT2 := CT2; WXCT := WXCT; RptCT1 := RptCT1; RptCT2 := RptCT2;
     IDDir := IDDir; NormalID := NormalID; WXID := WXID; RptID := RptID;
     TailmessageCounties := TailmessageCounties;
     TailmessageSuffix := TailmessageSuffix;
     AlertSeperator := AlertSeperator;
     AlertSound := AlertSound;
     AllClearSound := AllClearSound;
     WithMultiples := WithMultiples;
     SayAlertSuffix := SayAlertSuffix;
     SayAllClearSuffix := Some "ALERTS/SWP_146.wav";
     AsteriskNodes := AsteriskNodes;
     Mappings := Mappings;
     SayAlert := SayAlert;
     SayAlertAll := SayAlertAll;
     SayAllClear := SayAllClear;
     SayAlertsChanged := SayAlertsChanged;
     AlertScriptEnable := AlertScriptEnable;
     CTAlerts := CTAlerts; CTEnable := CTEnable;
     IDAlerts := IDAlerts; IDEnable := IDEnable;
     PushoverEnable := PushoverEnable;
     PushoverDebug := PushoverDebug;
     SupermonCompat := SupermonCompat;
     TimeType := TimeType |}.

Lemma say_allclear_effect_witness :
  let cfg := suffix_config in
  let os := test_host in
  say_allclear (empty_world Absent)
  = (Ok (), World (Stored (json_of_state default_state)) [] [LocalPlay "1998" "allclear"]
                  None None (Some (convert_audio [File (Sound "ALERTS/SWP_146.wav")]))
                  None []).
Proof.
  intros cfg os.
  rewrite (@say_allclear_effect cfg os (empty_world Absent) default_state).
  - reflexivity.
  - reflexivity.
  - reflexivity.
  - reflexivity.
  - intros suffix Hs. reflexivity.
Defined.

(** ** A cycle after a cycle *)

Section Settled.
Context {cfg : Config} {os : Host}.
Implicit Types (a : alerts) (w : world) (st : state).

(** The state file exists and holds the alerts [a]. *)
Definition stores a w : Prop :=
  ∃ j, data_file w = Stored j ∧ od_of_pairs (default [] (j_last_alerts j)) = a.

(** [m] leaves the stored alerts in place, whether it returns or
    raises. *)
Definition keeps {A} a (m : M A) : Prop := ∀ w, stores a w → stores a (m w).2.

Lemma keeps_ret {A} a (x : A) : keeps a (mret x : M A).
Proof. by intros w. Qed.

Lemma keeps_lift {A} a (r : result A) : keeps a (lift r : M A).
Proof. by intros w. Qed.

Lemma keeps_raise {A} a (e : exn) : keeps a (raise e : M A).
Proof. by intros w. Qed.

Lemma keeps_bind {A B} a (m : M A) (f : A → M B) :
  keeps a m → (∀ x, keeps a (f x)) → keeps a (m ≫= f).
Proof.
  intros Hm Hf w Hw. unfold mbind, SE_bind. specialize (Hm w Hw).
  destruct (m w) as [[x | e] w1]; cbn in *; [by apply Hf | done].
Qed.

Lemma keeps_for_each {A} a (l : list A) (body : A → M unit) :
  (∀ x, keeps a (body x)) → keeps a (for_each l body).
Proof.
  intros Hbody. induction l as [| x l IH]; cbn; [apply keeps_ret |].
  apply keeps_bind; [apply Hbody | intros _; apply IH].
Qed.

Lemma keeps_same {A} a (m : M A) :
  (∀ w, data_file (m w).2 = data_file w) → keeps a m.
Proof. intros Hm w (j & Hj & Ha). exists j. by rewrite Hm. Qed.

Lemma keeps_load {A} a (f : state → M A) :
  (∀ st, last_alerts st = a → keeps a (f st)) → keeps a (load_state ≫= f).
Proof.
  intros Hf w Hw. pose proof Hw as (j & Hj & Ha).
  unfold mbind, SE_bind, load_state. rewrite Hj. cbn [load_state_of].
  apply Hf; [exact Ha | exact Hw].
Qed.

Lemma od_of_pairs_id {V} (l : list (string * V)) :
  NoDup (od_keys l) → od_of_pairs l = l.
Proof. intros Hnd. unfold od_of_pairs. fold (od_update [] l). by rewrite od_update_id. Qed.

Lemma save_stores st w : NoDup (od_keys (last_alerts st)) →
  stores (last_alerts st) (save_state st w).2.
Proof.
  intros Hnd. exists (json_of_state st). split; [done |]. cbn. by apply od_of_pairs_id.
Qed.

Lemma keeps_save a st : last_alerts st = a → keeps a (save_state st).
Proof.
  intros <- w (j & Hj & Ha). apply save_stores. rewrite <- Ha. apply od_of_pairs_NoDup.
Qed.

Lemma keeps_copyfile a (src dest : string) : keeps a (copyfile src dest).
Proof. apply keeps_same. intros w. unfold copyfile. by destruct (_ || _). Qed.

End Settled.

(** Steps through a computation that keeps the stored alerts. *)
Ltac keeps_step :=
  first
    [ apply keeps_ret
    | apply keeps_lift
    | apply keeps_raise
    | apply keeps_save; assumption
    | apply keeps_copyfile
    | apply keeps_for_each; intros ?
    | apply keeps_load; intros ? ?
    | apply keeps_bind; [| intros ?]
    | match goal with
      | |- keeps _ (if ?c then _ else _) => destruct c
      | |- keeps _ (match ?x with _ => _ end) => destruct x
      end
    | (apply keeps_same; intros ?; reflexivity) ].

Section SettledCycle.
Context {cfg : Config} {os : Host}.
Implicit Types (a : alerts) (w : world) (st : state).

Lemma keeps_change_ct a (X : string) : keeps a (change_ct X).
Proof. unfold change_ct. repeat keeps_step. Qed.

Lemma keeps_change_id a (X : string) : keeps a (change_id X).
Proof. unfold change_id. repeat keeps_step. Qed.

Lemma keeps_helper a b (specified : list string) (enabled : bool)
    (alert_type : string) (debug : bool) (msg : string) :
  keeps a (change_ct_id_helper b specified enabled alert_type debug msg).
Proof.
  unfold change_ct_id_helper, change_ct_id_helper_local.
  repeat first [apply keeps_change_ct | apply keeps_change_id | keeps_step].
Qed.

Lemma keeps_build_tailmessage a b : keeps a (build_tailmessage b).
Proof. unfold build_tailmessage. repeat keeps_step. Qed.

Lemma keeps_say_alerts a b : keeps a (say_alerts b).
Proof. unfold say_alerts. repeat keeps_step. Qed.

Lemma keeps_say_allclear a : keeps a say_allclear.
Proof. unfold say_allclear. repeat keeps_step. Qed.

Lemma keeps_alert_script a b : keeps a (alert_script b).
Proof.
  unfold alert_script. apply keeps_load. intros st Hst. cbv zeta.
  apply keeps_bind; [| intros p; by apply keeps_save].
  apply keeps_same. intros w.
  match goal with
  | |- data_file (process_mappings ?ms ?new ?p w).2 = _ =>
      destruct (process_mappings_spec ms new p w) as (r & cs & -> & _)
  end.
  reflexivity.
Qed.

Lemma get_alerts_distinct (fetch : string → option (list feature)) (now later : Z) w a :
  (get_alerts fetch now later COUNTY_CODES w).1 = Ok a → NoDup (od_keys a).
Proof.
  intros Hget.
  destruct (get_alerts fetch now later COUNTY_CODES w) as [r w1] eqn:E.
  cbn in Hget. subst r. unfold get_alerts, mbind, SE_bind, lift in E.
  destruct (fetch_loop _ _ _ _ _ w) as [[a0 | e] w0] eqn:Eloop; [| done].
  destruct (sort_alerts a0) as [r |] eqn:Esort; [| done]. injection E as <- <-.
  eapply sort_alerts_distinct; [exact Esort |].
  clear Esort. revert Eloop. generalize coherent_empty.
  generalize (([], ∅) : alerts * gset string).
  induction COUNTY_CODES as [| code codes IH]; intros acc Hacc; cbn.
  - intros [= <- <-]. by destruct Hacc as (_ & ? & _).
  - destruct (fetch code) as [fs |].
    + destruct (for_each fs (process_feature now code) acc) as [[[] | e] acc1] eqn:Ez;
        [| done].
      apply IH. by destruct (zone_loop_entries now code fs acc acc1 Hacc Ez).
    + destruct (data_file w); try done.
      * intros [= <- <-]. by destruct Hacc as (_ & ? & _).
      * intros [= <- <-]. rewrite stored_fallback_update. apply od_of_pairs_NoDup.
Qed.

Lemma same_zones_refl a : same_zones a a.
Proof.
  split; [done |]. intros t l l' H1 H2. congruence.
Qed.

(** X23: a cycle after a cycle.  When the state file exists and a cycle
    of [main] succeeds, a following cycle in which [get_alerts] returns
    the same alerts does nothing: whatever the first cycle announced,
    switched or ran, it stored its alerts, and the calls it made left
    them stored. *)
Theorem main_settles (fetch fetch' : string → option (list feature))
    (now later now' later' : Z) w (j : json_state) a w1 :
  data_file w = Stored j →
  (get_alerts fetch now later COUNTY_CODES w).1 = Ok a →
  main fetch now later w = (Ok (), w1) →
  (get_alerts fetch' now' later' COUNTY_CODES w1).1 = Ok a →
  main fetch' now' later' w1 = (Ok (), w1).
Proof.
  intros Hj Hget Hmain Hget'.
  pose proof (get_alerts_distinct _ _ _ _ _ Hget) as Hnd.
  assert (get_alerts fetch now later COUNTY_CODES w = (Ok a, w)) as Hg.
  { pose proof (get_alerts_reads fetch now later COUNTY_CODES w) as Hw.
    destruct (get_alerts fetch now later COUNTY_CODES w) as [r w0].
    cbn [fst snd] in Hget, Hw. by subst. }
  assert (get_alerts fetch' now' later' COUNTY_CODES w1 = (Ok a, w1)) as Hg'.
  { pose proof (get_alerts_reads fetch' now' later' COUNTY_CODES w1) as Hw.
    destruct (get_alerts fetch' now' later' COUNTY_CODES w1) as [r w0].
    cbn [fst snd] in Hget', Hw. by subst. }
  unfold main in Hmain.
  rewrite (bind_ok is_first_run _ w false w) in Hmain
    by (unfold is_first_run; by rewrite Hj).
  erewrite bind_ok in Hmain by reflexivity.
  erewrite (bind_ok load_state) in Hmain by (unfold load_state; rewrite Hj; reflexivity).
  erewrite bind_ok in Hmain by exact Hg.
  cbn [last_alerts] in Hmain.
  destruct (if bool_decide (a ≠ []) then _ else _) as [changed details] eqn:Edet.
  destruct (bool_decide (added_alerts a _ ≠ []) || _ || _) eqn:Echange.
  - assert (stores a w1) as (j1 & Hj1 & Ha1).
    { erewrite bind_ok in Hmain by reflexivity.
      match type of Hmain with
      | ?rest ?w' = _ =>
          assert (keeps a rest) as Hkeeps;
          [| specialize (Hkeeps w'); rewrite Hmain in Hkeeps; apply Hkeeps;
             apply (save_stores (set_last_alerts _ a) w Hnd)]
      end.
      unfold main_change_ct_id, supermon_back_compat. cbv zeta.
      repeat first
        [ apply keeps_say_allclear | apply keeps_helper | apply keeps_alert_script
        | apply keeps_say_alerts | apply keeps_build_tailmessage | keeps_step ]. }
    destruct (same_zones_no_difference a a Hnd (same_zones_refl a))
      as (Hadd & Hrem & Hdet).
    unfold main.
    rewrite (bind_ok is_first_run _ w1 false w1) by (unfold is_first_run; by rewrite Hj1).
    erewrite bind_ok by reflexivity.
    erewrite (bind_ok load_state) by (unfold load_state; rewrite Hj1; reflexivity).
    erewrite bind_ok by exact Hg'.
    cbn [last_alerts]. rewrite Ha1, Hadd, Hrem, Hdet.
    destruct (bool_decide (a ≠ [])); reflexivity.
  - injection Hmain as <-.
    unfold main.
    rewrite (bind_ok is_first_run _ w false w) by (unfold is_first_run; by rewrite Hj).
    erewrite bind_ok by reflexivity.
    erewrite (bind_ok load_state) by (unfold load_state; rewrite Hj; reflexivity).
    erewrite bind_ok by exact Hg'.
    cbn [last_alerts]. rewrite Edet, Echange. reflexivity.
Qed.

End SettledCycle.

(** The stored Tornado Warning reaches a second zone and a Flood
    Advisory appears: the cycle announces them, and the next cycle with
    the same feed does nothing. *)
Lemma main_settles_witness :
  let cfg := test_config [] [] 99 in
  let os := test_host in
  let w1 := (main two_zone_feed half_past_eleven half_past_eleven
                  (empty_world stored_warning)).2 in
  ran w1 = [LocalPlay "1998" "alert"]
  ∧ main two_zone_feed half_past_eleven half_past_eleven w1 = (Ok (), w1).
Proof.
  intros cfg os w1. split; [vm_compute; reflexivity |].
  apply (@main_settles cfg os two_zone_feed two_zone_feed half_past_eleven
           half_past_eleven half_past_eleven half_past_eleven
           (empty_world stored_warning) _ two_zone_result w1 eq_refl).
  - vm_compute. reflexivity.
  - vm_compute. reflexivity.
  - vm_compute. reflexivity.
Defined.

(** ** The county tables *)

(** The value of [Alerting.CountyCodes]: a list whose items are
    strings, dictionaries from a code to a sound file, or something
    else; one such dictionary; or any other value. *)
Inductive county_item :=
  | ItemStr (code : string)
  | ItemDict (d : odict string)
  | ItemOther.

Inductive county_codes_config :=
  | ConfigList (items : list county_item)
  | ConfigDict (d : odict string)
  | ConfigOther.

Definition is_str (i : county_item) : bool :=
  match i with ItemStr _ => true | _ => false end.

Definition is_dict (i : county_item) : bool :=
  match i with ItemDict _ => true | _ => false end.

Definition item_code (i : county_item) : list string :=
  match i with ItemStr code => [code] | _ => [] end.

Definition item_entries (i : county_item) : odict string :=
  match i with ItemDict d => d | _ => [] end.

(** The module-level code that fills [COUNTY_CODES] and [COUNTY_WAVS]. *)
Definition county_tables (COUNTY_CODES_CONFIG : county_codes_config)
    : list string * list string :=
  match COUNTY_CODES_CONFIG with
  | ConfigList items =>
      if forallb is_str items then (items ≫= item_code, [])
      else if forallb is_dict items then
        foldl (λ (acc : list string * list string) dic,
                 foldl (λ (acc : list string * list string) (kv : string * string),
                          (acc.1 ++ [kv.1], acc.2 ++ [kv.2]))
                       acc (item_entries dic))
              ([], []) items
      else ([], [])
  | ConfigDict d => (od_keys d, d.*2)
  | ConfigOther => ([], [])
  end.

Section CountyTables.
Implicit Types (c : county_codes_config) (d : odict string) (code file : string).

(** The pairs of a code and its sound file the configuration lists, in
    order. *)
Definition config_entries c : odict string :=
  match c with
  | ConfigList items => flat_map item_entries items
  | ConfigDict d => d
  | ConfigOther => []
  end.

Lemma inner_fold d (acc : list string * list string) :
  foldl (λ (acc : list string * list string) (kv : string * string),
           (acc.1 ++ [kv.1], acc.2 ++ [kv.2])) acc d
  = (acc.1 ++ d.*1, acc.2 ++ d.*2).
Proof.
  revert acc. induction d as [| [k v] d IH]; intros [ks vs]; cbn.
  - by rewrite !app_nil_r.
  - rewrite IH. cbn. by rewrite <- !app_assoc.
Qed.

Lemma outer_fold (items : list county_item) (acc : list string * list string) :
  foldl (λ (acc : list string * list string) dic,
           foldl (λ (acc : list string * list string) (kv : string * string),
                    (acc.1 ++ [kv.1], acc.2 ++ [kv.2]))
                 acc (item_entries dic)) acc items
  = (acc.1 ++ (flat_map item_entries items).*1, acc.2 ++ (flat_map item_entries items).*2).
Proof.
  revert acc. induction items as [| i items IH]; intros [ks vs]; cbn.
  - by rewrite !app_nil_r.
  - rewrite inner_fold, IH. cbn. by rewrite !fmap_app, !app_assoc.
Qed.

(** With sound files, the two tables are the two columns of the
    entries. *)
Lemma county_tables_columns c :
  (county_tables c).2 = []
  ∨ county_tables c = ((config_entries c).*1, (config_entries c).*2).
Proof.
  destruct c as [items | d |]; cbn; [| by right | by left].
  destruct (forallb is_str items); [by left |].
  destruct (forallb is_dict items); [| by left].
  right. by rewrite outer_fold.
Qed.

Lemma index_of_column (l : odict string) code (i : nat) :
  py_index l.*1 code = Ok i →
  ∃ file, l.*2 !! i = Some file ∧ od_get l code = Some file.
Proof.
  unfold py_index. revert i. induction l as [| [k v] l IH]; intros i; [done |].
  cbn [fmap list_fmap fst snd od_get list_find].
  destruct (decide (k = code)) as [-> | Hne].
  - intros [= <-]. by exists v.
  - destruct (list_find _ l.*1) as [[j y] |] eqn:E; [| done].
    cbn. intros [= <-]. destruct (IH j eq_refl) as (file & Hfile & Hget).
    by exists file.
Qed.

(** X24: the county tables agree.  Whatever the configuration holds
    under [CountyCodes], the tables built from it have no sound file at
    all or one for every county code; and when there are sound files,
    the file found at the index of a county code is the first one the
    configuration gives for that code. *)
Theorem county_tables_agree c :
  ((county_tables c).2 = [] ∨ length (county_tables c).1 = length (county_tables c).2)
  ∧ ∀ code i,
      (county_tables c).2 ≠ [] →
      py_index (county_tables c).1 code = Ok i →
      ∃ file, py_nth (county_tables c).2 i = Ok file
              ∧ od_get (config_entries c) code = Some file.
Proof.
  destruct (county_tables_columns c) as [Hnone | Heq].
  - split; [by left | done].
  - rewrite Heq. cbn [fst snd]. split.
    + right. by rewrite !length_fmap.
    + intros code i _ Hi. destruct (index_of_column _ _ _ Hi) as (file & Hfile & Hget).
      exists file. unfold py_nth. by rewrite Hfile.
Qed.

End CountyTables.

(** Two dictionaries in a list, the second repeating a code of the
    first. *)
Definition listed_counties : county_codes_config :=
  ConfigList [ItemDict [("ARC125", "Saline.wav")];
              ItemDict [("ARC119", "Pulaski.wav"); ("ARC125", "Other.wav")]].

Lemma county_tables_agree_witness :
  county_tables listed_counties
  = (["ARC125"; "ARC119"; "ARC125"], ["Saline.wav"; "Pulaski.wav"; "Other.wav"])
  ∧ ∃ file, py_nth (county_tables listed_counties).2 0 = Ok file
            ∧ od_get (config_entries listed_counties) "ARC125" = Some file.
Proof.
  split; [reflexivity |].
  apply (proj2 (county_tables_agree listed_counties) "ARC125" 0%nat).
  - discriminate.
  - reflexivity.
Defined.

(** ** The automatic switch of tone and identifier *)

Section AutoSwitch.
Context {cfg : Config} {os : Host}.
Implicit Types (a : alerts) (w : world) (st : state).







End AutoSwitch.

